(** * Exam-cell automation: the normalisation and seat-distribution core

    A shallow embedding of [backend/server.js]: the balanced randomised
    distribution ([distributeBalanced]), the hall geometry resolution and
    the odd-bench allocator of the [/api/allocate] handler, the roster
    reconciliation of [readStudentsFromFile] and the upload of students,
    the row parser [parseStudentRowRobust] and the hall list reader
    [readHallListFromFile]; then the output rows and the charts
    ([benchToRowCol], [buildOutputsFromAssignments], [buildVizAOA]), the
    halls made from [numHalls], and the handlers of [/api/upload/halls],
    [/api/update-students] and [/api/blueprint/analyze].

    Conventions of the embedding.
    - JavaScript numbers that hold counts coming from the outside (bench,
      row and column counts, numeric cells) are integers in [Z], and the
      arithmetic on them is exact; array indices and loop counters that
      start at [0] are in [nat].
    - Strings are sequences of 8-bit characters; the case mappings, the
      white-space class and the order of characters are the ASCII ones.
    - A thrown exception is the result [None], and so is a number that is
      infinite or [NaN] where an integer is expected.
    - [Math.random] is an explicit source of reals of the unit interval,
      read through a call counter; what is proved holds for every source.
    - A [Map] is the list of its entries in insertion order; a [Set] of
      strings is a [gset string]. *)

From Stdlib Require Import ZArith Lia Bool.
From Stdlib Require Import Strings.Ascii Strings.String.
From Stdlib Require Import Decimal DecimalString DecimalNat DecimalZ.
From stdpp Require Import base option list sorting strings gmap.

Set Warnings "-clear-no-such-hyp".

Local Open Scope Z_scope.
Local Open Scope string_scope.
Local Open Scope list_scope.
Local Open Scope nat_scope.

(** ** Numbers as text *)

(** [String(n)] for an integer [n]. *)
Definition String_of_Z (n : Z) : string :=
  NilZero.string_of_int (Z.to_int n).

(** [String(n)] for a natural number [n]. *)
Definition String_of_nat (n : nat) : string :=
  NilZero.string_of_uint (Nat.to_uint n).

(** ** JavaScript strings and cells *)

Module JS.
(** The class [\s], and the characters [trim] removes. *)
Definition is_space (c : ascii) : bool := Ascii.is_space c.

(** The class [[A-Za-z0-9]]. *)
Definition is_alnum (c : ascii) : bool :=
  let n := nat_of_ascii c in
  ((48 <=? n) && (n <=? 57)) || ((65 <=? n) && (n <=? 90)) ||
  ((97 <=? n) && (n <=? 122)).

(** The class [.]: any character but a line terminator. *)
Definition is_dot (c : ascii) : bool :=
  let n := nat_of_ascii c in negb ((n =? 10) || (n =? 13)).

Definition upper_char (c : ascii) : ascii :=
  let n := nat_of_ascii c in
  if (97 <=? n) && (n <=? 122) then ascii_of_nat (n - 32) else c.

Definition lower_char (c : ascii) : ascii :=
  let n := nat_of_ascii c in
  if (65 <=? n) && (n <=? 90) then ascii_of_nat (n + 32) else c.

Fixpoint toUpperCase (s : string) : string :=
  match s with
  | EmptyString => EmptyString
  | String c s' => String (upper_char c) (toUpperCase s')
  end.

Fixpoint toLowerCase (s : string) : string :=
  match s with
  | EmptyString => EmptyString
  | String c s' => String (lower_char c) (toLowerCase s')
  end.

Fixpoint trimStart (s : string) : string :=
  match s with
  | EmptyString => EmptyString
  | String c s' => if is_space c then trimStart s' else s
  end.

Definition trimEnd (s : string) : string :=
  String.rev (trimStart (String.rev s)).

Definition trim (s : string) : string := trimEnd (trimStart s).

(** [s.includes(sub)] *)
Fixpoint includes (s sub : string) : bool :=
  String.prefix sub s ||
  match s with
  | EmptyString => false
  | String _ s' => includes s' sub
  end.

(** [s.replace(/\s+/g, '')] *)
Fixpoint remove_spaces (s : string) : string :=
  match s with
  | EmptyString => EmptyString
  | String c s' =>
      if is_space c then remove_spaces s' else String c (remove_spaces s')
  end.

(** [/[A-Za-z0-9]/.test(s)]: some character of [s] is in the class. *)
Fixpoint test_alnum (s : string) : bool :=
  match s with
  | EmptyString => false
  | String c s' => is_alnum c || test_alnum s'
  end.

(** [s.endsWith(')')] *)
Definition endsWith_paren (s : string) : bool :=
  match String.rev s with
  | String c _ => Ascii.eqb c ")"
  | EmptyString => false
  end.

(** [s.lastIndexOf('(')]; [None] is [-1]. *)
Fixpoint lastIndexOf_paren (s : string) : option nat :=
  match s with
  | EmptyString => None
  | String c s' =>
      match lastIndexOf_paren s' with
      | Some i => Some (S i)
      | None => if Ascii.eqb c "(" then Some 0 else None
      end
  end.

(** [s.slice(a, b)] for [0 <= a] and [0 <= b]. *)
Definition slice (s : string) (a b : nat) : string :=
  String.substring a (b - a) s.

(** The leading decimal digits of [s], as a number. *)
Fixpoint digits (acc : option Z) (s : string) : option Z :=
  match s with
  | EmptyString => acc
  | String c s' =>
      match Ascii.is_nat c with
      | Some d => digits (Some (default 0 acc * 10 + Z.of_nat d)%Z) s'
      | None => acc
      end
  end.

(** [parseInt(s, 10)] on a string; [None] is [NaN]. *)
Definition parseInt (s : string) : option Z :=
  match trimStart s with
  | String "-" s' => Z.opp <$> digits None s'
  | String "+" s' => digits None s'
  | s' => digits None s'
  end.

(** [k] characters ['0']. *)
Fixpoint zeros (k : nat) : string :=
  match k with
  | 0 => EmptyString
  | S k' => String "0" (zeros k')
  end.

(** [s.padStart(n, '0')] *)
Definition padStart0 (n : nat) (s : string) : string :=
  zeros (n - String.length s) +:+ s.
End JS.

(** A cell of a sheet, as [sheet_to_json] gives it: a string or a number
    (an integer here). *)
Inductive cell := CStr (s : string) | CNum (n : Z).

(** A row of a sheet: its entries in the order of [Object.keys] (the keys
    of an object are pairwise distinct; nothing below depends on it). *)
Definition row := list (string * cell).

(** [row[k]]; [None] is [undefined]. *)
Fixpoint get (r : row) (k : string) : option cell :=
  match r with
  | [] => None
  | (k', v) :: r' => if String.eqb k' k then Some v else get r' k
  end.

(** [String(v)] *)
Definition String_of (v : cell) : string :=
  match v with
  | CStr s => s
  | CNum n => String_of_Z n
  end.

(** Whether [v] is truthy. *)
Definition truthy (v : option cell) : bool :=
  match v with
  | None => false
  | Some (CStr s) => negb (String.eqb s "")
  | Some (CNum n) => negb (n =? 0)%Z
  end.

(** [v || ''] *)
Definition or_empty (v : option cell) : cell :=
  match v with
  | Some c => if truthy v then c else CStr ""
  | None => CStr ""
  end.

(** [String(row[k]||'').trim()] *)
Definition text (r : row) (k : string) : string :=
  JS.trim (String_of (or_empty (get r k))).

(** ** The random source *)

(** A value returned by [Math.random()]: the rational
    [num / (num + gap + 1)], which ranges over the rationals of [0, 1). *)
Record unit_real := UnitReal { num : nat; gap : nat }.

(** [Math.floor(u * n)] for [u] a value of [Math.random()]. *)
Definition floor_mul (u : unit_real) (n : nat) : nat :=
  (num u * n) `div` (num u + gap u + 1).

(** The value of the [k]-th call of [Math.random()]. *)
Definition random_source := nat → unit_real.

Section shuffle.
Context {A : Type}.
Variable rnd : random_source.

(** [[arr[i], arr[j]] = [arr[j], arr[i]]] *)
Definition swap (arr : list A) (i j : nat) : list A :=
  match arr !! i, arr !! j with
  | Some x, Some y => <[j := x]> (<[i := y]> arr)
  | _, _ => arr
  end.

(** The body of the [for] loop of [shuffleArray], from [i] down to [1];
    [k] counts the calls of [Math.random] made so far. *)
Fixpoint shuffle_loop (i k : nat) (arr : list A) : list A * nat :=
  match i with
  | 0 => (arr, k)
  | S i' =>
      let j := floor_mul (rnd k) (i + 1) in
      shuffle_loop i' (S k) (swap arr i j)
  end.

Definition shuffleArray (k : nat) (arr : list A) : list A * nat :=
  shuffle_loop (length arr - 1) k arr.
End shuffle.

(** ** [Array.prototype.sort] *)

(** The built-in sort as an insertion sort driven by the comparison
    function; [cmp a b] is the number the function returns.  The sort is
    stable, and the engine looks only at whether that number is negative:
    an element [x] stays before an element [y] that followed it in the
    array, unless [cmp y x] is negative.  So the elements that compare
    equal, and those for which a function such as [(a,b) => a < b ? -1 : 1]
    answers [1] both ways, keep the order they had. *)
Section array_sort.
Context {A : Type}.
Variable cmp : A → A → Z.

Fixpoint sort_insert (x : A) (l : list A) : list A :=
  match l with
  | [] => [x]
  | y :: l' => if (cmp y x <? 0)%Z then y :: sort_insert x l' else x :: y :: l'
  end.

Fixpoint Array_sort (l : list A) : list A :=
  match l with
  | [] => []
  | x :: l' => sort_insert x (Array_sort l')
  end.
End array_sort.

(** ** Data model *)

Record student := Student {
  register_number : string;
  student_name : string;
  subject_code : string
}.

(** A hall record; [rows] and [cols] are [None] when the field is [null]. *)
Record hall := Hall {
  hall_id : string;
  benches : Z;
  rows : option Z;
  cols : option Z
}.

(** An element of the array [distributeBalanced] returns. *)
Record assignment := Assignment {
  a_hall_id : string;
  bench_index_in_hall : Z;
  a_student : student
}.

(** An element of the array [subjects]. *)
Record group := Group {
  subject : string;
  q : list student;
  count : nat
}.

(** ** [distributeBalanced] *)

(** [(s.subject_code || '__NONE__').toString()] *)
Definition subject_key (s : student) : string :=
  if String.eqb (subject_code s) "" then "__NONE__" else subject_code s.

(** [if (!bySub.has(key)) bySub.set(key, []); bySub.get(key).push(s)] on a
    [Map], whose entries are kept in insertion order. *)
Fixpoint bySub_push (key : string) (s : student)
    (bySub : list (string * list student)) : list (string * list student) :=
  match bySub with
  | [] => [(key, [s])]
  | (k, v) :: rest =>
      if String.eqb k key then (k, v ++ [s]) :: rest
      else (k, v) :: bySub_push key s rest
  end.

Definition group_by_subject (studentsArr : list student)
    : list (string * list student) :=
  foldl (λ bySub s, bySub_push (subject_key s) s bySub) [] studentsArr.

(** [for (const [_, q] of bySub.entries()) shuffleArray(q)] *)
Fixpoint shuffle_queues (rnd : random_source) (k : nat)
    (bySub : list (string * list student)) : list (string * list student) * nat :=
  match bySub with
  | [] => ([], k)
  | (key, v) :: rest =>
      let '(v', k') := shuffleArray rnd k v in
      let '(rest', k'') := shuffle_queues rnd k' rest in
      ((key, v') :: rest', k'')
  end.

(** [subjects.sort((a,b) => b.count - a.count)] *)
Definition by_count_desc (a b : group) : Z :=
  (Z.of_nat (count b) - Z.of_nat (count a))%Z.

(** The array [subjects] as it stands before the halls are filled. *)
Definition make_subjects (rnd : random_source) (k : nat)
    (studentsArr : list student) : list group :=
  let bySub := (shuffle_queues rnd k (group_by_subject studentsArr)).1 in
  Array_sort by_count_desc
    (map (λ e, Group e.1 e.2 (length e.2)) bySub).

(** One round-robin sweep: the inner [for] loop over [subjects].  A seat
    is written only at an index below [capacity], the length of
    [hallSeats]. *)
Fixpoint sweep (capacity : Z) (subjects : list group)
    (hallSeats : list (option student)) (idx : nat) (placed : bool)
    : list group * list (option student) * nat * bool :=
  match subjects with
  | [] => ([], hallSeats, idx, placed)
  | sub :: rest =>
      if (Z.of_nat idx <? capacity)%Z then
        match q sub with
        | [] =>
            let '(rest', seats', idx', placed') :=
              sweep capacity rest hallSeats idx placed in
            (sub :: rest', seats', idx', placed')
        | s :: q' =>
            let '(rest', seats', idx', placed') :=
              sweep capacity rest (<[idx := Some s]> hallSeats) (S idx) true in
            (Group (subject sub) q' (count sub) :: rest', seats', idx', placed')
        end
      else (subjects, hallSeats, idx, placed)
  end.

(** The [while (idx < capacity)] loop; [None] when [fuel] iterations do
    not reach its exit.  An iteration that does not exit fills a seat, so
    one iteration more than there are benches always reaches it
    ([fill_loop_spec]). *)
Fixpoint fill_loop (fuel : nat) (capacity : Z) (subjects : list group)
    (hallSeats : list (option student)) (idx : nat)
    : option (list group * list (option student)) :=
  match fuel with
  | 0 => None
  | S fuel' =>
      if (Z.of_nat idx <? capacity)%Z then
        let '(subjects', seats', idx', placed) :=
          sweep capacity subjects hallSeats idx false in
        if placed then fill_loop fuel' capacity subjects' seats' idx'
        else Some (subjects', seats')
      else Some (subjects, hallSeats)
  end.

(** [new Array(n).fill(x)] for an integer [n]; a negative length throws a
    [RangeError].  The engine's upper limit on array lengths is not
    modelled: a length of [2^32] or more throws as well, and what is said
    of the error itself is said of lengths below that. *)
Definition new_Array_fill {A} (n : Z) (x : A) : option (list A) :=
  if (n <? 0)%Z then None else Some (replicate (Z.to_nat n) x).

(** The loop that pushes the occupied seats of one hall, from index [b]. *)
Fixpoint collect_seats (hid : string) (b : nat)
    (hallSeats : list (option student)) : list assignment :=
  match hallSeats with
  | [] => []
  | Some s :: rest =>
      Assignment hid (Z.of_nat b + 1) s :: collect_seats hid (S b) rest
  | None :: rest => collect_seats hid (S b) rest
  end.

(** The body of [for (const h of hallDefs)]. *)
Definition fill_hall (h : hall) (subjects : list group)
    : option (list group * list assignment) :=
  hallSeats ← new_Array_fill (benches h) None;
  '(subjects', seats') ←
    fill_loop (S (Z.to_nat (benches h))) (benches h) subjects hallSeats 0;
  Some (subjects', collect_seats (hall_id h) 0 seats').

(** The first pass: all halls in order. *)
Fixpoint primary_pass (hallDefs : list hall) (subjects : list group)
    (assignments : list assignment) : option (list group * list assignment) :=
  match hallDefs with
  | [] => Some (subjects, assignments)
  | h :: rest =>
      '(subjects', a) ← fill_hall h subjects;
      primary_pass rest subjects' (assignments ++ a)
  end.

(** [for (const sub of subjects) while (sub.q.length) remaining.push(sub.q.shift())] *)
Definition drain (subjects : list group) : list student :=
  concat (map q subjects).

(** [`${hall_id}#${bench}`] *)
Definition seat_key (hid : string) (bench : Z) : string :=
  hid +:+ "#" +:+ String_of_Z bench.

(** [for (const h of hallDefs) for (let b=1;b<=h.benches;b++) positions.push(...)] *)
Definition all_positions (hallDefs : list hall) : list (string * Z) :=
  flat_map (λ h, map (λ b, (hall_id h, b)) (seqZ 1 (benches h))) hallDefs.

(** The loop over [positions] of the second pass; [remaining !! i = None]
    is the exit [i >= remaining.length]. *)
Fixpoint backfill (positions : list (string * Z)) (remaining : list student)
    (i : nat) (used : gset string) (assignments : list assignment)
    : list assignment :=
  match positions with
  | [] => assignments
  | p :: rest =>
      match remaining !! i with
      | None => assignments
      | Some s =>
          let key := seat_key p.1 p.2 in
          if decide (key ∈ used) then backfill rest remaining i used assignments
          else backfill rest remaining (S i) ({[key]} ∪ used)
                 (assignments ++ [Assignment p.1 p.2 s])
      end
  end.

(** The second pass, entered with the result of the first. *)
Definition second_pass (hallDefs : list hall) (subjects : list group)
    (assignments : list assignment) : list assignment :=
  let remaining := drain subjects in
  match remaining with
  | [] => assignments
  | _ :: _ =>
      let used : gset string :=
        list_to_set
          (map (λ a, seat_key (a_hall_id a) (bench_index_in_hall a)) assignments) in
      backfill (all_positions hallDefs) remaining 0 used assignments
  end.

Definition distributeBalanced (rnd : random_source) (k : nat)
    (studentsArr : list student) (hallDefs : list hall)
    : option (list assignment) :=
  '(subjects, assignments) ←
    primary_pass hallDefs (make_subjects rnd k studentsArr) [];
  Some (second_pass hallDefs subjects assignments).

(** ** Specification functions used in the proofs *)

(** The seats of a hall of [cap] benches whose first benches hold [placed]. *)
Definition seats_of (cap : nat) (placed : list student) : list (option student) :=
  (Some <$> placed) ++ replicate (cap - length placed) None.

(** What one sweep takes when [n] benches are free: the head of each of the
    first [n] non-empty queues. *)
Fixpoint take_round (n : nat) (subjects : list group) : list student * list group :=
  match subjects with
  | [] => ([], [])
  | sub :: rest =>
      match n with
      | 0 => ([], subjects)
      | S n' =>
          match q sub with
          | [] => let '(t, r) := take_round n rest in (t, sub :: r)
          | s :: q' =>
              let '(t, r) := take_round n' rest in
              (s :: t, Group (subject sub) q' (count sub) :: r)
          end
      end
  end.

(** The assignments of one hall whose first benches hold [placed]. *)
Definition block (hid : string) (placed : list student) : list assignment :=
  imap (λ b s, Assignment hid (Z.of_nat b + 1) s) placed.

(** The position an assignment names. *)
Definition position (a : assignment) : string * Z :=
  (a_hall_id a, bench_index_in_hall a).

(** The groups of a [Map]: distinct keys, and every queued student under
    the key of its subject. *)
Definition groups_wf (subjects : list group) : Prop :=
  NoDup (subject <$> subjects) ∧
  Forall (λ g, Forall (λ s, subject_key s = subject g) (q g)) subjects.

(** What a sweep may do to one group: leave it, or take its head. *)
Definition one_taken (g g' : group) : Prop :=
  subject g' = subject g ∧ count g' = count g ∧
  (q g' = q g ∨ ∃ s, q g = s :: q g').

(** The assignments of the halls whose first benches hold [fills], hall by
    hall. *)
Definition blocks (hallDefs : list hall) (fills : list (list student))
    : list assignment :=
  concat (zip_with (λ h t, block (hall_id h) t) hallDefs fills).

(** [sum(hall.benches)] *)
Definition sum_benches (hallDefs : list hall) : Z :=
  foldr Z.add 0%Z (benches <$> hallDefs).

(** The assignments [blk] all name hall [h], each a bench of [h], and no
    bench twice. *)
Definition hall_block_ok (h : hall) (blk : list assignment) : Prop :=
  Forall (λ a, a_hall_id a = hall_id h ∧
               (1 ≤ bench_index_in_hall a ≤ benches h)%Z) blk ∧
  NoDup (bench_index_in_hall <$> blk).

(** ** Hall geometry and the allocator of [/api/allocate] *)

(** [Math.ceil(a / b)] for integers [a] and [b ≠ 0]. *)
Definition ceil_div (a b : Z) : Z := (- ((- a) / b))%Z.

(** [Math.ceil(a / b)] where [b] is a variable of the program: the quotient
    by zero is infinite or [NaN], which is no integer ([None]). *)
Definition Math_ceil_quot (a b : Z) : option Z :=
  if (b =? 0)%Z then None else Some (ceil_div a b).

(** [x || null] for a field that holds a number or [null]. *)
Definition or_null (x : option Z) : option Z :=
  match x with
  | Some 0%Z => None
  | _ => x
  end.

(** The body of [for (const h of rawHalls)]: the resolved hall pushed onto
    [hallDefs]. *)
Definition resolve_hall (h : hall) : option hall :=
  let benches := if (benches h =? 0)%Z then 30%Z else benches h in
  '(rows, cols) ←
    match or_null (rows h), or_null (cols h) with
    | None, None => let cols := 10%Z in Some (ceil_div benches cols, cols)
    | Some rows, None => cols ← Math_ceil_quot benches rows; Some (rows, cols)
    | None, Some cols => rows ← Math_ceil_quot benches cols; Some (rows, cols)
    | Some rows, Some cols => Some (rows, cols)
    end;
  cols ← (if (rows * cols <? benches)%Z then Math_ceil_quot benches rows
          else Some cols);
  Some (Hall (hall_id h) benches (Some rows) (Some cols)).

(** A number or [null] in an arithmetic position. *)
Definition to_number (x : option Z) : Z := default 0%Z x.

(** The element of [oddDefs] made from [h]. *)
Definition odd_def (h : hall) : hall :=
  Hall (hall_id h) (ceil_div (benches h) 2) (rows h)
       (Some (ceil_div (to_number (cols h)) 2)).

(** An element of the array [assignments] of the handler. *)
Record placement := Placement {
  p_hall_id : string;
  bench_number : Z;
  p_student : student
}.

(** [!allocator || allocator==='odd']; [None] is [undefined]. *)
Definition odd_mode (allocator : option string) : bool :=
  match allocator with
  | None => true
  | Some a => String.eqb a "" || String.eqb a "odd"
  end.

(** The two branches on [allocator], after the pool was shuffled. *)
Definition allocate_pool (rnd : random_source) (k : nat)
    (allocator : option string) (pool : list student) (hallDefs : list hall)
    : option (list placement) :=
  if odd_mode allocator then
    a ← distributeBalanced rnd k pool (odd_def <$> hallDefs);
    Some (map (λ x, Placement (a_hall_id x) ((bench_index_in_hall x - 1) * 2 + 1)%Z
                              (a_student x)) a)
  else
    a ← distributeBalanced rnd k pool hallDefs;
    Some (map (λ x, Placement (a_hall_id x) (bench_index_in_hall x) (a_student x)) a).

(** The branch of the handler without [days]: [shuffleArray(students)], then
    the allocator. *)
Definition allocate_single (rnd : random_source) (k : nat)
    (allocator : option string) (students : list student) (hallDefs : list hall)
    : option (list placement) :=
  let '(pool, k') := shuffleArray rnd k students in
  allocate_pool rnd k' allocator pool hallDefs.

(** The body of the loop over [days]: the pool is the roster, or its
    records whose subject is among [d.subjects] when this is a non-empty
    array ([None] when it is no array); then [shuffleArray(pool)] and the
    allocator. *)
Definition allocate_day (rnd : random_source) (k : nat)
    (allocator : option string) (students : list student)
    (subjects : option (list string)) (hallDefs : list hall)
    : option (list placement) :=
  let pool :=
    match subjects with
    | Some (c :: l) =>
        let set : gset string := list_to_set (JS.toUpperCase <$> c :: l) in
        filter (λ s, JS.toUpperCase (subject_code s) ∈ set) students
    | _ => students
    end in
  let '(pool', k') := shuffleArray rnd k pool in
  allocate_pool rnd k' allocator pool' hallDefs.

(** [q] is the ceiling of [a / b], for [b > 0]: the least integer [q] with
    [a ≤ b * q]. *)
Definition is_ceil (a b q : Z) : Prop := (b * (q - 1) < a ≤ b * q)%Z.

(** ** Example data *)

Definition example_rnd : random_source := λ k, UnitReal k 1.

Definition example_pool : list student :=
  [Student "R1" "Asha" "CS"; Student "R2" "Bala" "CS"; Student "R3" "Chitra" "CS";
   Student "R4" "Dev" "CS"; Student "R5" "Esha" "CS"].

Definition example_hall : hall := Hall "H1" 3 None None.

(** ** [PAREN_REGEX] and [extractFromCombinedCell] *)

(** The pieces of the regular expression, each as the list of its ways to
    match at the start of a string, in the order the backtracking matcher
    tries them; a way is the text matched and the rest of the string. *)
Section regex.
Variable P : ascii → bool.

(** [X+?]: the shortest match first. *)
Fixpoint lazy_plus (s : string) : list (string * string) :=
  match s with
  | EmptyString => []
  | String c s' =>
      if P c then
        (String c EmptyString, s')
          :: map (λ m, (String c m.1, m.2)) (lazy_plus s')
      else []
  end.

(** [X*]: the longest match first. *)
Fixpoint greedy_star (s : string) : list (string * string) :=
  match s with
  | EmptyString => [(EmptyString, EmptyString)]
  | String c s' =>
      if P c then
        map (λ m, (String c m.1, m.2)) (greedy_star s') ++ [(EmptyString, s)]
      else [(EmptyString, s)]
  end.

(** [X+]: the longest match first. *)
Definition greedy_plus (s : string) : list (string * string) :=
  match s with
  | EmptyString => []
  | String c s' =>
      if P c then map (λ m, (String c m.1, m.2)) (greedy_star s') else []
  end.
End regex.

(** One literal character. *)
Definition literal (c : ascii) (s : string) : list string :=
  match s with
  | String c' s' => if Ascii.eqb c c' then [s'] else []
  | EmptyString => []
  end.

(** [s.match(/^(.+?)\s*\(\s*([^)]+)\s*\)\s*$/)]: the groups 1 and 2 of the
    first way to match the whole of [s]. *)
Definition match_PAREN_REGEX (s : string) : option (string * string) :=
  head (
    g1 ← lazy_plus JS.is_dot s;
    w1 ← greedy_star JS.is_space g1.2;
    r1 ← literal "(" w1.2;
    w2 ← greedy_star JS.is_space r1;
    g2 ← greedy_plus (λ c, negb (Ascii.eqb c ")")) w2.2;
    w3 ← greedy_star JS.is_space g2.2;
    r2 ← literal ")" w3.2;
    w4 ← greedy_star JS.is_space r2;
    if String.eqb w4.2 "" then [(g1.1, g2.1)] else []).

(** [extractFromCombinedCell]; the pair is [(left, right)], and [None] is
    [null]. *)
Definition extractFromCombinedCell (v : option cell) : option (string * string) :=
  match v with
  | None => None
  | Some c =>
      let s := JS.trim (String_of c) in
      match match_PAREN_REGEX s with
      | Some m => Some (JS.trim m.1, JS.trim m.2)
      | None =>
          match JS.lastIndexOf_paren s with
          | Some idx =>
              if JS.endsWith_paren s then
                Some (JS.trim (JS.slice s 0 idx),
                      JS.trim (JS.slice s (idx + 1) (String.length s - 1)))
              else Some (s, "")
          | None => Some (s, "")
          end
      end
  end.

(** [normalizeRegister] *)
Definition normalizeRegister (reg : cell) : string :=
  if truthy (Some reg) then
    JS.toUpperCase (JS.remove_spaces (JS.trim (String_of reg)))
  else "".

(** ** [parseStudentRowRobust] *)

Record columns := Columns {
  studentCol : option string;
  nameCol : option string;
  regCol : option string;
  courseCol : option string;
  subjCol : option string
}.

(** [!col] for a column variable: [null] or the empty key. *)
Definition unset (col : option string) : bool :=
  match col with
  | None => true
  | Some k => String.eqb k ""
  end.

(** The body of the first [for (const k of keys)] loop. *)
Definition detect_column (c : columns) (k : string) : columns :=
  let kl := JS.toLowerCase k in
  {| studentCol :=
       if unset (studentCol c) &&
          (String.eqb kl "student" || JS.includes kl "student" || JS.includes kl "name(")
       then Some k else studentCol c;
     nameCol :=
       if unset (nameCol c) && (String.eqb kl "name" || JS.includes kl "student name")
       then Some k else nameCol c;
     regCol :=
       if unset (regCol c) &&
          (JS.includes kl "reg" || JS.includes kl "register" || JS.includes kl "roll")
       then Some k else regCol c;
     courseCol :=
       if unset (courseCol c) &&
          (JS.includes kl "course" || JS.includes kl "course name" ||
           JS.includes kl "programme")
       then Some k else courseCol c;
     subjCol :=
       if unset (subjCol c) &&
          (JS.includes kl "sub" || JS.includes kl "subject" || JS.includes kl "code")
       then Some k else subjCol c |}.

Definition detect_columns (keys : list string) : columns :=
  foldl detect_column (Columns None None None None None) keys.

(** [col && String(row[col]||'').trim() !== ''] *)
Definition filled (r : row) (col : option string) : bool :=
  match col with
  | None => false
  | Some k => negb (String.eqb k "") && negb (String.eqb (text r k) "")
  end.

(** The test of the fall-back scan on the key [k]. *)
Definition fallback_candidate (r : row) (k : string) : bool :=
  let v := text r k in
  negb (String.eqb v "") && (String.length v <=? 8) && JS.test_alnum v &&
  negb (JS.includes (JS.toLowerCase k) "name").

(** The fall-back scan: [subject_code] when its loop ends. *)
Fixpoint fallback_scan (r : row) (keys : list string) : string :=
  match keys with
  | [] => ""
  | k :: keys' => if fallback_candidate r k then text r k else fallback_scan r keys'
  end.

Record parsed_row := ParsedRow {
  row_register_number : string;
  row_student_name : string;
  row_subject_code : string;
  row_subject_name : string
}.

(** [String(row[col]).trim()] *)
Definition raw_text (r : row) (k : string) : string :=
  JS.trim (from_option String_of "undefined" (get r k)).

Definition parseStudentRowRobust (r : row) : parsed_row :=
  let keys := r.*1 in
  let c := detect_columns keys in
  let '(student_name, register_number) :=
    if filled r (studentCol c) then
      let k := default "" (studentCol c) in
      match extractFromCombinedCell (get r k) with
      | Some p => (p.1, p.2)
      | None => (raw_text r k, "")
      end
    else
      (match nameCol c with
       | Some k => if String.eqb k "" then "" else text r k
       | None => ""
       end,
       match regCol c with
       | Some k => if String.eqb k "" then "" else text r k
       | None => ""
       end) in
  let '(subject_code, subject_name) :=
    if filled r (courseCol c) then
      let k := default "" (courseCol c) in
      match extractFromCombinedCell (get r k) with
      | Some p => (p.2, p.1)
      | None => ("", raw_text r k)
      end
    else if filled r (subjCol c) then
      let k := default "" (subjCol c) in
      match extractFromCombinedCell (get r k) with
      | Some p => (p.2, p.1)
      | None => (raw_text r k, "")
      end
    else (fallback_scan r keys, "") in
  ParsedRow (normalizeRegister (CStr register_number)) student_name
            (JS.toUpperCase (JS.trim subject_code)) subject_name.

(** ** [readStudentsFromFile] and the upload of students *)

(** The function mapped over the raw rows: a row that already has one of the
    canonical fields is taken as it is, any other goes through the robust
    parser. *)
Definition parse_record (r : row) : student :=
  if truthy (get r "student_name") || truthy (get r "register_number") ||
     truthy (get r "subject_code")
  then
    Student (normalizeRegister (or_empty (get r "register_number")))
            (JS.trim (String_of (or_empty (get r "student_name"))))
            (JS.toUpperCase (String_of (or_empty (get r "subject_code"))))
  else
    let p := parseStudentRowRobust r in
    Student (row_register_number p) (row_student_name p) (row_subject_code p).

(** The loop that drops the later records of an identifier already seen. *)
Fixpoint dedup (parsed : list student) (seen : gset string) : list student :=
  match parsed with
  | [] => []
  | s :: rest =>
      let reg := register_number s in
      if negb (String.eqb reg "") && bool_decide (reg ∈ seen) then dedup rest seen
      else
        s :: dedup rest (if negb (String.eqb reg "") then {[reg]} ∪ seen else seen)
  end.

(** [`SYN${String(syntheticCounter).padStart(4,'0')}`] *)
Definition synthetic_id (syntheticCounter : nat) : string :=
  "SYN" +:+ JS.padStart0 4 (String_of_nat syntheticCounter).

(** The loop that gives the records without identifier a synthetic one. *)
Fixpoint assign_synthetic (unique : list student) (syntheticCounter : nat)
    : list student :=
  match unique with
  | [] => []
  | s :: rest =>
      if String.eqb (register_number s) "" then
        Student (synthetic_id syntheticCounter) (student_name s) (subject_code s)
          :: assign_synthetic rest (S syntheticCounter)
      else s :: assign_synthetic rest syntheticCounter
  end.

(** [(a,b) => (a.register_number < b.register_number ? -1 : 1)] *)
Definition by_register (a b : student) : Z :=
  if String.ltb (register_number a) (register_number b) then (-1)%Z else 1%Z.

(** The error correction of [readStudentsFromFile], on the parsed records. *)
Definition reconcile (parsed : list student) : list student :=
  Array_sort by_register (assign_synthetic (dedup parsed ∅) 1).

(** [readStudentsFromFile], on the rows [safeReadWorkbook] returns. *)
Definition readStudentsFromFile (raw : list row) : list student :=
  reconcile (parse_record <$> raw).

(** The roster the handler of [/api/upload/students] saves:
    [for (const f of files) students = students.concat(readStudentsFromFile(f.path))]. *)
Definition upload_students (files : list (list row)) : list student :=
  foldl (λ students f, students ++ readStudentsFromFile f) [] files.

(** ** [readHallListFromFile] *)

Record hall_keys := HallKeys {
  hallKey : option string;
  benchesKey : option string;
  rowsKey : option string;
  colsKey : option string
}.

(** The body of the loop over the keys of a hall row. *)
Definition detect_hall_key (c : hall_keys) (k : string) : hall_keys :=
  let kn := JS.toLowerCase k in
  {| hallKey :=
       if unset (hallKey c) &&
          (JS.includes kn "hall" || JS.includes kn "class" ||
           JS.includes kn "room" || JS.includes kn "id")
       then Some k else hallKey c;
     benchesKey :=
       if unset (benchesKey c) &&
          (JS.includes kn "bench" || JS.includes kn "seat" ||
           JS.includes kn "capacity" || JS.includes kn "benches")
       then Some k else benchesKey c;
     rowsKey :=
       if unset (rowsKey c) && (String.eqb kn "rows" || JS.includes kn "row")
       then Some k else rowsKey c;
     colsKey :=
       if unset (colsKey c) &&
          (String.eqb kn "cols" || JS.includes kn "col" || JS.includes kn "column")
       then Some k else colsKey c |}.

(** [parseInt(v, 10)] on a cell; [None] is [NaN]. *)
Definition parseInt_cell (v : option cell) : option Z :=
  match v with
  | None => None
  | Some (CNum n) => Some n
  | Some (CStr s) => JS.parseInt s
  end.

(** [key && r[key] !== '' ? parseInt(r[key],10) || null : null] *)
Definition number_field (r : row) (key : option string) : option Z :=
  match key with
  | None => None
  | Some k =>
      if String.eqb k "" then None
      else
        match get r k with
        | Some (CStr EmptyString) => None
        | v => or_null (parseInt_cell v)
        end
  end.

(** The function mapped over the hall rows; [i] is the index of the row. *)
Definition parse_hall (defaultBenches : Z) (i : nat) (r : row) : hall :=
  let c := foldl detect_hall_key (HallKeys None None None None) r.*1 in
  Hall
    (match hallKey c with
     | Some k =>
         if String.eqb k "" then "Hall_" +:+ String_of_nat (i + 1)
         else from_option String_of "undefined" (get r k)
     | None => "Hall_" +:+ String_of_nat (i + 1)
     end)
    (default defaultBenches (number_field r (benchesKey c)))
    (number_field r (rowsKey c))
    (number_field r (colsKey c)).

(** [(a,b) => (a.hall_id < b.hall_id ? -1 : 1)] *)
Definition by_hall_id (a b : hall) : Z :=
  if String.ltb (hall_id a) (hall_id b) then (-1)%Z else 1%Z.

Definition readHallListFromFile (raw : list row) (defaultBenches : Z) : list hall :=
  Array_sort by_hall_id (imap (parse_hall defaultBenches) raw).

(** The loop of [/api/allocate] over [rawHalls]. *)
Definition resolve_halls (rawHalls : list hall) : option (list hall) :=
  mapM resolve_hall rawHalls.

(** The number a string of decimal digits denotes; leading zeros do not
    count. *)
Definition decimal_value (s : string) : option nat :=
  Nat.of_uint <$> NilEmpty.uint_of_string s.

(** The number of records without identifier. *)
Definition missing (l : list student) : nat :=
  length (filter (λ s, register_number s = "") l).

(** The identifiers of a list of records. *)
Definition ids (l : list student) : list string := register_number <$> l.

(** The first record of [l] whose identifier is [r]. *)
Definition first_with (r : string) (l : list student) : option student :=
  find (λ s, String.eqb (register_number s) r) l.

Definition example_file : list row :=
  [[("register_number", CStr "r 2"); ("student_name", CStr "Bala"); ("subject_code", CStr "cs")];
   [("Student", CStr "Asha (R1)"); ("Subject", CStr "Maths (ma101)")];
   [("register_number", CStr "R2"); ("student_name", CStr "Bala again"); ("subject_code", CStr "cs")];
   [("Name", CStr "Chitra"); ("Dept", CStr "PH")]].

Definition example_roster : list student :=
  [Student "R7" "Asha" "CS"; Student "" "Bala" "CS"; Student "R7" "Chitra" "MA";
   Student "" "Dev" "MA"].

(** The test of the fall-back scan in the words of the specification: a
    value of at most 8 characters, alphanumeric, not under a column whose
    header contains "name". *)
Fixpoint all_alnum (v : string) : bool :=
  match v with
  | EmptyString => true
  | String c v' => JS.is_alnum c && all_alnum v'
  end.

Definition claimed_candidate (r : row) (k : string) : bool :=
  let v := text r k in
  negb (String.eqb v "") && (String.length v <=? 8) && all_alnum v &&
  negb (JS.includes (JS.toLowerCase k) "name").

(** The first value the specification's test selects. *)
Fixpoint claimed_scan (r : row) (keys : list string) : string :=
  match keys with
  | [] => ""
  | k :: keys' => if claimed_candidate r k then text r k else claimed_scan r keys'
  end.

Definition example_row : row :=
  [("Roll", CStr "21-CS-05"); ("Name", CStr "Asha"); ("Dept", CStr "CS")].

(** ** [benchToRowCol] and [buildOutputsFromAssignments] *)

(** [benchToRowCol]; [%] is the remainder that takes the sign of the
    dividend. *)
Definition benchToRowCol (benchNumber : Z) (rows cols : option Z)
    : option Z * option Z :=
  match or_null rows, or_null cols with
  | Some _, Some c =>
      (Some (ceil_div benchNumber c), Some (Z.rem (benchNumber - 1) c + 1)%Z)
  | _, _ => (None, None)
  end.

(** What [buildOutputsFromAssignments] reads of an element [a] of its first
    argument: [a.hall_id], [a.bench_index_in_hall] ([None] when the object
    has no such field) and [a.student]. *)
Record seat_entry := SeatEntry {
  e_hall_id : string;
  e_bench_index_in_hall : option Z;
  e_student : student
}.

(** An element of the array [distributeBalanced] returns, as such an
    object. *)
Definition entry_of_assignment (a : assignment) : seat_entry :=
  SeatEntry (a_hall_id a) (Some (bench_index_in_hall a)) (a_student a).

(** An element of the array [assignments] of the handler, as such an
    object: it has the fields [hall_id], [bench_number] and [student], and
    no field [bench_index_in_hall]. *)
Definition entry_of_placement (p : placement) : seat_entry :=
  SeatEntry (p_hall_id p) None (p_student p).

(** [`${a.hall_id}#${a.bench_index_in_hall}`] *)
Definition entry_key (a : seat_entry) : string :=
  match e_bench_index_in_hall a with
  | Some b => seat_key (e_hall_id a) b
  | None => e_hall_id a +:+ "#" +:+ "undefined"
  end.

(** An element of the array [buildOutputsFromAssignments] returns. *)
Record out_row := OutRow {
  o_hall_id : string;
  o_bench_number : Z;
  o_row : option Z;
  o_col : option Z;
  o_register_number : string;
  o_student_name : string;
  o_subject_code : string
}.

(** The [Map] filled by [for (const a of assignments) map.set(key, a.student)]. *)
Definition seat_map (assignments : list seat_entry) : gmap string student :=
  foldl (λ m a, <[entry_key a := e_student a]> m) ∅ assignments.

(** The row pushed for bench [b] of hall [h]. *)
Definition output_row (map : gmap string student) (h : hall) (b : Z) : out_row :=
  let s := map !! seat_key (hall_id h) b in
  let rc := benchToRowCol b (rows h) (cols h) in
  OutRow (hall_id h) b rc.1 rc.2
         (from_option register_number "" s)
         (from_option student_name "" s)
         (from_option subject_code "" s).

Definition buildOutputsFromAssignments (assignments : list seat_entry)
    (hallDefs : list hall) : list out_row :=
  let map := seat_map assignments in
  flat_map (λ h, output_row map h <$> seqZ 1 (benches h)) hallDefs.

(** [finalRows] of the handler, in the branch without [days]. *)
Definition allocate_rows (rnd : random_source) (k : nat)
    (allocator : option string) (students : list student) (hallDefs : list hall)
    : option (list out_row) :=
  assignments ← allocate_single rnd k allocator students hallDefs;
  Some (buildOutputsFromAssignments (entry_of_placement <$> assignments) hallDefs).

(** [finalRows] of the handler, for one day. *)
Definition allocate_day_rows (rnd : random_source) (k : nat)
    (allocator : option string) (students : list student)
    (subjects : option (list string)) (hallDefs : list hall)
    : option (list out_row) :=
  assignments ← allocate_day rnd k allocator students subjects hallDefs;
  Some (buildOutputsFromAssignments (entry_of_placement <$> assignments) hallDefs).

(** ** The halls made from [numHalls] and [benchesPerHall] *)

(** [x || d] for a field of the request that holds a cell or is absent. *)
Definition or_default (x : option cell) (d : cell) : cell :=
  if truthy x then default d x else d.

(** The [else] branch of the handler that fills [hallDefs]; [None] when
    [benchesPerHall] parses to [NaN] and a hall is made. *)
Definition generate_halls (numHalls benchesPerHall : option cell)
    : option (list hall) :=
  let n := parseInt_cell (Some (or_default numHalls (CNum 0))) in
  let b := parseInt_cell (Some (or_default benchesPerHall (CNum 30))) in
  match n with
  | None => Some []
  | Some n =>
      if (n <? 1)%Z then Some []
      else
        b ← b;
        Some ((λ i, Hall ("Hall_" +:+ String_of_Z i) b (Some (ceil_div b 10))
                         (Some 10%Z)) <$> seqZ 1 n)
  end.

(** ** The handler of [/api/update-students] *)

(** The roster saved: every identifier normalised, then the sort. *)
Definition update_students (students : list student) : list student :=
  Array_sort by_register
    ((λ s, Student (normalizeRegister (CStr (register_number s)))
                   (student_name s) (subject_code s)) <$> students).

(** ** The stub of [/api/blueprint/analyze] *)

(** [rows] and [cols] for a file of [size] bytes; [Math.round] is applied to
    an integer. *)
Definition blueprint_analyze (size : Z) : Z * Z :=
  let area := Z.max 1 (Z.rem size 1000) in
  (Z.max 3 (Z.min 50 (Z.rem area 30 + 5)),
   Z.max 3 (Z.min 20 (Z.rem area 10 + 5))).

(** The halls are filled in sequence: a hall that is not full is followed
    by empty halls only. *)
Fixpoint filled_in_order (hallDefs : list hall) (fills : list (list student)) : Prop :=
  match hallDefs, fills with
  | h :: hs, t :: ts =>
      (Z.of_nat (length t) = benches h ∨ Forall (λ t', t' = []) ts) ∧
      filled_in_order hs ts
  | _, _ => True
  end.

(** Two halls with room for the five students of [example_pool], and a
    pool of two subjects. *)
Definition example_halls : list hall :=
  [Hall "A" 3 (Some 2%Z) (Some 2%Z); Hall "B" 4 None None].

Definition example_mixed_pool : list student :=
  [Student "R1" "Asha" "CS"; Student "R2" "Bala" "ma"; Student "R3" "Chitra" "cs";
   Student "R4" "Dev" "MA"; Student "R5" "Esha" "CS"].

(** The subject groups come largest first. *)
Definition largest_first (subjects : list group) : Prop :=
  StronglySorted (λ g g' : group, count g' ≤ count g) subjects.

(** Whether the character [c] occurs in [s]. *)
Fixpoint occurs (c : ascii) (s : string) : bool :=
  match s with
  | EmptyString => false
  | String a s' => Ascii.eqb a c || occurs c s'
  end.

(** The characters of the decimal numeral of an integer. *)
Definition decimal_char (c : ascii) : bool :=
  Ascii.eqb c "-" || ((48 <=? nat_of_ascii c) && (nat_of_ascii c <=? 57)).

(** A row of the output that names no student, and one that names [s]. *)
Definition blank (r : out_row) : Prop :=
  o_register_number r = "" ∧ o_student_name r = "" ∧ o_subject_code r = "".

Definition shows (r : out_row) (s : student) : Prop :=
  o_register_number r = register_number s ∧ o_student_name r = student_name s ∧
  o_subject_code r = subject_code s.

(** Whether every character of [s] satisfies [P]. *)
Fixpoint all_chars (P : ascii → bool) (s : string) : bool :=
  match s with
  | EmptyString => true
  | String a s' => P a && all_chars P s'
  end.

(** The class [[a-z]]. *)
Definition is_lower (c : ascii) : bool :=
  (97 <=? nat_of_ascii c) && (nat_of_ascii c <=? 122).

(** A character that is neither white space nor a lower-case letter. *)
Definition normal_char (c : ascii) : bool :=
  negb (JS.is_space c) && negb (is_lower c).

(** A row of a sheet with the columns "Reg No", "Name" and "Subject". *)
Definition example_plain_row : row :=
  [("Reg No", CStr "r1"); ("Name", CStr "Asha"); ("Subject", CStr "CS101")].

(** Whether [s] begins with a character that is no white space, and whether
    it ends with one. *)
Definition starts_solid (s : string) : bool :=
  match s with
  | String a _ => negb (JS.is_space a)
  | EmptyString => false
  end.

Fixpoint ends_solid (s : string) : bool :=
  match s with
  | EmptyString => false
  | String a EmptyString => negb (JS.is_space a)
  | String _ s' => ends_solid s'
  end.

(** [`${L} (${R})`] *)
Definition combined (L R : string) : string := L +:+ " (" +:+ R +:+ ")".

(** ** The handler of [/api/upload/halls] *)

(** [parseInt(req.body.defaultBenches || '30', 10) || 30] *)
Definition default_benches (defaultBenches : option cell) : Z :=
  default 30%Z (or_null (parseInt_cell (Some (or_default defaultBenches (CStr "30"))))).

(** The hall list the handler saves. *)
Definition upload_halls (defaultBenches : option cell) (raw : list row) : list hall :=
  readHallListFromFile raw (default_benches defaultBenches).

(** The tests of the headers, on the header in lower case. *)
Definition student_header (kl : string) : bool :=
  String.eqb kl "student" || JS.includes kl "student" || JS.includes kl "name(".

Definition name_header (kl : string) : bool :=
  String.eqb kl "name" || JS.includes kl "student name".

Definition register_header (kl : string) : bool :=
  JS.includes kl "reg" || JS.includes kl "register" || JS.includes kl "roll".

Definition course_header (kl : string) : bool :=
  JS.includes kl "course" || JS.includes kl "course name" || JS.includes kl "programme".

Definition subject_header (kl : string) : bool :=
  JS.includes kl "sub" || JS.includes kl "subject" || JS.includes kl "code".

Definition hall_header (kn : string) : bool :=
  JS.includes kn "hall" || JS.includes kn "class" || JS.includes kn "room" ||
  JS.includes kn "id".

Definition benches_header (kn : string) : bool :=
  JS.includes kn "bench" || JS.includes kn "seat" || JS.includes kn "capacity" ||
  JS.includes kn "benches".

Definition rows_header (kn : string) : bool :=
  String.eqb kn "rows" || JS.includes kn "row".

Definition cols_header (kn : string) : bool :=
  String.eqb kn "cols" || JS.includes kn "col" || JS.includes kn "column".

(** The first key whose lower-case form passes [test]. *)
Definition first_header (test : string → bool) (keys : list string) : option string :=
  find (λ k, test (JS.toLowerCase k)) keys.

(** ** [buildVizAOA] *)

(** [(r.student_name||'') + (r.register_number ? ` (${r.register_number})` : '')
     + (r.subject_code ? `\n${r.subject_code}` : '')] *)
Definition viz_text (r : out_row) : string :=
  (o_student_name r +:+
   (if String.eqb (o_register_number r) "" then ""
    else " (" +:+ o_register_number r +:+ ")")) +:+
  (if String.eqb (o_subject_code r) "" then ""
   else String "010"%char (o_subject_code r)).

(** [txt || 'Empty'] *)
Definition viz_cell (r : out_row) : string :=
  if String.eqb (viz_text r) "" then "Empty" else viz_text r.

(** [Array.from({length:R}, ()=>Array.from({length:C}, ()=>'Empty'))]; a
    length that is [null] or negative counts as [0].  An element of a row
    of the array of arrays is a text, or the hole of a sparse array. *)
Definition new_grid (R C : option Z) : list (list (option string)) :=
  replicate (Z.to_nat (to_number R))
    (replicate (Z.to_nat (to_number C)) (Some "Empty")).

(** [r.row ? r.row-1 : Math.floor((r.bench_number-1)/C)]; [None] is a
    number that is no integer. *)
Definition viz_rr (r : out_row) (C : option Z) : option Z :=
  match or_null (o_row r) with
  | Some row => Some (row - 1)%Z
  | None =>
      if (to_number C =? 0)%Z then None
      else Some ((o_bench_number r - 1) / to_number C)%Z
  end.

(** [r.col ? r.col-1 : ((r.bench_number-1)%C)] *)
Definition viz_cc (r : out_row) (C : option Z) : option Z :=
  match or_null (o_col r) with
  | Some col => Some (col - 1)%Z
  | None =>
      if (to_number C =? 0)%Z then None
      else Some (Z.rem (o_bench_number r - 1) (to_number C))
  end.

(** [line[cc] = v]: an index beyond the end extends the array, leaving
    holes; an index that is negative or no integer names no element. *)
Definition set_elem (line : list (option string)) (cc : option Z) (v : string)
    : list (option string) :=
  match cc with
  | None => line
  | Some cc =>
      if (cc <? 0)%Z then line
      else
        let j := Z.to_nat cc in
        if j <? length line then <[j := Some v]> line
        else line ++ replicate (j - length line) None ++ [Some v]
  end.

(** [aoa[rr][cc] = v], which throws when [aoa[rr]] is [undefined]. *)
Definition set_cell (aoa : list (list (option string))) (rr cc : option Z) (v : string) 
    : option (list (list (option string))) :=
  match rr with
  | None => None
  | Some rr =>
      if (rr <? 0)%Z then None
      else
        line ← aoa !! Z.to_nat rr;
        Some (<[Z.to_nat rr := set_elem line cc v]> aoa)
  end.

(** [for (const r of rowsForHall)] *)
Fixpoint viz_loop (rowsForHall : list out_row) (C : option Z) (aoa : list (list (option string)))
    
    : option (list (list (option string))) :=
  match rowsForHall with
  | [] => Some aoa
  | r :: rest =>
      aoa' ← set_cell aoa (viz_rr r C) (viz_cc r C) (viz_cell r);
      viz_loop rest C aoa'
  end.

Definition buildVizAOA (rowsForHall : list out_row) (h : hall) 
    : option (list (list (option string))) :=
  viz_loop rowsForHall (cols h) (new_grid (rows h) (cols h)).

(** [rows.filter(r=>r.hall_id===h.hall_id).sort((a,b)=>a.bench_number - b.bench_number)] *)
Definition by_bench_number (a b : out_row) : Z :=
  (o_bench_number a - o_bench_number b)%Z.

Definition rows_for_hall (rows : list out_row) (h : hall) : list out_row :=
  Array_sort by_bench_number (filter (λ r, o_hall_id r = hall_id h) rows).

(** The chart the handler of [/api/allocate] draws of hall [h]. *)
Definition viz_sheet (rows : list out_row) (h : hall) 
    : option (list (list (option string))) :=
  buildVizAOA (rows_for_hall rows h) h.

(** The grid of [R] rows and [C] columns that shows bench [i * C + j + 1]
    in column [j] of row [i], for the benches up to [m]. *)
Definition chart (cell : Z → string) (R C m : Z) : list (list (option string)) :=
  (λ i, (λ j, Some (if (i * C + j + 1 <=? m)%Z then cell (i * C + j + 1)%Z
                    else "Empty")) <$> seqZ 0 C) <$> seqZ 0 R.

(** The students a hall took from the queue of a group, given the group
    before ([g]) and after ([g']) the hall was filled. *)
Definition taken (g g' : group) : list student :=
  take (length (q g) - length (q g')) (q g).

(** What filling a hall does to a group: its queue loses the students
    taken, from the front. *)
Definition shrinks (g g' : group) : Prop :=
  subject g' = subject g ∧ q g = taken g g' ++ q g'.

(** The hall takes evenly from the groups that are not exhausted: of two
    such groups, the earlier one gives as many students as the later one,
    or one more. *)
Definition evenly_taken (subjects r : list group) : Prop :=
  ∀ i j gi gj ri rj, i < j →
    subjects !! i = Some gi → subjects !! j = Some gj →
    r !! i = Some ri → r !! j = Some rj →
    q ri ≠ [] → q rj ≠ [] →
    length (taken gj rj) ≤ length (taken gi ri) ≤ length (taken gj rj) + 1.

(** A character of the ASCII range. *)
Definition ascii_char (c : ascii) : bool := nat_of_ascii c <? 128.

(** The integers a JavaScript number holds exactly. *)
Definition safe_integer (n : Z) : Prop := (- 2 ^ 53 < n < 2 ^ 53)%Z.

(** The lengths [new Array] accepts when they are not negative. *)
Definition array_length (n : Z) : Prop := (n < 2 ^ 32)%Z.

(** * Properties *)

(** ** The shuffle permutes *)

Lemma floor_mul_lt u n : 0 < n → floor_mul u n < n.
Proof.
  intros Hn. unfold floor_mul.
  apply Nat.Div0.div_lt_upper_bound. nia.
Qed.

Section shuffle_facts.
Context {A : Type}.
Variable rnd : random_source.

Lemma swap_Permutation (arr : list A) i j : swap arr i j ≡ₚ arr.
Proof.
  unfold swap.
  destruct (arr !! i) as [x|] eqn:Hi; [|done].
  destruct (arr !! j) as [y|] eqn:Hj; [|done].
  by apply Permutation_insert_swap.
Qed.

Lemma shuffle_loop_Permutation i k (arr : list A) :
  (shuffle_loop rnd i k arr).1 ≡ₚ arr.
Proof.
  revert k arr. induction i as [|i IH]; intros k arr; simpl; [done|].
  rewrite IH. apply swap_Permutation.
Qed.

Lemma shuffleArray_Permutation k (arr : list A) :
  (shuffleArray rnd k arr).1 ≡ₚ arr.
Proof. apply shuffle_loop_Permutation. Qed.
End shuffle_facts.

(** ** The sort permutes *)

Section array_sort_facts.
Context {A : Type}.
Variable cmp : A → A → Z.

Lemma sort_insert_Permutation x (l : list A) : sort_insert cmp x l ≡ₚ x :: l.
Proof.
  induction l as [|y l IH]; simpl; [done|].
  destruct (cmp y x <? 0)%Z; [|done].
  rewrite IH. apply perm_swap.
Qed.

Lemma Array_sort_Permutation (l : list A) : Array_sort cmp l ≡ₚ l.
Proof.
  induction l as [|x l IH]; simpl; [done|].
  by rewrite sort_insert_Permutation, IH.
Qed.
End array_sort_facts.

(** ** Sorting by a string key *)

Lemma ltb_le s1 s2 : String.ltb s1 s2 = true → String.le s1 s2.
Proof.
  unfold String.le, String.ltb, String.leb.
  by destruct (String.compare s1 s2).
Qed.

Lemma not_ltb_le s1 s2 : String.ltb s1 s2 = false → String.le s2 s1.
Proof.
  unfold String.le, String.ltb, String.leb.
  rewrite (String.compare_antisym s2 s1).
  by destruct (String.compare s1 s2).
Qed.

Section sort_by_key.
Context {A : Type}.
Variable key : A → string.
Variable cmp : A → A → Z.

(** [cmp] is [(a,b) => (key(a) < key(b) ? -1 : 1)]. *)
Hypothesis cmp_key :
  ∀ a b, cmp a b = if String.ltb (key a) (key b) then (-1)%Z else 1%Z.

Lemma sort_insert_by_key x l :
  StronglySorted (λ a b, String.le (key a) (key b)) l →
  StronglySorted (λ a b, String.le (key a) (key b)) (sort_insert cmp x l).
Proof.
  induction 1 as [|y l Hl IH Hy]; simpl.
  { repeat constructor. }
  rewrite cmp_key. destruct (String.ltb (key y) (key x)) eqn:Hyx; simpl.
  - constructor; [done|].
    rewrite sort_insert_Permutation. constructor; [|done].
    by apply ltb_le.
  - constructor; [by constructor|].
    constructor; [by apply not_ltb_le|].
    eapply Forall_impl; [done|]. intros z Hz. simpl in *.
    etrans; [by apply not_ltb_le|done].
Qed.

Lemma Array_sort_by_key l :
  StronglySorted (λ a b, String.le (key a) (key b)) (Array_sort cmp l).
Proof.
  induction l as [|x l IH]; simpl; [constructor|].
  by apply sort_insert_by_key.
Qed.
End sort_by_key.

(** ** Grouping by subject *)

Lemma drain_Permutation : Proper ((≡ₚ) ==> (≡ₚ)) drain.
Proof.
  intros l1 l2 H. unfold drain.
  induction H as [|g l1 l2 _ IH|g1 g2 l|l1 l2 l3 _ IH1 _ IH2]; simpl.
  - done.
  - by rewrite IH.
  - rewrite !(assoc_L (++)). f_equiv. apply Permutation_app_comm.
  - by rewrite IH1.
Qed.

Lemma drain_cons g subjects : drain (g :: subjects) = q g ++ drain subjects.
Proof. done. Qed.

Definition entries_wf (bySub : list (string * list student)) : Prop :=
  NoDup bySub.*1 ∧ Forall (λ e, Forall (λ s, subject_key s = e.1) e.2) bySub.

Lemma bySub_push_keys key s bySub x :
  x ∈ (bySub_push key s bySub).*1 ↔ x = key ∨ x ∈ bySub.*1.
Proof.
  induction bySub as [|[k v] rest IH]; simpl.
  - rewrite list_elem_of_singleton, elem_of_nil. naive_solver.
  - destruct (String.eqb_spec k key) as [->|Hne]; simpl.
    + rewrite !elem_of_cons. naive_solver.
    + rewrite !elem_of_cons, IH. naive_solver.
Qed.

Lemma bySub_push_wf key s bySub :
  subject_key s = key → entries_wf bySub → entries_wf (bySub_push key s bySub).
Proof.
  intros Hkey [Hnd Hall]. induction bySub as [|[k v] rest IH]; simpl.
  - split; [apply NoDup_singleton|]. repeat constructor. done.
  - simpl in Hnd. apply NoDup_cons in Hnd as [Hk Hnd].
    apply Forall_cons in Hall as [Hv Hall].
    destruct (String.eqb_spec k key) as [->|Hne].
    + split; simpl; [by apply NoDup_cons|].
      constructor; [|done]. simpl in *. apply Forall_app. split; [done|].
      by repeat constructor.
    + destruct (IH Hnd Hall) as [Hnd' Hall'].
      split; simpl; [|by constructor].
      apply NoDup_cons. split; [|done].
      rewrite bySub_push_keys. naive_solver.
Qed.

Lemma bySub_push_Permutation key s bySub :
  concat (bySub_push key s bySub).*2 ≡ₚ s :: concat bySub.*2.
Proof.
  induction bySub as [|[k v] rest IH]; simpl; [done|].
  destruct (String.eqb_spec k key) as [->|Hne]; simpl.
  - rewrite <-(assoc_L (++)). simpl.
    by rewrite <-Permutation_middle.
  - rewrite IH. by rewrite <-Permutation_middle.
Qed.

Lemma group_by_subject_spec studentsArr :
  entries_wf (group_by_subject studentsArr) ∧
  concat (group_by_subject studentsArr).*2 ≡ₚ studentsArr.
Proof.
  unfold group_by_subject.
  assert (∀ acc, entries_wf acc →
    entries_wf (foldl (λ bySub s, bySub_push (subject_key s) s bySub) acc studentsArr) ∧
    concat (foldl (λ bySub s, bySub_push (subject_key s) s bySub) acc studentsArr).*2
      ≡ₚ studentsArr ++ concat acc.*2) as H.
  { induction studentsArr as [|s l IH]; intros acc Hacc; simpl; [done|].
    destruct (IH (bySub_push (subject_key s) s acc)) as [Hwf Hp].
    { by apply bySub_push_wf. }
    split; [done|]. rewrite Hp, bySub_push_Permutation.
    by rewrite <-Permutation_middle. }
  destruct (H []) as [Hwf Hp].
  { split; simpl; constructor. }
  split; [done|]. by rewrite Hp, app_nil_r.
Qed.

Lemma shuffle_queues_spec rnd k bySub :
  Forall2 (λ e e', e.1 = e'.1 ∧ e.2 ≡ₚ e'.2) (shuffle_queues rnd k bySub).1 bySub.
Proof.
  revert k. induction bySub as [|[key v] rest IH]; intros k; simpl; [constructor|].
  pose proof (shuffleArray_Permutation rnd k v) as Hv.
  destruct (shuffleArray rnd k v) as [v' k'].
  specialize (IH k'). destruct (shuffle_queues rnd k' rest) as [rest' k''].
  by constructor.
Qed.

Lemma groups_wf_Permutation : Proper ((≡ₚ) ==> impl) groups_wf.
Proof.
  intros l1 l2 H [H1 H2]. split.
  - by rewrite <-H.
  - by rewrite <-H.
Qed.

Lemma make_subjects_spec rnd k studentsArr :
  groups_wf (make_subjects rnd k studentsArr) ∧
  drain (make_subjects rnd k studentsArr) ≡ₚ studentsArr.
Proof.
  unfold make_subjects.
  destruct (group_by_subject_spec studentsArr) as [[Hnd Hall] Hperm].
  pose proof (shuffle_queues_spec rnd k (group_by_subject studentsArr)) as Hq.
  set (sh := (shuffle_queues rnd k (group_by_subject studentsArr)).1) in *.
  set (bySub := group_by_subject studentsArr) in *.
  clearbody sh bySub.
  assert (groups_wf (map (λ e, Group e.1 e.2 (length e.2)) sh) ∧
          drain (map (λ e, Group e.1 e.2 (length e.2)) sh) ≡ₚ concat bySub.*2)
    as [Hwf Hd].
  { clear Hperm. unfold groups_wf, drain.
    induction Hq as [|[k1 v1] [k2 v2] l l' [Hk Hv] Hq IH]; csimpl in *.
    { repeat split; constructor. }
    subst k2. apply NoDup_cons in Hnd as [Hk Hnd].
    apply Forall_cons in Hall as [Hv2 Hall]. simpl in Hv2.
    destruct (IH Hnd Hall) as [[IH1 IH2] IH3].
    assert ((subject <$> map (λ e, Group e.1 e.2 (length e.2)) l) = l'.*1) as Hkeys.
    { clear -Hq. induction Hq as [|? ? ? ? [? _]]; simpl; [done|]. by f_equal. }
    repeat split.
    - apply NoDup_cons. split; [|done]. by rewrite Hkeys.
    - constructor; [|done]. simpl. by rewrite Hv.
    - by rewrite Hv, IH3. }
  split.
  - eapply groups_wf_Permutation; [|done]. symmetry. apply Array_sort_Permutation.
  - rewrite <-Hperm, <-Hd. apply drain_Permutation, Array_sort_Permutation.
Qed.

(** ** One sweep *)

Lemma groups_wf_cons g subjects :
  groups_wf (g :: subjects) ↔
  (subject g ∉ subject <$> subjects) ∧
  Forall (λ s, subject_key s = subject g) (q g) ∧ groups_wf subjects.
Proof.
  unfold groups_wf. rewrite fmap_cons, NoDup_cons, Forall_cons. naive_solver.
Qed.

Lemma take_round_length n subjects :
  length (take_round n subjects).1 ≤ n.
Proof.
  revert n. induction subjects as [|sub rest IH]; intros n; simpl; [lia|].
  destruct n as [|n']; simpl; [lia|].
  destruct (q sub) as [|s q'].
  - specialize (IH (S n')). destruct (take_round (S n') rest); simpl in *. lia.
  - specialize (IH n'). destruct (take_round n' rest); simpl in *. lia.
Qed.

Lemma take_round_Permutation n subjects :
  drain subjects ≡ₚ (take_round n subjects).1 ++ drain (take_round n subjects).2.
Proof.
  revert n. induction subjects as [|sub rest IH]; intros n; simpl; [done|].
  destruct n as [|n']; simpl; [done|].
  destruct (q sub) as [|s q'] eqn:Hq.
  - specialize (IH (S n')). destruct (take_round (S n') rest) as [t r]; simpl in *.
    rewrite !drain_cons, Hq. simpl. done.
  - specialize (IH n'). destruct (take_round n' rest) as [t r]; simpl in *.
    rewrite !drain_cons, Hq. simpl. f_equiv. rewrite IH.
    by rewrite Permutation_app_swap_app.
Qed.

Lemma take_round_none n subjects :
  0 < n → (take_round n subjects).1 = [] → drain subjects = [].
Proof.
  revert n. induction subjects as [|sub rest IH]; intros n Hn; simpl; [done|].
  destruct n as [|n']; [lia|].
  destruct (q sub) as [|s q'] eqn:Hq.
  - specialize (IH (S n') Hn). destruct (take_round (S n') rest) as [t r]; simpl in *.
    intros ->. rewrite drain_cons, Hq. by apply IH.
  - destruct (take_round n' rest) as [t r]; simpl. done.
Qed.

Lemma take_round_one_taken n subjects :
  Forall2 one_taken subjects (take_round n subjects).2.
Proof.
  assert (∀ g, one_taken g g) as Hrefl by (intros g; repeat split; by left).
  revert n. induction subjects as [|sub rest IH]; intros n; simpl; [constructor|].
  destruct n as [|n']; simpl.
  { constructor; [done|]. by apply Forall_Forall2_diag, Forall_forall. }
  destruct (q sub) as [|s q'] eqn:Hq.
  - specialize (IH (S n')). destruct (take_round (S n') rest) as [t r]; simpl in *.
    by constructor.
  - specialize (IH n'). destruct (take_round n' rest) as [t r]; simpl in *.
    constructor; [|done]. repeat split. right. exists s. by rewrite Hq.
Qed.

Lemma take_round_keys n subjects :
  groups_wf subjects →
  (subject_key <$> (take_round n subjects).1) `sublist_of` (subject <$> subjects).
Proof.
  revert n. induction subjects as [|sub rest IH]; intros n Hwf; simpl; [done|].
  apply groups_wf_cons in Hwf as (Hk & Hq & Hwf).
  destruct n as [|n']; simpl; [apply sublist_nil_l|].
  destruct (q sub) as [|s q'] eqn:Heq.
  - specialize (IH (S n') Hwf). destruct (take_round (S n') rest) as [t r]; simpl in *.
    by apply sublist_cons.
  - specialize (IH n' Hwf). destruct (take_round n' rest) as [t r]; simpl in *.
    apply Forall_cons in Hq as [-> _]. by apply sublist_skip.
Qed.

Lemma one_taken_wf subjects subjects' :
  Forall2 one_taken subjects subjects' → groups_wf subjects → groups_wf subjects'.
Proof.
  intros H. induction H as [|g g' l l' (Hs & _ & Hq) Hl IH]; [done|].
  rewrite !groups_wf_cons. intros (Hk & Hg & Hwf).
  assert (subject <$> l' = subject <$> l) as Hkeys.
  { clear -Hl. induction Hl as [|? ? ? ? (? & _)]; csimpl; [done|]. by f_equal. }
  rewrite Hkeys, Hs. split_and!; [done| |by apply IH].
  destruct Hq as [->|[s Hq]]; [done|].
  rewrite Hq in Hg. by apply Forall_cons in Hg as [_ ?].
Qed.

Lemma subject_key_NoDup (t : list student) :
  NoDup (subject_key <$> t) → NoDup (subject_code <$> t).
Proof.
  intros H.
  replace (subject_key <$> t)
    with ((λ c, if String.eqb c "" then "__NONE__" else c) <$> (subject_code <$> t)) in H.
  - by apply NoDup_fmap_1 in H.
  - by rewrite <-list_fmap_compose.
Qed.

Lemma seats_of_length cap pre : length pre ≤ cap → length (seats_of cap pre) = cap.
Proof.
  intros H. unfold seats_of.
  rewrite length_app, length_fmap, length_replicate. lia.
Qed.

Lemma seats_of_insert cap pre s :
  length pre < cap →
  <[length pre := Some s]> (seats_of cap pre) = seats_of cap (pre ++ [s]).
Proof.
  intros H. unfold seats_of.
  rewrite insert_app_r_alt by (rewrite length_fmap; lia).
  rewrite length_fmap, Nat.sub_diag, length_app. simpl.
  replace (cap - length pre) with (S (cap - (length pre + 1))) by lia.
  rewrite fmap_app, <-(assoc_L (++)). done.
Qed.

(** [sweep] on a hall whose first benches hold [pre] is [take_round] on the
    free benches. *)
Lemma sweep_take_round capacity subjects pre placed :
  length pre ≤ Z.to_nat capacity →
  sweep capacity subjects (seats_of (Z.to_nat capacity) pre) (length pre) placed =
    let '(t, r) := take_round (Z.to_nat capacity - length pre) subjects in
    (r, seats_of (Z.to_nat capacity) (pre ++ t), length pre + length t,
     match t with [] => placed | _ :: _ => true end).
Proof.
  revert pre placed.
  induction subjects as [|sub rest IH]; intros pre placed Hpre; simpl.
  { by rewrite app_nil_r, Nat.add_0_r. }
  destruct (Z.ltb_spec (Z.of_nat (length pre)) capacity) as [Hlt|Hge].
  - destruct (Z.to_nat capacity - length pre) as [|n'] eqn:Hn; [lia|].
    destruct (q sub) as [|s q'].
    + rewrite IH, Hn by done.
      by destruct (take_round (S n') rest) as [t r].
    + rewrite seats_of_insert by lia.
      replace (S (length pre)) with (length (pre ++ [s]))
        by (rewrite length_app; simpl; lia).
      rewrite IH by (rewrite length_app; simpl; lia).
      replace (Z.to_nat capacity - length (pre ++ [s])) with n'
        by (rewrite length_app; simpl; lia).
      destruct (take_round n' rest) as [t r].
      rewrite <-(assoc_L (++)), length_app. simpl.
      f_equal; [f_equal; lia|]. by destruct t.
  - replace (Z.to_nat capacity - length pre) with 0 by lia. simpl.
    by rewrite app_nil_r, Nat.add_0_r.
Qed.

(** ** Filling one hall *)

Lemma fill_loop_spec fuel capacity subjects pre :
  length pre ≤ Z.to_nat capacity →
  Z.to_nat capacity - length pre < fuel →
  ∃ r t,
    fill_loop fuel capacity subjects (seats_of (Z.to_nat capacity) pre) (length pre)
      = Some (r, seats_of (Z.to_nat capacity) (pre ++ t)) ∧
    length pre + length t ≤ Z.to_nat capacity ∧
    drain subjects ≡ₚ t ++ drain r ∧
    (length pre + length t = Z.to_nat capacity ∨ drain r = []) ∧
    (groups_wf subjects → groups_wf r).
Proof.
  revert subjects pre.
  induction fuel as [|fuel IH]; intros subjects pre Hpre Hfuel; [lia|]. simpl.
  destruct (Z.ltb_spec (Z.of_nat (length pre)) capacity) as [Hlt|Hge].
  - rewrite sweep_take_round by done.
    pose proof (take_round_length (Z.to_nat capacity - length pre) subjects) as Hlen.
    pose proof (take_round_Permutation (Z.to_nat capacity - length pre) subjects) as Hperm.
    pose proof (take_round_none (Z.to_nat capacity - length pre) subjects) as Hnone.
    pose proof (take_round_one_taken (Z.to_nat capacity - length pre) subjects) as Hone.
    destruct (take_round (Z.to_nat capacity - length pre) subjects) as [t r].
    simpl in *. destruct t as [|s t].
    + exists r, []. rewrite app_nil_r. split_and!; [done|simpl; lia|done| |].
      * right. rewrite Hnone in Hperm by (done || lia).
        by apply Permutation_nil_l in Hperm.
      * by apply one_taken_wf.
    + replace (length pre + length (s :: t)) with (length (pre ++ s :: t))
        by (rewrite length_app; done).
      destruct (IH r (pre ++ s :: t)) as (r' & t' & Heq & Hlen' & Hperm' & Hfull & Hwf).
      { rewrite length_app. simpl in *. lia. }
      { rewrite length_app. simpl in *. lia. }
      exists r', ((s :: t) ++ t'). rewrite (assoc_L (++)).
      rewrite length_app in Hlen', Hfull.
      split_and!; [done|rewrite length_app; lia| |
        rewrite length_app; destruct Hfull; [left; lia|by right]|].
      * rewrite Hperm, Hperm'. by rewrite (assoc_L (++)).
      * intros Hs. by apply Hwf, (one_taken_wf subjects).
  - exists subjects, []. rewrite app_nil_r.
    split_and!; [done|simpl; lia|done|left; simpl; lia|done].
Qed.

Lemma collect_seats_seats_of hid b placed n :
  collect_seats hid b ((Some <$> placed) ++ replicate n None) =
  imap (λ i s, Assignment hid (Z.of_nat (b + i) + 1) s) placed.
Proof.
  revert b. induction placed as [|s l IH]; intros b; simpl.
  - revert b. induction n as [|n IHn]; intros b; simpl; [done|]. apply IHn.
  - rewrite Nat.add_0_r. f_equal. rewrite IH. apply imap_ext.
    intros i x _. simpl. do 2 f_equal. lia.
Qed.

Lemma fill_hall_spec h subjects :
  (0 ≤ benches h)%Z →
  ∃ r t,
    fill_hall h subjects = Some (r, block (hall_id h) t) ∧
    (Z.of_nat (length t) ≤ benches h)%Z ∧
    drain subjects ≡ₚ t ++ drain r ∧
    (Z.of_nat (length t) = benches h ∨ drain r = []) ∧
    (groups_wf subjects → groups_wf r).
Proof.
  intros Hb. unfold fill_hall, new_Array_fill.
  destruct (Z.ltb_spec (benches h) 0) as [?|_]; [lia|]. cbn [mbind option_bind].
  destruct (fill_loop_spec (S (Z.to_nat (benches h))) (benches h) subjects [])
    as (r & t & Heq & Hlen & Hperm & Hfull & Hwf); [simpl; lia..|].
  assert (seats_of (Z.to_nat (benches h)) [] = replicate (Z.to_nat (benches h)) None)
    as Hnil by (unfold seats_of; simpl; by rewrite Nat.sub_0_r).
  rewrite Hnil in Heq. change (length (@nil student)) with 0 in *.
  rewrite app_nil_l in Heq. rewrite Heq. cbn [mbind option_bind].
  exists r, t. split_and!; [|lia|done|destruct Hfull; [left; lia|by right]|done].
  unfold seats_of, block. by rewrite collect_seats_seats_of.
Qed.

(** ** The first pass *)

Lemma primary_pass_spec hallDefs subjects acc :
  Forall (λ h, 0 ≤ benches h)%Z hallDefs →
  ∃ r fills,
    primary_pass hallDefs subjects acc = Some (r, acc ++ blocks hallDefs fills) ∧
    Forall2 (λ h t, Z.of_nat (length t) ≤ benches h)%Z hallDefs fills ∧
    drain subjects ≡ₚ concat fills ++ drain r ∧
    (drain r = [] ∨ Forall2 (λ h t, Z.of_nat (length t) = benches h) hallDefs fills) ∧
    (groups_wf subjects → groups_wf r).
Proof.
  intros Hpos. revert subjects acc.
  induction Hpos as [|h rest Hh _ IH]; intros subjects acc; simpl.
  { exists subjects, []. rewrite app_nil_r. split_and!; try done.
    right. constructor. }
  destruct (fill_hall_spec h subjects Hh) as (r1 & t & -> & Hlen & Hperm & Hfull & Hwf).
  cbn [mbind option_bind].
  destruct (IH r1 (acc ++ block (hall_id h) t))
    as (r & fills & -> & Hlens & Hperm' & Hfull' & Hwf').
  exists r, (t :: fills). unfold blocks. simpl. rewrite (assoc_L (++)).
  split_and!; [done|by constructor| | |by auto].
  - rewrite Hperm, Hperm'. by rewrite (assoc_L (++)).
  - destruct Hfull' as [Hr|Hall]; [by left|].
    destruct Hfull as [Ht|Hr1]; [right; by constructor|].
    left. rewrite Hr1 in Hperm'. symmetry in Hperm'.
    apply Permutation_nil_r in Hperm'. by apply app_eq_nil in Hperm' as [_ ?].
Qed.

Lemma position_block hid t :
  position <$> block hid t = (λ b, (hid, b)) <$> seqZ 1 (Z.of_nat (length t)).
Proof.
  apply list_eq. intros i. unfold block.
  rewrite !list_lookup_fmap, list_lookup_imap.
  destruct (t !! i) as [s|] eqn:Hi; simpl.
  - apply lookup_lt_Some in Hi as Hlt.
    rewrite lookup_seqZ_lt by lia. simpl. unfold position. simpl.
    do 2 f_equal. lia.
  - apply lookup_ge_None in Hi. by rewrite lookup_seqZ_ge by lia.
Qed.

Lemma position_blocks_full hallDefs fills :
  Forall2 (λ h t, Z.of_nat (length t) = benches h) hallDefs fills →
  position <$> blocks hallDefs fills = all_positions hallDefs.
Proof.
  unfold blocks, all_positions.
  induction 1 as [|h t l l' Ht _ IH]; simpl; [done|].
  by rewrite fmap_app, IH, position_block, Ht.
Qed.

(** ** The second pass *)

Lemma backfill_all_used positions remaining i (used : gset string) assignments :
  Forall (λ p, seat_key p.1 p.2 ∈ used) positions →
  backfill positions remaining i used assignments = assignments.
Proof.
  induction 1 as [|p rest Hp _ IH]; simpl; [done|].
  destruct (remaining !! i); [|done].
  by rewrite decide_True.
Qed.

Lemma second_pass_spec hallDefs r fills :
  drain r = [] ∨ Forall2 (λ h t, Z.of_nat (length t) = benches h) hallDefs fills →
  second_pass hallDefs r (blocks hallDefs fills) = blocks hallDefs fills.
Proof.
  intros H. unfold second_pass.
  destruct (drain r) as [|s rem] eqn:Hr; [done|].
  destruct H as [?|Hfull]; [done|].
  apply backfill_all_used.
  rewrite <-(position_blocks_full hallDefs fills Hfull).
  apply Forall_fmap, Forall_forall. intros a Ha. simpl.
  apply elem_of_list_to_set, list_elem_of_fmap. by exists a.
Qed.

(** ** The whole distribution *)

Lemma distributeBalanced_spec rnd k studentsArr hallDefs :
  Forall (λ h, 0 ≤ benches h)%Z hallDefs →
  ∃ fills dropped,
    distributeBalanced rnd k studentsArr hallDefs = Some (blocks hallDefs fills) ∧
    Forall2 (λ h t, Z.of_nat (length t) ≤ benches h)%Z hallDefs fills ∧
    studentsArr ≡ₚ concat fills ++ dropped ∧
    (dropped = [] ∨ Forall2 (λ h t, Z.of_nat (length t) = benches h) hallDefs fills).
Proof.
  intros Hpos. unfold distributeBalanced.
  destruct (primary_pass_spec hallDefs (make_subjects rnd k studentsArr) [] Hpos)
    as (r & fills & -> & Hlens & Hperm & Hfull & _).
  cbn [mbind option_bind app].
  exists fills, (drain r). rewrite second_pass_spec by done.
  split_and!; [done..| |done].
  by rewrite <-Hperm, (proj2 (make_subjects_spec rnd k studentsArr)).
Qed.

Lemma length_block hid t : length (block hid t) = length t.
Proof. apply length_imap. Qed.

Lemma student_block hid t : a_student <$> block hid t = t.
Proof.
  apply list_eq. intros i. unfold block.
  rewrite list_lookup_fmap, list_lookup_imap. by destruct (t !! i).
Qed.

Lemma student_blocks hallDefs (fills : list (list student)) :
  length hallDefs = length fills →
  a_student <$> blocks hallDefs fills = concat fills.
Proof.
  unfold blocks. revert fills.
  induction hallDefs as [|h l IH]; intros [|t fills] Hlen; simplify_eq/=; [done|].
  by rewrite fmap_app, student_block, IH.
Qed.

Lemma length_blocks hallDefs (fills : list (list student)) :
  length hallDefs = length fills →
  length (blocks hallDefs fills) = length (concat fills).
Proof.
  intros H. by rewrite <-(student_blocks hallDefs fills H), length_fmap.
Qed.

Lemma length_fills_le hallDefs (fills : list (list student)) :
  Forall2 (λ h t, Z.of_nat (length t) ≤ benches h)%Z hallDefs fills →
  (Z.of_nat (length (concat fills)) ≤ sum_benches hallDefs)%Z.
Proof.
  unfold sum_benches.
  induction 1 as [|h t l l' Ht _ IH]; csimpl; [done|].
  rewrite length_app. lia.
Qed.

Lemma length_fills_full hallDefs (fills : list (list student)) :
  Forall2 (λ h t, Z.of_nat (length t) = benches h) hallDefs fills →
  Z.of_nat (length (concat fills)) = sum_benches hallDefs.
Proof.
  unfold sum_benches.
  induction 1 as [|h t l l' Ht _ IH]; csimpl; [done|].
  rewrite length_app. lia.
Qed.

Lemma block_ok h t :
  (Z.of_nat (length t) ≤ benches h)%Z → hall_block_ok h (block (hall_id h) t).
Proof.
  intros Hlen. split.
  - apply Forall_forall. intros a Ha. unfold block in Ha.
    apply elem_of_lookup_imap in Ha as (i & s & -> & Hi).
    apply lookup_lt_Some in Hi. simpl. split; [done|lia].
  - assert (bench_index_in_hall <$> block (hall_id h) t
            = seqZ 1 (Z.of_nat (length t))) as ->; [|apply NoDup_seqZ].
    pose proof (f_equal (fmap snd) (position_block (hall_id h) t)) as Hp.
    rewrite <-!list_fmap_compose in Hp.
    by rewrite list_fmap_id in Hp.
Qed.

Lemma position_blocks_NoDup hallDefs (fills : list (list student)) :
  length hallDefs = length fills →
  NoDup (hall_id <$> hallDefs) → NoDup (position <$> blocks hallDefs fills).
Proof.
  unfold blocks. revert fills.
  induction hallDefs as [|h l IH]; intros [|t fills] Hlen Hnd; simplify_eq/=;
    [constructor..|].
  apply NoDup_cons in Hnd as [Hh Hnd].
  rewrite fmap_app. apply NoDup_app. split_and!.
  - rewrite position_block. apply NoDup_fmap_2; [|apply NoDup_seqZ].
    by intros ?? [=].
  - intros p Hp Hp'. rewrite position_block in Hp.
    apply list_elem_of_fmap in Hp as (b & -> & _).
    apply list_elem_of_fmap in Hp' as (a & Ha & Hin).
    apply Hh. clear -Ha Hin. revert fills Hin.
    induction l as [|h' l IH]; intros [|t' fills] Hin; simpl in *;
      try by apply elem_of_nil in Hin.
    apply elem_of_app in Hin as [Hin|Hin].
    + unfold block in Hin. apply elem_of_lookup_imap in Hin as (i & s & -> & _).
      injection Ha as -> _. apply elem_of_cons. by left.
    + apply elem_of_cons. right. by eapply IH.
  - by apply IH.
Qed.

Lemma Forall_pos_nonneg hallDefs :
  Forall (λ h, 0 < benches h)%Z hallDefs → Forall (λ h, 0 ≤ benches h)%Z hallDefs.
Proof. intros H. eapply Forall_impl; [done|]. intros h. simpl. lia. Qed.

(** ** Claims about the distribution *)

(** C1. For every student pool and every sequence of halls with positive
    bench counts, [distributeBalanced] returns a set of assignments whose
    size is [min(pool.size, sum of the benches)]; the assignments come hall
    by hall, those of a hall name that hall and a bench index in
    [1 .. benches], and no bench index twice; when the hall identifiers are
    pairwise distinct, no [(hall_id, bench)] pair occurs twice in the
    result. *)
Theorem distribution_coverage rnd k (pool : list student) (hallDefs : list hall) :
  Forall (λ h, 0 < benches h)%Z hallDefs →
  ∃ assignments,
    distributeBalanced rnd k pool hallDefs = Some assignments ∧
    Z.of_nat (length assignments)
      = Z.min (Z.of_nat (length pool)) (sum_benches hallDefs) ∧
    (∃ per_hall, assignments = concat per_hall ∧
                 Forall2 hall_block_ok hallDefs per_hall) ∧
    (NoDup (hall_id <$> hallDefs) → NoDup (position <$> assignments)).
Proof.
  intros Hpos.
  destruct (distributeBalanced_spec rnd k pool hallDefs (Forall_pos_nonneg _ Hpos))
    as (fills & dropped & Heq & Hlens & Hperm & Hfull).
  pose proof (Forall2_length _ _ _ Hlens) as Hlen.
  exists (blocks hallDefs fills). split_and!; [done| | |].
  - rewrite length_blocks by done.
    pose proof (length_fills_le _ _ Hlens) as Hle.
    apply Permutation_length in Hperm. rewrite length_app in Hperm.
    destruct Hfull as [->|Hfull].
    + simpl in Hperm. lia.
    + pose proof (length_fills_full _ _ Hfull). lia.
  - exists (zip_with (λ h t, block (hall_id h) t) hallDefs fills).
    split; [done|]. clear -Hlens.
    induction Hlens as [|h t l l' Ht _ IH]; simpl; constructor; [|done].
    by apply block_ok.
  - by apply position_blocks_NoDup.
Qed.

(** C1 at a hall of 3 benches and a pool of 5. *)
Lemma distribution_coverage_witness :
  Forall (λ h, 0 < benches h)%Z [example_hall] ∧
  NoDup (hall_id <$> [example_hall]) ∧
  ∃ assignments,
    distributeBalanced example_rnd 0 example_pool [example_hall] = Some assignments ∧
    length assignments = 3 ∧
    NoDup (position <$> assignments).
Proof.
  assert (Forall (λ h, 0 < benches h)%Z [example_hall]) as Hpos
    by (repeat constructor).
  assert (NoDup (hall_id <$> [example_hall])) as Hnd by apply NoDup_singleton.
  split_and!; [done|done|].
  destruct (distribution_coverage example_rnd 0 example_pool [example_hall] Hpos)
    as (a & Heq & Hlen & _ & Hpositions).
  exists a. split_and!; [done| |by apply Hpositions].
  change (Z.min _ _) with 3%Z in Hlen. lia.
Defined.

(** Outside the data model, where [hall_id] is unique: two halls of one
    identifier are filled one after the other all the same, and their
    assignments name the same pair of identifier and bench. *)
Example repeated_hall_id :
  position <$> default [] (distributeBalanced example_rnd 0 example_pool
                             [Hall "H" 1 None None; Hall "H" 1 None None])
  = [("H", 1%Z); ("H", 1%Z)].
Proof. by vm_compute. Qed.

(** C9. The first pass fills the benches of each hall contiguously from
    bench 1: the benches it assigns in a hall are [1 .. m] in this order,
    for some [m] up to the hall's bench count.  Students remain after the
    first pass only when every bench of every hall is taken ([m] is the
    bench count, in every hall); then every position the second pass looks
    at is in [used], and the second pass returns the assignments of the
    first unchanged. *)
Theorem primary_pass_contiguous rnd k (pool : list student) (hallDefs : list hall) :
  Forall (λ h, 0 < benches h)%Z hallDefs →
  ∃ subjects' per_hall,
    primary_pass hallDefs (make_subjects rnd k pool) [] = Some (subjects', concat per_hall) ∧
    Forall2 (λ h blk, ∃ m : Z,
      (0 ≤ m ≤ benches h)%Z ∧
      position <$> blk = (λ b, (hall_id h, b)) <$> seqZ 1 m ∧
      (drain subjects' ≠ [] → m = benches h)) hallDefs per_hall ∧
    (drain subjects' ≠ [] →
       position <$> concat per_hall = all_positions hallDefs ∧
       Forall (λ p, seat_key p.1 p.2 ∈@{gset string}
                 list_to_set ((λ a, seat_key (a_hall_id a) (bench_index_in_hall a))
                                <$> concat per_hall))
              (all_positions hallDefs) ∧
       second_pass hallDefs subjects' (concat per_hall) = concat per_hall).
Proof.
  intros Hpos.
  destruct (primary_pass_spec hallDefs (make_subjects rnd k pool) []
              (Forall_pos_nonneg _ Hpos))
    as (r & fills & Heq & Hlens & Hperm & Hfull & _).
  exists r, (zip_with (λ h t, block (hall_id h) t) hallDefs fills).
  split_and!; [done| |].
  - assert (drain r ≠ [] →
            Forall2 (λ h t, Z.of_nat (length t) = benches h) hallDefs fills) as Hfull'.
    { intros Hr. by destruct Hfull. }
    clear -Hlens Hfull'.
    induction Hlens as [|h t l l' Ht Hl IH]; simpl; constructor.
    + exists (Z.of_nat (length t)). split_and!; [lia|lia|apply position_block|].
      intros Hr. specialize (Hfull' Hr). by apply Forall2_cons in Hfull' as [? _].
    + apply IH. intros Hr. specialize (Hfull' Hr).
      by apply Forall2_cons in Hfull' as [_ ?].
  - intros Hr. destruct Hfull as [?|Hfull]; [done|].
    fold (blocks hallDefs fills).
    split_and!.
    + by apply position_blocks_full.
    + rewrite <-(position_blocks_full hallDefs fills Hfull).
      apply Forall_fmap, Forall_forall. intros a Ha. simpl.
      apply elem_of_list_to_set, list_elem_of_fmap. by exists a.
    + apply second_pass_spec. by right.
Qed.

(** C9 at a hall of 3 benches and a pool of 5. *)
Lemma primary_pass_contiguous_witness :
  Forall (λ h, 0 < benches h)%Z [example_hall] ∧
  ∃ subjects' per_hall,
    primary_pass [example_hall] (make_subjects example_rnd 0 example_pool) []
      = Some (subjects', concat per_hall) ∧
    drain subjects' ≠ [] ∧
    second_pass [example_hall] subjects' (concat per_hall) = concat per_hall.
Proof.
  assert (Forall (λ h, 0 < benches h)%Z [example_hall]) as Hpos
    by (repeat constructor).
  split; [done|].
  destruct (primary_pass_contiguous example_rnd 0 example_pool [example_hall] Hpos)
    as (r & per_hall & Heq & _ & Hsecond).
  assert (drain r ≠ []) as Hr.
  { assert (∃ s l, drain <$> (fst <$> primary_pass [example_hall]
                                (make_subjects example_rnd 0 example_pool) [])
                   = Some (s :: l)) as (s & l & Hd)
      by (vm_compute; by eexists _, _).
    rewrite Heq in Hd. injection Hd as Hd. by rewrite Hd. }
  exists r, per_hall. split_and!; [done|done|by apply Hsecond].
Defined.

(** C4. When the pool is larger than the total bench capacity of the
    halls, [distributeBalanced] returns (no exception), every bench of every
    hall is assigned exactly once, and the pool splits into the assigned
    students and [pool.size - capacity] students that are in no assignment
    (as records, in none, when the records of the pool are pairwise
    different).  In particular, with one hall of 3 benches and a pool of 5 students (of
    one subject or not), benches 1, 2 and 3 are assigned, 3 students are
    seated and 2 are left out. *)
Theorem overflow_dropped :
  (∀ rnd k (pool : list student) (hallDefs : list hall),
    Forall (λ h, 0 < benches h)%Z hallDefs →
    (sum_benches hallDefs < Z.of_nat (length pool))%Z →
    ∃ assignments dropped,
      distributeBalanced rnd k pool hallDefs = Some assignments ∧
      pool ≡ₚ (a_student <$> assignments) ++ dropped ∧
      Z.of_nat (length dropped) = (Z.of_nat (length pool) - sum_benches hallDefs)%Z ∧
      (NoDup pool → Forall (λ s, s ∉ a_student <$> assignments) dropped) ∧
      position <$> assignments = all_positions hallDefs) ∧
  (∀ rnd k (pool : list student) (h : hall),
    benches h = 3%Z → length pool = 5 →
    ∃ assignments dropped,
      distributeBalanced rnd k pool [h] = Some assignments ∧
      length assignments = 3 ∧
      position <$> assignments = [(hall_id h, 1%Z); (hall_id h, 2%Z); (hall_id h, 3%Z)] ∧
      pool ≡ₚ (a_student <$> assignments) ++ dropped ∧
      length dropped = 2).
Proof.
  assert (∀ rnd k (pool : list student) (hallDefs : list hall),
    Forall (λ h, 0 < benches h)%Z hallDefs →
    (sum_benches hallDefs < Z.of_nat (length pool))%Z →
    ∃ assignments dropped,
      distributeBalanced rnd k pool hallDefs = Some assignments ∧
      pool ≡ₚ (a_student <$> assignments) ++ dropped ∧
      Z.of_nat (length dropped) = (Z.of_nat (length pool) - sum_benches hallDefs)%Z ∧
      (NoDup pool → Forall (λ s, s ∉ a_student <$> assignments) dropped) ∧
      position <$> assignments = all_positions hallDefs) as Hgen.
  { intros rnd k pool hallDefs Hpos Hover.
    destruct (distributeBalanced_spec rnd k pool hallDefs (Forall_pos_nonneg _ Hpos))
      as (fills & dropped & Heq & Hlens & Hperm & Hfull).
    pose proof (Forall2_length _ _ _ Hlens) as Hlen.
    pose proof (length_fills_le _ _ Hlens) as Hle.
    pose proof (Permutation_length Hperm) as Hl. rewrite length_app in Hl.
    destruct Hfull as [->|Hfull]; [simpl in Hl; lia|].
    pose proof (length_fills_full _ _ Hfull).
    exists (blocks hallDefs fills), dropped.
    rewrite student_blocks by done.
    split_and!; [done|done|lia| |by apply position_blocks_full].
    intros Hnd. rewrite Hperm in Hnd. apply NoDup_app in Hnd as (_ & Hdisj & _).
    apply Forall_forall. intros s Hs Hin. by apply (Hdisj s). }
  split; [done|].
  intros rnd k pool h Hb Hp.
  destruct (Hgen rnd k pool [h]) as (a & dropped & Heq & Hperm & Hlen & _ & Hposn).
  { repeat constructor. lia. }
  { unfold sum_benches. simpl. lia. }
  unfold sum_benches in Hlen. simpl in Hlen.
  assert (all_positions [h] = [(hall_id h, 1%Z); (hall_id h, 2%Z); (hall_id h, 3%Z)])
    as Hall by (unfold all_positions; simpl; by rewrite Hb).
  exists a, dropped. split_and!; [done| |congruence|done|lia].
  apply (f_equal length) in Hposn. rewrite length_fmap, Hall in Hposn. done.
Qed.

(** C4 at a hall of 3 benches and a pool of 5 students of one subject. *)
Lemma overflow_dropped_witness :
  Forall (λ h, 0 < benches h)%Z [example_hall] ∧
  (sum_benches [example_hall] < Z.of_nat (length example_pool))%Z ∧
  ∃ assignments dropped,
    distributeBalanced example_rnd 0 example_pool [example_hall] = Some assignments ∧
    example_pool ≡ₚ (a_student <$> assignments) ++ dropped ∧
    length dropped = 2 ∧
    position <$> assignments = [("H1", 1%Z); ("H1", 2%Z); ("H1", 3%Z)].
Proof.
  assert (Forall (λ h, 0 < benches h)%Z [example_hall]) as Hpos
    by (repeat constructor).
  assert (sum_benches [example_hall] < Z.of_nat (length example_pool))%Z as Hover
    by (vm_compute; reflexivity).
  split_and!; [done|done|].
  destruct (proj1 overflow_dropped example_rnd 0 example_pool [example_hall] Hpos Hover)
    as (a & dropped & Heq & Hperm & Hlen & _ & Hposn).
  exists a, dropped. split_and!; [done|done| |done].
  change (_ - _)%Z with 2%Z in Hlen. lia.
Defined.

(** ** One sweep, on any seat array of the hall *)

Lemma sweep_seats capacity subjects hallSeats idx placed :
  length hallSeats = Z.to_nat capacity →
  ∃ seats' placed',
    sweep capacity subjects hallSeats idx placed =
      ((take_round (Z.to_nat capacity - idx) subjects).2, seats',
       idx + length (take_round (Z.to_nat capacity - idx) subjects).1, placed') ∧
    length seats' = length hallSeats ∧
    (∀ i, i < idx → seats' !! i = hallSeats !! i) ∧
    (∀ i x, (take_round (Z.to_nat capacity - idx) subjects).1 !! i = Some x →
            seats' !! (idx + i) = Some (Some x)).
Proof.
  revert hallSeats idx placed.
  induction subjects as [|sub rest IH]; intros hallSeats idx placed Hlen; simpl.
  { exists hallSeats, placed. rewrite Nat.add_0_r.
    repeat (split; [done|]). intros i x Hx. by rewrite lookup_nil in Hx. }
  destruct (Z.ltb_spec (Z.of_nat idx) capacity) as [Hlt|Hge].
  - destruct (Z.to_nat capacity - idx) as [|n'] eqn:Hn; [lia|].
    destruct (q sub) as [|s q'].
    + destruct (IH hallSeats idx placed Hlen) as (seats' & placed' & Heq & H1 & H2 & H3).
      rewrite Hn in Heq, H3. rewrite Heq.
      destruct (take_round (S n') rest) as [t r]. simpl in *.
      exists seats', placed'. by split_and!.
    + destruct (IH (<[idx := Some s]> hallSeats) (S idx) true)
        as (seats' & placed' & Heq & H1 & H2 & H3).
      { by rewrite length_insert. }
      replace (Z.to_nat capacity - S idx) with n' in * by lia.
      rewrite Heq. destruct (take_round n' rest) as [t r]. simpl in *.
      rewrite length_insert in H1.
      exists seats', placed'. split_and!; [f_equal; f_equal; lia|done| |].
      * intros i Hi. rewrite H2 by lia. apply list_lookup_insert_ne. lia.
      * intros [|i] x Hx; simplify_eq/=.
        -- rewrite Nat.add_0_r, H2 by lia. apply list_lookup_insert_eq. lia.
        -- replace (idx + S i) with (S (idx + i)) by lia. by apply H3.
  - replace (Z.to_nat capacity - idx) with 0 by lia. simpl.
    exists hallSeats, placed. rewrite Nat.add_0_r.
    repeat (split; [done|]). intros i x Hx. by rewrite lookup_nil in Hx.
Qed.

Lemma shuffleArray_pair {A} rnd k (x y : A) :
  shuffleArray rnd k [x; y] = ([x; y], S k) ∨
  shuffleArray rnd k [x; y] = ([y; x], S k).
Proof.
  unfold shuffleArray. cbn [length Nat.sub shuffle_loop Nat.add].
  pose proof (floor_mul_lt (rnd k) 2) as Hj.
  destruct (floor_mul (rnd k) 2) as [|[|j]]; [by right|by left|lia].
Qed.

(** C6. The array [subjects] starts with distinct subject keys, every
    queued student under the key of its subject, and each sweep keeps it
    so.  From such a state one sweep, on the seat array of a hall, takes at
    most one student from each group, and the seats it fills (those from
    [idx] up to the new [idx]) hold students of pairwise different subject
    codes.  For the pool [[a; b; c; d]] with subjects s1, s1, s2, s2, in this
    or any other order, and one hall of 4 benches, whatever the shuffles,
    benches 1 to 4 are assigned and no two adjacent benches hold the same
    subject. *)
Theorem sweep_distinct_subjects :
  (∀ rnd k pool, groups_wf (make_subjects rnd k pool)) ∧
  (∀ capacity subjects hallSeats idx placed,
    groups_wf subjects →
    length hallSeats = Z.to_nat capacity →
    ∃ subjects' seats' idx' placed',
      sweep capacity subjects hallSeats idx placed = (subjects', seats', idx', placed') ∧
      groups_wf subjects' ∧
      Forall2 one_taken subjects subjects' ∧
      (∀ i j si sj, idx ≤ i → i < j → j < idx' →
         seats' !! i = Some (Some si) → seats' !! j = Some (Some sj) →
         subject_code si ≠ subject_code sj)) ∧
  (∀ rnd k (a b c d : student) (h : hall) (pool : list student),
    subject_code a = "s1" → subject_code b = "s1" →
    subject_code c = "s2" → subject_code d = "s2" →
    benches h = 4%Z →
    pool ≡ₚ [a; b; c; d] →
    ∃ s1 s2 s3 s4,
      distributeBalanced rnd k pool [h] =
        Some [Assignment (hall_id h) 1 s1; Assignment (hall_id h) 2 s2;
              Assignment (hall_id h) 3 s3; Assignment (hall_id h) 4 s4] ∧
      subject_code s1 ≠ subject_code s2 ∧
      subject_code s2 ≠ subject_code s3 ∧
      subject_code s3 ≠ subject_code s4).
Proof.
  split_and!.
  - intros rnd k pool. apply make_subjects_spec.
  - intros capacity subjects hallSeats idx placed Hwf Hlen.
    destruct (sweep_seats capacity subjects hallSeats idx placed Hlen)
      as (seats' & placed' & Heq & _ & _ & Hnew).
    pose proof (take_round_one_taken (Z.to_nat capacity - idx) subjects) as Hone.
    pose proof (take_round_keys (Z.to_nat capacity - idx) subjects Hwf) as Hkeys.
    destruct (take_round (Z.to_nat capacity - idx) subjects) as [t r]. simpl in *.
    exists r, seats', (idx + length t), placed'.
    split_and!; [done|by eapply one_taken_wf|done|].
    intros i j si sj Hi Hij Hj Hsi Hsj Hsame.
    assert (NoDup (subject_code <$> t)) as Hnd.
    { apply subject_key_NoDup. eapply sublist_NoDup; [|done]. apply Hwf. }
    destruct (lookup_lt_is_Some_2 t (i - idx)) as [xi Hxi]; [lia|].
    destruct (lookup_lt_is_Some_2 t (j - idx)) as [xj Hxj]; [lia|].
    pose proof (Hnew _ _ Hxi) as Hi'. pose proof (Hnew _ _ Hxj) as Hj'.
    replace (idx + (i - idx)) with i in Hi' by lia.
    replace (idx + (j - idx)) with j in Hj' by lia.
    simplify_eq.
    assert (i - idx = j - idx); [|lia].
    eapply NoDup_lookup; [done| |];
      rewrite list_lookup_fmap; [rewrite Hxi|rewrite Hxj]; simpl; by f_equal.
  - intros rnd k [ra na ca] [rb nb cb] [rc nc cc] [rd nd cd] [hid bh rh ch] pool.
    simpl. intros -> -> -> -> -> Hperm.
    symmetry in Hperm. apply permutations_Permutation in Hperm.
    cbn in Hperm.
    repeat (apply elem_of_cons in Hperm as [->|Hperm]);
      try (by apply elem_of_nil in Hperm);
      unfold distributeBalanced, make_subjects;
      cbn [group_by_subject foldl bySub_push subject_key subject_code String.eqb
           Ascii.eqb Bool.eqb app shuffle_queues];
      match goal with
      | |- context [shuffleArray rnd k [?x; ?y]] =>
          destruct (shuffleArray_pair rnd k x y) as [->| ->]
      end;
      match goal with
      | |- context [shuffleArray rnd (S k) [?x; ?y]] =>
          destruct (shuffleArray_pair rnd (S k) x y) as [->| ->]
      end;
      vm_compute; eexists _, _, _, _; (split; [reflexivity|]); by split_and!.
Qed.

(** C6 at the first sweep over a hall of 3 benches. *)
Lemma sweep_distinct_subjects_witness :
  groups_wf (make_subjects example_rnd 0 example_pool) ∧
  ∃ subjects' seats' idx' placed',
    sweep 3 (make_subjects example_rnd 0 example_pool) [None; None; None] 0 false
      = (subjects', seats', idx', placed') ∧
    groups_wf subjects'.
Proof.
  pose proof (proj1 sweep_distinct_subjects example_rnd 0 example_pool) as Hwf.
  split; [done|].
  destruct (proj1 (proj2 sweep_distinct_subjects) 3%Z
              (make_subjects example_rnd 0 example_pool) [None; None; None] 0 false
              Hwf eq_refl)
    as (r & seats' & idx' & placed' & Heq & Hwf' & _).
  by exists r, seats', idx', placed'.
Defined.

(** ** Hall geometry *)

Lemma ceil_div_is_ceil a b : (0 < b)%Z → is_ceil a b (ceil_div a b).
Proof.
  intros Hb. unfold is_ceil, ceil_div.
  pose proof (Z.div_mod (- a) b) as Hdm.
  pose proof (Z.mod_pos_bound (- a) b Hb) as Hbound.
  nia.
Qed.

Lemma is_ceil_pos a b q : (0 < b)%Z → (0 < a)%Z → is_ceil a b q → (0 < q)%Z.
Proof. unfold is_ceil. nia. Qed.

Lemma Math_ceil_quot_pos a b :
  (0 < b)%Z → Math_ceil_quot a b = Some (ceil_div a b).
Proof.
  intros Hb. unfold Math_ceil_quot.
  destruct (Z.eqb_spec b 0); [lia|done].
Qed.

(** C3. For a hall definition with positive [benches] whose [rows] and
    [cols], when given, are not negative ([null] and [0] both count as not
    given), the resolution yields positive [rows] and [cols] with
    [rows * cols >= benches], by the policy: neither given, [cols = 10] and
    [rows = ceil(benches/10)]; only rows given, [cols = ceil(benches/rows)];
    only cols given, [rows = ceil(benches/cols)]; both given, [rows] is kept
    and [cols] is kept unless [rows * cols < benches], when
    [cols = ceil(benches/rows)]. *)
Theorem geometry_capacity (h : hall) :
  (0 < benches h)%Z →
  (∀ r, rows h = Some r → 0 ≤ r)%Z →
  (∀ c, cols h = Some c → 0 ≤ c)%Z →
  ∃ r c,
    resolve_hall h = Some (Hall (hall_id h) (benches h) (Some r) (Some c)) ∧
    (0 < r)%Z ∧ (0 < c)%Z ∧ (benches h ≤ r * c)%Z ∧
    match or_null (rows h), or_null (cols h) with
    | None, None => c = 10%Z ∧ is_ceil (benches h) 10 r
    | Some r0, None => r = r0 ∧ is_ceil (benches h) r0 c
    | None, Some c0 => c = c0 ∧ is_ceil (benches h) c0 r
    | Some r0, Some c0 =>
        r = r0 ∧
        ((r0 * c0 < benches h)%Z ∧ is_ceil (benches h) r0 c ∨
         (benches h ≤ r0 * c0)%Z ∧ c = c0)
    end.
Proof.
  destruct h as [hid b ro co]. simpl. intros Hb Hr Hc.
  unfold resolve_hall. simpl.
  destruct (Z.eqb_spec b 0) as [?|_]; [lia|].
  assert (∀ r0, or_null ro = Some r0 → (0 < r0)%Z) as Hr'.
  { intros r0. destruct ro as [[| |]|]; simpl; intros [= <-]; try lia.
    specialize (Hr _ eq_refl). lia. }
  assert (∀ c0, or_null co = Some c0 → (0 < c0)%Z) as Hc'.
  { intros c0. destruct co as [[| |]|]; simpl; intros [= <-]; try lia.
    specialize (Hc _ eq_refl). lia. }
  clear Hr Hc.
  destruct (or_null ro) as [r0|], (or_null co) as [c0|]; cbn [mbind option_bind].
  - specialize (Hr' _ eq_refl). specialize (Hc' _ eq_refl).
    destruct (Z.ltb_spec (r0 * c0) b) as [Hlt|Hge].
    + rewrite Math_ceil_quot_pos by done. cbn [mbind option_bind].
      pose proof (ceil_div_is_ceil b r0 Hr') as Hceil.
      pose proof (is_ceil_pos _ _ _ Hr' Hb Hceil).
      eexists _, _. split_and!; [done|done|done| |done|left; by split].
      unfold is_ceil in Hceil. lia.
    + cbn [mbind option_bind]. eexists _, _.
      split_and!; [done|done|done|lia|done|right; split; [lia|done]].
  - specialize (Hr' _ eq_refl).
    rewrite Math_ceil_quot_pos by done. cbn [mbind option_bind].
    pose proof (ceil_div_is_ceil b r0 Hr') as Hceil.
    pose proof (is_ceil_pos _ _ _ Hr' Hb Hceil).
    destruct (Z.ltb_spec (r0 * ceil_div b r0) b) as [Hlt|Hge].
    { unfold is_ceil in Hceil. lia. }
    cbn [mbind option_bind]. eexists _, _.
    split_and!; [done|done|done|lia|done|done].
  - specialize (Hc' _ eq_refl).
    rewrite Math_ceil_quot_pos by done. cbn [mbind option_bind].
    pose proof (ceil_div_is_ceil b c0 Hc') as Hceil.
    pose proof (is_ceil_pos _ _ _ Hc' Hb Hceil).
    destruct (Z.ltb_spec (ceil_div b c0 * c0) b) as [Hlt|Hge].
    { unfold is_ceil in Hceil. lia. }
    cbn [mbind option_bind]. eexists _, _.
    split_and!; [done|done|done|lia|done|done].
  - pose proof (ceil_div_is_ceil b 10 ltac:(lia)) as Hceil.
    pose proof (is_ceil_pos b 10 _ ltac:(lia) Hb Hceil).
    destruct (Z.ltb_spec (ceil_div b 10 * 10) b) as [Hlt|Hge].
    { unfold is_ceil in Hceil. lia. }
    cbn [mbind option_bind]. eexists _, _.
    split_and!; [done|done|done|lia|done|done].
Qed.

(** C3 at a hall of 45 benches in 4 rows. *)
Lemma geometry_capacity_witness :
  (0 < benches (Hall "H1" 45 (Some 4%Z) None))%Z ∧
  ∃ r c,
    resolve_hall (Hall "H1" 45 (Some 4%Z) None)
      = Some (Hall "H1" 45 (Some r) (Some c)) ∧
    (45 ≤ r * c)%Z.
Proof.
  split; [done|].
  destruct (geometry_capacity (Hall "H1" 45 (Some 4%Z) None)) as (r & c & Heq & _ & _ & Hcap & _).
  - done.
  - simpl. intros r [= <-]. lia.
  - simpl. intros c [=].
  - by exists r, c.
Defined.

(** Outside the data model, where [rows] and [cols] are positive: a
    negative row count is taken as given, and the grid does not cover the
    benches. *)
Example negative_rows :
  resolve_hall (Hall "H" 5 (Some (-2)%Z) None)
  = Some (Hall "H" 5 (Some (-2)%Z) (Some (-2)%Z)).
Proof. reflexivity. Qed.

(** ** The odd-bench allocator *)

Lemma blocks_in_hall hallDefs (fills : list (list student)) :
  Forall2 (λ h t, Z.of_nat (length t) ≤ benches h)%Z hallDefs fills →
  Forall (λ a, ∃ h, h ∈ hallDefs ∧ a_hall_id a = hall_id h ∧
                    (1 ≤ bench_index_in_hall a ≤ benches h)%Z)
         (blocks hallDefs fills).
Proof.
  unfold blocks. induction 1 as [|h t l l' Ht _ IH]; simpl; [constructor|].
  apply Forall_app. split.
  - destruct (block_ok h t Ht) as [Hok _].
    eapply Forall_impl; [done|]. intros a [??]. exists h.
    split; [apply elem_of_cons; by left|done].
  - eapply Forall_impl; [done|]. intros a (h' & ? & ?). exists h'.
    split; [apply elem_of_cons; by right|done].
Qed.

Lemma odd_mode_default allocator :
  allocator = None ∨ allocator = Some "odd" → odd_mode allocator = true.
Proof. by intros [->| ->]. Qed.

(** C5. When no allocator is requested, or the allocator ['odd'], the
    allocation (of the single run and of each day alike) distributes the
    shuffled pool over the halls with [benches' = ceil(benches/2)] and
    [cols' = ceil(cols/2)] (same identifier and rows), and gives each
    assignment of bench index [i] the bench number [(i-1)*2 + 1]: an odd
    bench of the hall, within its bench count.  A hall of 10 benches and 5
    columns becomes one of 5 benches and 3 columns, and the benches 1, 2, 3
    assigned to a pool of three become the bench numbers 1, 3, 5. *)
Theorem odd_allocator :
  (∀ rnd k allocator (pool : list student) (hallDefs : list hall),
    allocator = None ∨ allocator = Some "odd" →
    Forall (λ h, 0 < benches h)%Z hallDefs →
    ∃ oddDefs a,
      Forall2 (λ h h', hall_id h' = hall_id h ∧
                       is_ceil (benches h) 2 (benches h') ∧
                       rows h' = rows h ∧
                       ∃ c', cols h' = Some c' ∧ is_ceil (to_number (cols h)) 2 c')
              hallDefs oddDefs ∧
      distributeBalanced rnd k pool oddDefs = Some a ∧
      allocate_pool rnd k allocator pool hallDefs =
        Some (map (λ x, Placement (a_hall_id x)
                          ((bench_index_in_hall x - 1) * 2 + 1)%Z (a_student x)) a) ∧
      Forall (λ x, ∃ h, h ∈ hallDefs ∧ a_hall_id x = hall_id h ∧
                        (1 ≤ (bench_index_in_hall x - 1) * 2 + 1 ≤ benches h)%Z ∧
                        Z.odd ((bench_index_in_hall x - 1) * 2 + 1) = true) a) ∧
  (∀ rnd k allocator (pool : list student) (h : hall),
    allocator = None ∨ allocator = Some "odd" →
    benches h = 10%Z → cols h = Some 5%Z → length pool = 3 →
    odd_def h = Hall (hall_id h) 5 (rows h) (Some 3%Z) ∧
    ∃ s1 s2 s3,
      allocate_pool rnd k allocator pool [h] =
        Some [Placement (hall_id h) 1 s1; Placement (hall_id h) 3 s2;
              Placement (hall_id h) 5 s3]) ∧
  (∀ rnd k allocator students hallDefs,
    allocate_single rnd k allocator students hallDefs =
      allocate_pool rnd (shuffleArray rnd k students).2 allocator
        (shuffleArray rnd k students).1 hallDefs) ∧
  (∀ rnd k allocator students subjects hallDefs,
    ∃ pool, pool `sublist_of` students ∧
      allocate_day rnd k allocator students subjects hallDefs =
        allocate_pool rnd (shuffleArray rnd k pool).2 allocator
          (shuffleArray rnd k pool).1 hallDefs).
Proof.
  split_and!.
  - intros rnd k allocator pool hallDefs Hmode Hpos.
    unfold allocate_pool. rewrite (odd_mode_default _ Hmode).
    assert (Forall2 (λ h h', hall_id h' = hall_id h ∧
                       is_ceil (benches h) 2 (benches h') ∧
                       rows h' = rows h ∧
                       ∃ c', cols h' = Some c' ∧ is_ceil (to_number (cols h)) 2 c')
              hallDefs (odd_def <$> hallDefs)) as Hodd.
    { apply Forall2_fmap_r, Forall_Forall2_diag, Forall_forall. intros h _.
      split_and!; [done|by apply ceil_div_is_ceil|done|].
      eexists. split; [done|]. by apply ceil_div_is_ceil. }
    destruct (distributeBalanced_spec rnd k pool (odd_def <$> hallDefs))
      as (fills & dropped & Heq & Hlens & _).
    { apply Forall_fmap. eapply Forall_impl; [done|]. intros h Hh. simpl in *.
      pose proof (ceil_div_is_ceil (benches h) 2 ltac:(lia)) as Hc.
      unfold is_ceil in Hc. lia. }
    exists (odd_def <$> hallDefs), (blocks (odd_def <$> hallDefs) fills).
    rewrite Heq. split_and!; [done..|].
    eapply Forall_impl; [by apply blocks_in_hall|].
    intros a (h' & Hin & Hid & Hb). simpl in *.
    apply list_elem_of_fmap in Hin as (h & -> & Hin).
    exists h. simpl in Hb.
    rewrite Forall_forall in Hpos. specialize (Hpos h Hin).
    pose proof (ceil_div_is_ceil (benches h) 2 ltac:(lia)) as Hc.
    unfold is_ceil in Hc.
    split_and!; [done|done|lia|lia|].
    rewrite Z.add_comm, Z.mul_comm. by rewrite Z.odd_add_mul_2.
  - intros rnd k allocator pool [hid b ro co] Hmode. simpl.
    intros -> -> Hlen. split; [done|].
    unfold allocate_pool. rewrite (odd_mode_default _ Hmode).
    destruct (distributeBalanced_spec rnd k pool [odd_def (Hall hid 10 ro (Some 5%Z))])
      as (fills & dropped & Heq & Hlens & Hp & Hfull).
    { repeat constructor. by vm_compute. }
    change (odd_def <$> [Hall hid 10 ro (Some 5%Z)])
      with [odd_def (Hall hid 10 ro (Some 5%Z))].
    rewrite Heq. cbn [mbind option_bind].
    apply Forall2_cons_inv_l in Hlens as (t & fills' & Ht & Hnil & ->).
    apply Forall2_nil_inv_l in Hnil as ->.
    apply Permutation_length in Hp. rewrite length_app in Hp. simpl in Hp, Ht.
    rewrite app_nil_r in Hp.
    assert (length t = 3) as Ht3.
    { destruct Hfull as [->|Hfull]; [simpl in Hp; lia|].
      apply Forall2_cons in Hfull as [Hfull _]. simpl in Hfull.
      change (ceil_div 10 2) with 5%Z in Hfull. lia. }
    destruct t as [|s1 [|s2 [|s3 [|]]]]; simplify_eq/=.
    by exists s1, s2, s3.
  - intros rnd k allocator students hallDefs. unfold allocate_single.
    by destruct (shuffleArray rnd k students).
  - intros rnd k allocator students subjects hallDefs. unfold allocate_day.
    destruct subjects as [[|c l]|]; cbv zeta.
    + exists students. split; [done|]. by destruct (shuffleArray rnd k students).
    + exists (filter (λ s, JS.toUpperCase (subject_code s)
                             ∈@{gset string} list_to_set (JS.toUpperCase <$> c :: l))
                     students).
      split; [apply sublist_filter|]. by destruct (shuffleArray rnd k _).
    + exists students. split; [done|]. by destruct (shuffleArray rnd k students).
Qed.

(** C5 at a hall of 10 benches and 5 columns and a pool of 3. *)
Lemma odd_allocator_witness :
  Forall (λ h, 0 < benches h)%Z [Hall "H1" 10 (Some 2%Z) (Some 5%Z)] ∧
  ∃ s1 s2 s3,
    allocate_pool example_rnd 0 None (take 3 example_pool)
      [Hall "H1" 10 (Some 2%Z) (Some 5%Z)]
    = Some [Placement "H1" 1 s1; Placement "H1" 3 s2; Placement "H1" 5 s3].
Proof.
  split; [repeat constructor|].
  apply (proj1 (proj2 odd_allocator) example_rnd 0 None (take 3 example_pool)
           (Hall "H1" 10 (Some 2%Z) (Some 5%Z)));
    [by left|done..].
Defined.

(** ** Synthetic identifiers *)

Lemma decimal_value_String_of_nat n : decimal_value (String_of_nat n) = Some n.
Proof.
  unfold decimal_value, String_of_nat.
  pose proof (Unsigned.of_to n) as Hn.
  destruct (Nat.to_uint n) as [|d|d|d|d|d|d|d|d|d|d] eqn:Hd;
    [by rewrite <-Hn|..];
    unfold NilZero.string_of_uint; rewrite NilEmpty.usu; simpl; by rewrite <-Hn.
Qed.

Lemma decimal_value_zeros k s : decimal_value (JS.zeros k +:+ s) = decimal_value s.
Proof.
  induction k as [|k IH]; [done|].
  rewrite <-IH. unfold decimal_value. simpl.
  by destruct (NilEmpty.uint_of_string (JS.zeros k +:+ s)).
Qed.

Lemma synthetic_id_inj n m : synthetic_id n = synthetic_id m → n = m.
Proof.
  unfold synthetic_id, JS.padStart0. intros H.
  apply (inj (String.app "SYN")) in H.
  apply (f_equal decimal_value) in H.
  rewrite !decimal_value_zeros, !decimal_value_String_of_nat in H. congruence.
Qed.

Lemma synthetic_id_nonempty n : synthetic_id n ≠ "".
Proof. done. Qed.

Lemma string_length_app s1 s2 :
  String.length (s1 +:+ s2) = String.length s1 + String.length s2.
Proof. induction s1 as [|c s1 IH]; simpl; [done|]. by rewrite IH. Qed.

Lemma padStart0_length n s :
  String.length (JS.padStart0 n s) = n `max` String.length s.
Proof.
  unfold JS.padStart0. rewrite string_length_app.
  assert (∀ k, String.length (JS.zeros k) = k) as ->.
  { intros k. induction k; simpl; congruence. }
  lia.
Qed.

Lemma missing_cons s l :
  missing (s :: l) = if String.eqb (register_number s) "" then S (missing l) else missing l.
Proof.
  unfold missing. rewrite filter_cons.
  destruct (String.eqb_spec (register_number s) ""); by case_decide.
Qed.

Lemma assign_synthetic_ids unique c x :
  x ∈ ids (assign_synthetic unique c) →
  (x ≠ "" ∧ x ∈ ids unique) ∨ ∃ n, c ≤ n < c + missing unique ∧ x = synthetic_id n.
Proof.
  revert c. induction unique as [|s rest IH]; intros c; simpl.
  { intros H. by apply elem_of_nil in H. }
  rewrite missing_cons. unfold ids in *.
  destruct (String.eqb_spec (register_number s) "") as [He|Hne]; csimpl;
    rewrite elem_of_cons; intros [->|Hin].
  - right. exists c. split; [lia|done].
  - destruct (IH _ Hin) as [[? ?]|(n & ? & ->)].
    + left. split; [done|]. apply elem_of_cons. by right.
    + right. exists n. split; [lia|done].
  - left. split; [done|]. apply elem_of_cons. by left.
  - destruct (IH _ Hin) as [[? ?]|(n & ? & ->)].
    + left. split; [done|]. apply elem_of_cons. by right.
    + right. exists n. split; [lia|done].
Qed.

Lemma assign_synthetic_NoDup unique c :
  NoDup (filter (λ r, r ≠ "") (ids unique)) →
  (∀ n, c ≤ n < c + missing unique → synthetic_id n ∉ ids unique) →
  NoDup (ids (assign_synthetic unique c)).
Proof.
  revert c. induction unique as [|s rest IH]; intros c Hnd Hfresh; simpl.
  { constructor. }
  rewrite missing_cons in Hfresh. unfold ids in *. csimpl in *.
  rewrite filter_cons in Hnd.
  destruct (String.eqb_spec (register_number s) "") as [He|Hne]; csimpl.
  - rewrite decide_False in Hnd by (intros H; by apply H).
    apply NoDup_cons. split.
    + intros Hin. apply assign_synthetic_ids in Hin as [[_ Hin]|(n & Hn & Heq)].
      * apply (Hfresh c); [lia|]. apply elem_of_cons. by right.
      * apply synthetic_id_inj in Heq. lia.
    + apply IH; [done|]. intros n Hn Hin. apply (Hfresh n); [lia|].
      apply elem_of_cons. by right.
  - rewrite decide_True in Hnd by done.
    apply NoDup_cons in Hnd as [Hs Hnd]. apply NoDup_cons. split.
    + intros Hin. apply assign_synthetic_ids in Hin as [[_ Hin]|(n & Hn & Heq)].
      * apply Hs. apply list_elem_of_filter. by split.
      * apply (Hfresh n); [lia|]. rewrite Heq. apply elem_of_cons. by left.
    + apply IH; [done|]. intros n Hn Hin. apply (Hfresh n); [lia|].
      apply elem_of_cons. by right.
Qed.

Lemma assign_synthetic_nonempty unique c :
  Forall (λ s, register_number s ≠ "") (assign_synthetic unique c).
Proof.
  revert c. induction unique as [|s rest IH]; intros c; simpl; [constructor|].
  destruct (String.eqb_spec (register_number s) ""); by constructor.
Qed.

Lemma assign_synthetic_pointwise unique c :
  Forall2 (λ s s',
    student_name s' = student_name s ∧ subject_code s' = subject_code s ∧
    (register_number s ≠ "" → s' = s) ∧
    (register_number s = "" → ∃ n, register_number s' = synthetic_id n))
    unique (assign_synthetic unique c).
Proof.
  revert c. induction unique as [|s rest IH]; intros c; simpl; [constructor|].
  destruct (String.eqb_spec (register_number s) ""); constructor; try done.
  split_and!; [done..|]. by eexists.
Qed.

Lemma assign_synthetic_generated unique c :
  ids (filter (λ p, register_number p.1 = "")
         (zip unique (assign_synthetic unique c))).*2
  = synthetic_id <$> seq c (missing unique).
Proof.
  revert c. induction unique as [|s rest IH]; intros c; simpl; [done|].
  rewrite missing_cons.
  destruct (String.eqb_spec (register_number s) "") as [He|Hne]; simpl;
    rewrite filter_cons; simpl.
  - rewrite decide_True by done. unfold ids in *. csimpl. by rewrite IH.
  - rewrite decide_False by done. apply IH.
Qed.

(** ** Deduplication *)

Lemma dedup_spec parsed (seen : gset string) :
  dedup parsed seen `sublist_of` parsed ∧
  NoDup (filter (λ r, r ≠ "") (ids (dedup parsed seen))) ∧
  (∀ x, x ∈ filter (λ r, r ≠ "") (ids (dedup parsed seen)) → x ∉ seen) ∧
  missing (dedup parsed seen) = missing parsed ∧
  (∀ r, r ≠ "" → r ∉ seen → first_with r (dedup parsed seen) = first_with r parsed).
Proof.
  revert seen. induction parsed as [|s rest IH]; intros seen; simpl.
  { split_and!; [done|constructor| |done|done].
    intros x Hx. by apply elem_of_nil in Hx. }
  destruct (String.eqb_spec (register_number s) "") as [He|Hne]; simpl.
  - destruct (IH seen) as (H1 & H2 & H3 & H4 & H5). unfold ids in *. csimpl.
    rewrite filter_cons, decide_False by (intros H; by apply H).
    rewrite !missing_cons, He. simpl.
    split_and!; [by apply sublist_skip|done|done|by f_equal|].
    intros r Hr Hseen. destruct r as [|a r]; [done|]. by apply H5.
  - case_bool_decide as Hseen; simpl.
    + destruct (IH seen) as (H1 & H2 & H3 & H4 & H5).
      rewrite missing_cons.
      destruct (String.eqb_spec (register_number s) ""); [done|].
      split_and!; [by apply sublist_cons|done|done|done|].
      intros r Hr Hr'. unfold first_with in *. cbn [find].
      destruct (String.eqb_spec (register_number s) r) as [<-|_]; [done|].
      by apply H5.
    + destruct (IH ({[register_number s]} ∪ seen)) as (H1 & H2 & H3 & H4 & H5).
      unfold ids in *. csimpl.
      rewrite filter_cons, decide_True by done.
      rewrite !missing_cons.
      destruct (String.eqb_spec (register_number s) ""); [done|].
      split_and!; [by apply sublist_skip| | |done|].
      * apply NoDup_cons. split; [|done]. intros Hin. apply H3 in Hin.
        apply Hin, elem_of_union. left. by apply elem_of_singleton.
      * intros x [->|Hx]%elem_of_cons; [done|].
        apply H3 in Hx. intros Hx'. apply Hx, elem_of_union. by right.
      * intros r Hr Hr'. unfold first_with in *. cbn [find].
        destruct (String.eqb_spec (register_number s) r) as [<-|Hneq]; [done|].
        apply H5; [done|]. intros [Hin|Hin]%elem_of_union; [|done].
        by apply elem_of_singleton in Hin.
Qed.

Lemma reconcile_Permutation parsed :
  reconcile parsed ≡ₚ assign_synthetic (dedup parsed ∅) 1.
Proof. apply Array_sort_Permutation. Qed.

Lemma reconcile_nonempty parsed :
  Forall (λ s, register_number s ≠ "") (reconcile parsed).
Proof.
  rewrite reconcile_Permutation. apply assign_synthetic_nonempty.
Qed.

Lemma reconcile_NoDup parsed :
  (∀ n, 1 ≤ n ≤ missing parsed → synthetic_id n ∉ ids parsed) →
  NoDup (ids (reconcile parsed)).
Proof.
  intros Hfresh. unfold ids. rewrite reconcile_Permutation.
  destruct (dedup_spec parsed ∅) as (Hsub & Hnd & _ & Hm & _).
  apply assign_synthetic_NoDup; [done|].
  rewrite Hm. intros n Hn Hin. apply (Hfresh n); [lia|].
  unfold ids in *.
  apply list_elem_of_fmap in Hin as (s & -> & Hs).
  apply list_elem_of_fmap. exists s. split; [done|]. by eapply elem_of_sublist.
Qed.

Lemma upload_students_concat files :
  upload_students files = concat (readStudentsFromFile <$> files).
Proof.
  unfold upload_students.
  assert (∀ acc, foldl (λ students f, students ++ readStudentsFromFile f) acc files
                 = acc ++ concat (readStudentsFromFile <$> files)) as H.
  { induction files as [|f files IH]; intros acc; csimpl.
    - by rewrite app_nil_r.
    - by rewrite IH, (assoc_L (++)). }
  apply H.
Qed.

(** ** Claims about the roster *)

Lemma synthetic_id_prefix n : String.prefix "SYN" (synthetic_id n) = true.
Proof. unfold synthetic_id. by destruct (JS.padStart0 4 (String_of_nat n)). Qed.

Lemma assign_synthetic_keeps unique c r :
  r ≠ "" → r ∈ ids unique → r ∈ ids (assign_synthetic unique c).
Proof.
  intros Hr. revert c. unfold ids.
  induction unique as [|s rest IH]; intros c Hin; [done|].
  rewrite fmap_cons in Hin. apply elem_of_cons in Hin as [->|Hin];
    cbn [assign_synthetic].
  - destruct (String.eqb_spec (register_number s) ""); [done|].
    rewrite fmap_cons. apply elem_of_cons. by left.
  - destruct (String.eqb (register_number s) ""); rewrite fmap_cons;
      apply elem_of_cons; right; by apply IH.
Qed.

Lemma assign_synthetic_gives unique c n :
  c ≤ n < c + missing unique → synthetic_id n ∈ ids (assign_synthetic unique c).
Proof.
  revert c. unfold ids. induction unique as [|s rest IH]; intros c.
  { unfold missing. simpl. lia. }
  rewrite missing_cons. cbn [assign_synthetic].
  destruct (String.eqb (register_number s) ""); intros Hn; rewrite fmap_cons;
    apply elem_of_cons.
  - destruct (decide (n = c)) as [->|Hne]; [by left|].
    right. apply IH. lia.
  - right. by apply IH.
Qed.

(** A synthetic identifier that is already present is given twice. *)
Lemma assign_synthetic_collision unique c n :
  c ≤ n < c + missing unique → synthetic_id n ∈ ids unique →
  ¬ NoDup (ids (assign_synthetic unique c)).
Proof.
  revert c. induction unique as [|s rest IH]; intros c Hn Hin.
  { by apply elem_of_nil in Hin. }
  rewrite missing_cons in Hn. unfold ids in *. cbn [assign_synthetic].
  rewrite fmap_cons in Hin. apply elem_of_cons in Hin.
  destruct (String.eqb_spec (register_number s) "") as [He|Hne];
    rewrite fmap_cons, NoDup_cons; intros [Hnin Hnd].
  - destruct Hin as [Heq|Hin].
    { rewrite He in Heq. by apply synthetic_id_nonempty in Heq. }
    destruct (decide (n = c)) as [->|Hnc].
    + apply Hnin. cbn [register_number].
      apply (assign_synthetic_keeps rest (S c)); [apply synthetic_id_nonempty|done].
    + apply (IH (S c)); [lia|done|done].
  - destruct Hin as [Heq|Hin].
    + apply Hnin. rewrite <-Heq. by apply (assign_synthetic_gives rest c n).
    + by apply (IH c).
Qed.

(** C7, as the code has it.  After the duplicates are dropped, the records
    that have an identifier are kept unchanged, and the record that is the
    [n]-th without identifier, in the order of the records, gets
    [synthetic_id n]: SYN0001, SYN0002, ..., the counter in decimal, padded
    with zeros on the left to four digits at least.  Different counters give
    different identifiers.  A synthetic identifier collides with an
    identifier already present only when that identifier is itself one of
    the identifiers given, [synthetic_id 1 .. synthetic_id m] for [m]
    records without identifier: the identifiers are pairwise distinct after
    the assignment exactly when no identifier present is one of these. *)
Theorem synthetic_identifiers (parsed : list student) :
  let unique := dedup parsed ∅ in
  let result := assign_synthetic unique 1 in
  Forall2 (λ s s',
    student_name s' = student_name s ∧ subject_code s' = subject_code s ∧
    (register_number s ≠ "" → s' = s)) unique result ∧
  ids (filter (λ p, register_number p.1 = "") (zip unique result)).*2
    = synthetic_id <$> seq 1 (missing unique) ∧
  synthetic_id 1 = "SYN0001" ∧ synthetic_id 2 = "SYN0002" ∧
  synthetic_id 10 = "SYN0010" ∧
  (∀ n, String.length (JS.padStart0 4 (String_of_nat n))
          = 4 `max` String.length (String_of_nat n) ∧
        decimal_value (JS.padStart0 4 (String_of_nat n)) = Some n) ∧
  (∀ n m, synthetic_id n = synthetic_id m → n = m) ∧
  (NoDup (ids result) ↔
   ∀ n, 1 ≤ n ≤ missing unique → synthetic_id n ∉ ids unique).
Proof.
  intros unique result. split_and!.
  - eapply Forall2_impl; [apply assign_synthetic_pointwise|].
    intros s s' (? & ? & ? & _). by split_and!.
  - apply assign_synthetic_generated.
  - done.
  - done.
  - done.
  - intros n. split; [apply padStart0_length|].
    unfold JS.padStart0. by rewrite decimal_value_zeros, decimal_value_String_of_nat.
  - apply synthetic_id_inj.
  - split.
    + intros Hnd n Hn Hin.
      apply (assign_synthetic_collision unique 1 n); [lia|done|done].
    + intros Hfresh. apply assign_synthetic_NoDup.
      * apply (dedup_spec parsed ∅).
      * intros n Hn. apply Hfresh. lia.
Qed.

(** C7 at a roster with a repeated identifier and two records without. *)
Lemma synthetic_identifiers_witness :
  (∀ n, 1 ≤ n ≤ missing (dedup example_roster ∅) →
        synthetic_id n ∉ ids (dedup example_roster ∅)) ∧
  NoDup (ids (assign_synthetic (dedup example_roster ∅) 1)).
Proof.
  assert (∀ n, 1 ≤ n ≤ missing (dedup example_roster ∅) →
               synthetic_id n ∉ ids (dedup example_roster ∅)) as Hfresh.
  { assert (Forall (λ r, String.prefix "SYN" r = false)
              (ids (dedup example_roster ∅))) as Hpre
      by (vm_compute; repeat constructor).
    intros n _ Hin. rewrite Forall_forall in Hpre. apply Hpre in Hin.
    by rewrite synthetic_id_prefix in Hin. }
  split; [exact Hfresh|].
  destruct (synthetic_identifiers example_roster) as (_ & _ & _ & _ & _ & _ & _ & H).
  apply (proj2 H). exact Hfresh.
Defined.

(** An identifier that merely begins with SYN collides with none. *)
Example synthetic_prefix_no_collision :
  ids (assign_synthetic
         (dedup [Student "SYNTAX1" "Asha" "CS"; Student "" "Bala" "CS"] ∅) 1)
  = ["SYNTAX1"; "SYN0001"].
Proof. by vm_compute. Qed.

(** C7, as stated, fails: a record whose identifier is SYN0001 is present,
    and the record without identifier that follows gets SYN0001 too; so it
    is for a file that holds the two. *)
Lemma synthetic_identifier_collision :
  let parsed := [Student "SYN0001" "Asha" "CS"; Student "" "Bala" "CS"] in
  let raw := [[("register_number", CStr "SYN0001"); ("student_name", CStr "Asha");
               ("subject_code", CStr "CS")];
              [("Name", CStr "Bala"); ("Dept", CStr "CS")]] in
  parse_record <$> raw = parsed ∧
  dedup parsed ∅ = parsed ∧
  assign_synthetic (dedup parsed ∅) 1
    = [Student "SYN0001" "Asha" "CS"; Student "SYN0001" "Bala" "CS"] ∧
  synthetic_id 1 ∈ ids (dedup parsed ∅) ∧
  ids (readStudentsFromFile raw) = ["SYN0001"; "SYN0001"].
Proof.
  cbv zeta. split_and!; [by vm_compute..| |by vm_compute].
  assert (dedup [Student "SYN0001" "Asha" "CS"; Student "" "Bala" "CS"] ∅
          = [Student "SYN0001" "Asha" "CS"; Student "" "Bala" "CS"]) as ->
    by (by vm_compute).
  apply elem_of_cons. by left.
Qed.

(** C2, as the code has it.  The roster the upload returns is the
    concatenation, file by file, of the reconciled records of each file,
    and every record of it has a non-empty identifier.  The records of one
    file are, up to their order, those left after the later records of an
    identifier already seen in this file are dropped (of each identifier the
    first record stays), with the synthetic identifiers filled in, and they
    come sorted by identifier; their identifiers are pairwise distinct when none of the identifiers parsed
    from this file is one of the synthetic identifiers given in this file. *)
Theorem roster_identifiers (files : list (list row)) :
  upload_students files = concat (readStudentsFromFile <$> files) ∧
  Forall (λ s, register_number s ≠ "") (upload_students files) ∧
  Forall (λ raw,
    let parsed := parse_record <$> raw in
    readStudentsFromFile raw ≡ₚ assign_synthetic (dedup parsed ∅) 1 ∧
    StronglySorted (λ a b, String.le (register_number a) (register_number b))
      (readStudentsFromFile raw) ∧
    dedup parsed ∅ `sublist_of` parsed ∧
    NoDup (filter (λ r, r ≠ "") (ids (dedup parsed ∅))) ∧
    (∀ r, r ≠ "" → first_with r (dedup parsed ∅) = first_with r parsed) ∧
    ((∀ n, 1 ≤ n ≤ missing parsed → synthetic_id n ∉ ids parsed) →
     NoDup (ids (readStudentsFromFile raw)))) files.
Proof.
  split_and!.
  - apply upload_students_concat.
  - rewrite upload_students_concat. apply Forall_concat, Forall_fmap, Forall_forall.
    intros raw _. apply reconcile_nonempty.
  - apply Forall_forall. intros raw _. cbv zeta.
    destruct (dedup_spec (parse_record <$> raw) ∅) as (Hsub & Hnd & _ & _ & Hfirst).
    split_and!; [apply reconcile_Permutation| |done|done| |apply reconcile_NoDup].
    + by apply (Array_sort_by_key register_number).
    + intros r Hr. apply Hfirst; [done|]. apply not_elem_of_empty.
Qed.

(** C2 at a file of four rows. *)
Lemma roster_identifiers_witness :
  (∀ n, 1 ≤ n ≤ missing (parse_record <$> example_file) →
        synthetic_id n ∉ ids (parse_record <$> example_file)) ∧
  NoDup (ids (readStudentsFromFile example_file)).
Proof.
  assert (∀ n, 1 ≤ n ≤ missing (parse_record <$> example_file) →
               synthetic_id n ∉ ids (parse_record <$> example_file)) as Hfresh.
  { intros n Hn Hin.
    assert (Forall (λ r, String.prefix "SYN" r = false)
              (ids (parse_record <$> example_file))) as Hpre
      by (vm_compute; repeat constructor).
    rewrite Forall_forall in Hpre. apply Hpre in Hin.
    by rewrite synthetic_id_prefix in Hin. }
  split; [done|].
  destruct (roster_identifiers [example_file]) as (_ & _ & Hfiles).
  apply Forall_inv in Hfiles. by apply Hfiles.
Defined.

(** C2, as stated, fails: two files that each hold a record of R1 give a
    roster with R1 twice, and two files that each hold a record without
    identifier give a roster with SYN0001 twice. *)
Lemma roster_duplicates_across_files :
  let file1 := [[("register_number", CStr "R1"); ("student_name", CStr "Asha");
                 ("subject_code", CStr "CS")];
                [("Name", CStr "Bala"); ("Dept", CStr "CS")]] in
  let file2 := [[("register_number", CStr "R1"); ("student_name", CStr "Asha");
                 ("subject_code", CStr "CS")];
                [("Name", CStr "Chitra"); ("Dept", CStr "MA")]] in
  ids (upload_students [file1; file2]) = ["R1"; "SYN0001"; "R1"; "SYN0001"] ∧
  ¬ NoDup (ids (upload_students [file1; file2])).
Proof.
  cbv zeta.
  match goal with |- ?l = ?r ∧ _ => assert (l = r) as H by (by vm_compute) end.
  split; [done|]. rewrite H. intros Hnd.
  apply NoDup_cons in Hnd as [Hnd _]. apply Hnd.
  apply elem_of_cons; right. apply elem_of_cons. by left.
Qed.

(** ** The subject fall-back of the row parser *)

Lemma test_alnum_spec v :
  JS.test_alnum v = true ↔ ∃ i c, String.get i v = Some c ∧ JS.is_alnum c = true.
Proof.
  induction v as [|a v IH]; simpl.
  - split; [done|]. by intros (i & c & ? & _).
  - rewrite orb_true_iff, IH. split.
    + intros [Ha|(i & c & Hi & Hc)].
      * by exists 0, a.
      * by exists (S i), c.
    + intros ([|i] & c & Hi & Hc); simpl in Hi.
      * left. congruence.
      * right. by exists i, c.
Qed.

Lemma fallback_candidate_spec r k :
  fallback_candidate r k = true ↔
  text r k ≠ "" ∧ String.length (text r k) ≤ 8 ∧
  (∃ i c, String.get i (text r k) = Some c ∧ JS.is_alnum c = true) ∧
  JS.includes (JS.toLowerCase k) "name" = false.
Proof.
  unfold fallback_candidate. cbv zeta.
  rewrite !andb_true_iff, !negb_true_iff, test_alnum_spec, Nat.leb_le.
  destruct (String.eqb_spec (text r k) ""); naive_solver.
Qed.

Lemma fallback_scan_first r keys :
  (∃ pre k post,
     keys = pre ++ k :: post ∧
     Forall (λ k', fallback_candidate r k' = false) pre ∧
     fallback_candidate r k = true ∧ fallback_scan r keys = text r k) ∨
  (Forall (λ k, fallback_candidate r k = false) keys ∧ fallback_scan r keys = "").
Proof.
  induction keys as [|k keys IH]; simpl.
  { right. by split. }
  destruct (fallback_candidate r k) eqn:Hk.
  - left. exists [], k, keys. by split_and!.
  - destruct IH as [(pre & k' & post & -> & Hpre & Hk' & Heq)|[Hall Heq]].
    + left. exists (k :: pre), k', post. split_and!; [done|by constructor|done|done].
    + right. split; [by constructor|done].
Qed.

(** C8, as the code has it.  When no course column and no subject column
    is identified (or the cell under it is blank), the parser scans the keys
    of the row in order and takes the value under the first key that passes
    the test: the value, trimmed, is not empty, has at most 8 characters and
    holds at least one character of [A-Za-z0-9], and the key in lower case
    does not contain "name".  The subject code is this value in upper case;
    it is empty when no key passes. *)
Theorem subject_fallback (r : row) :
  filled r (courseCol (detect_columns r.*1)) = false →
  filled r (subjCol (detect_columns r.*1)) = false →
  (∀ k, fallback_candidate r k = true ↔
        text r k ≠ "" ∧ String.length (text r k) ≤ 8 ∧
        (∃ i c, String.get i (text r k) = Some c ∧ JS.is_alnum c = true) ∧
        JS.includes (JS.toLowerCase k) "name" = false) ∧
  ((∃ pre k post,
      r.*1 = pre ++ k :: post ∧
      Forall (λ k', fallback_candidate r k' = false) pre ∧
      fallback_candidate r k = true ∧
      row_subject_code (parseStudentRowRobust r) = JS.toUpperCase (JS.trim (text r k))) ∨
   (Forall (λ k, fallback_candidate r k = false) r.*1 ∧
    row_subject_code (parseStudentRowRobust r) = "")).
Proof.
  intros Hcourse Hsubj. split; [apply fallback_candidate_spec|].
  assert (row_subject_code (parseStudentRowRobust r)
          = JS.toUpperCase (JS.trim (fallback_scan r r.*1))) as ->.
  { unfold parseStudentRowRobust. cbv zeta. rewrite Hcourse, Hsubj.
    by destruct (if filled r (studentCol (detect_columns r.*1)) then _ else _). }
  destruct (fallback_scan_first r r.*1)
    as [(pre & k & post & Hkeys & Hpre & Hk & ->)|[Hall ->]].
  - left. by exists pre, k, post.
  - by right.
Qed.

(** C8 at a row without subject column. *)
Lemma subject_fallback_witness :
  filled example_row (courseCol (detect_columns example_row.*1)) = false ∧
  filled example_row (subjCol (detect_columns example_row.*1)) = false ∧
  (fallback_candidate example_row "Roll" = true ↔
   text example_row "Roll" ≠ "" ∧ String.length (text example_row "Roll") ≤ 8 ∧
   (∃ i c, String.get i (text example_row "Roll") = Some c ∧ JS.is_alnum c = true) ∧
   JS.includes (JS.toLowerCase "Roll") "name" = false).
Proof.
  split_and!; [reflexivity|reflexivity|].
  apply (subject_fallback example_row); reflexivity.
Defined.

(** C8, as stated, fails: no subject column is identified in this row, the
    first value that is alphanumeric (and short, and not under a name
    column) is "CS", and the parser takes "21-CS-05", which is not
    alphanumeric, before it. *)
Lemma subject_fallback_not_alphanumeric :
  courseCol (detect_columns example_row.*1) = None ∧
  subjCol (detect_columns example_row.*1) = None ∧
  claimed_scan example_row example_row.*1 = "CS" ∧
  row_subject_code (parseStudentRowRobust example_row) = "21-CS-05" ∧
  all_alnum "21-CS-05" = false.
Proof. by vm_compute. Qed.

(** ** The hall list *)

Lemma primary_pass_Some hallDefs subjects acc res :
  primary_pass hallDefs subjects acc = Some res →
  Forall (λ h, 0 ≤ benches h)%Z hallDefs.
Proof.
  revert subjects acc. induction hallDefs as [|h rest IH]; intros subjects acc; simpl.
  { constructor. }
  unfold fill_hall at 1, new_Array_fill.
  destruct (Z.ltb_spec (benches h) 0) as [Hlt|Hge]; [done|].
  cbn [mbind option_bind].
  destruct (fill_loop _ _ _ _ _) as [[r seats]|]; [|done].
  cbn [mbind option_bind]. intros Hres. constructor; [done|]. by eapply IH.
Qed.

Lemma hall_id_blocks_sorted hallDefs (fills : list (list student)) :
  StronglySorted (λ a b, String.le (hall_id a) (hall_id b)) hallDefs →
  StronglySorted String.le (a_hall_id <$> blocks hallDefs fills).
Proof.
  unfold blocks. intros Hs. revert fills.
  induction Hs as [|h l Hl IH Hh]; intros [|t fills]; simpl; try constructor.
  rewrite fmap_app. apply StronglySorted_app_2.
  - intros x1 x2 Hx1 Hx2.
    apply list_elem_of_fmap in Hx1 as (a1 & -> & Ha1).
    apply list_elem_of_fmap in Hx2 as (a2 & -> & Ha2).
    unfold block in Ha1. apply elem_of_lookup_imap in Ha1 as (i & s & -> & _).
    simpl. clear IH Hl. revert fills Ha2.
    induction Hh as [|h' l' Hh' _ IH']; intros [|t' fills] Ha2; simpl in Ha2;
      try by apply elem_of_nil in Ha2.
    apply elem_of_app in Ha2 as [Ha2|Ha2]; [|by eapply IH'].
    unfold block in Ha2. by apply elem_of_lookup_imap in Ha2 as (j & s' & -> & _).
  - assert (a_hall_id <$> block (hall_id h) t = replicate (length t) (hall_id h)) as ->.
    { apply list_eq. intros i. unfold block.
      rewrite list_lookup_fmap, list_lookup_imap.
      destruct (t !! i) as [s|] eqn:Hi; simpl.
      - symmetry. apply lookup_replicate_2. by eapply lookup_lt_Some.
      - symmetry. apply lookup_replicate_None. by apply lookup_ge_None. }
    generalize (length t). intros n. induction n as [|n IHn]; simpl; constructor;
      [done|]. apply Forall_forall. intros x Hx.
    apply elem_of_replicate in Hx as [-> _]. done.
  - apply IH.
Qed.

Lemma resolve_hall_id h h' : resolve_hall h = Some h' → hall_id h' = hall_id h.
Proof.
  unfold resolve_hall. cbv zeta. intros H.
  repeat (case_match; simplify_option_eq); done.
Qed.

(** C10. [readHallListFromFile] returns the hall records parsed from the
    rows, reordered so that their [hall_id]s ascend in the ordinal order of
    strings; the order of the identifiers depends on the records only, not
    on their order in the file.  The resolution of [/api/allocate] and the
    odd-bench transformation keep the halls in this order, and the
    assignments [distributeBalanced] returns for halls in this order come in
    ascending order of [hall_id]. *)
Theorem hall_list_sorted (raw : list row) (defaultBenches : Z) :
  let halls := readHallListFromFile raw defaultBenches in
  StronglySorted (λ a b, String.le (hall_id a) (hall_id b)) halls ∧
  halls ≡ₚ imap (parse_hall defaultBenches) raw ∧
  (∀ raw', imap (parse_hall defaultBenches) raw' ≡ₚ imap (parse_hall defaultBenches) raw →
           hall_id <$> readHallListFromFile raw' defaultBenches = hall_id <$> halls) ∧
  (∀ hallDefs, resolve_halls halls = Some hallDefs →
     hall_id <$> hallDefs = hall_id <$> halls ∧
     hall_id <$> (odd_def <$> hallDefs) = hall_id <$> halls) ∧
  (∀ hallDefs rnd k pool assignments,
     hall_id <$> hallDefs = hall_id <$> halls →
     distributeBalanced rnd k pool hallDefs = Some assignments →
     StronglySorted String.le (a_hall_id <$> assignments)).
Proof.
  intros halls.
  assert (∀ raw0, StronglySorted (λ a b, String.le (hall_id a) (hall_id b))
                    (readHallListFromFile raw0 defaultBenches)) as Hsorted.
  { intros raw0. by apply (Array_sort_by_key hall_id). }
  split_and!.
  - apply Hsorted.
  - apply Array_sort_Permutation.
  - intros raw' Hperm.
    apply (StronglySorted_unique String.le).
    + eapply StronglySorted_fmap; [|apply Hsorted]. done.
    + eapply StronglySorted_fmap; [|apply Hsorted]. done.
    + unfold halls, readHallListFromFile.
      by rewrite !Array_sort_Permutation, Hperm.
  - intros hallDefs Hres. apply mapM_Some_1 in Hres.
    assert (hall_id <$> hallDefs = hall_id <$> halls) as Hids.
    { clear -Hres. induction Hres as [|h h' l l' Hh _ IH]; csimpl; [done|].
      f_equal; [|done]. by apply resolve_hall_id. }
    split; [done|]. by rewrite <-list_fmap_compose.
  - intros hallDefs rnd k pool assignments Hids Hdist.
    assert (StronglySorted (λ a b, String.le (hall_id a) (hall_id b)) hallDefs) as Hs.
    { specialize (Hsorted raw). fold halls in Hsorted.
      apply (StronglySorted_fmap hall_id _ String.le) in Hsorted; [|done].
      rewrite <-Hids in Hsorted. clear -Hsorted.
      induction hallDefs as [|h l IH]; [constructor|].
      csimpl in Hsorted. apply StronglySorted_inv in Hsorted as [Hl Hh].
      constructor; [by apply IH|].
      apply Forall_forall. intros b Hb. rewrite Forall_forall in Hh.
      apply Hh, list_elem_of_fmap. by exists b. }
    unfold distributeBalanced in Hdist.
    destruct (primary_pass hallDefs (make_subjects rnd k pool) []) as [[r a]|] eqn:Hpp;
      [|done].
    pose proof (primary_pass_Some _ _ _ _ Hpp) as Hpos.
    destruct (distributeBalanced_spec rnd k pool hallDefs Hpos) as (fills & _ & Heq & _).
    unfold distributeBalanced in Heq. rewrite Hpp in Heq. rewrite Hdist in Heq.
    injection Heq as ->. by apply hall_id_blocks_sorted.
Qed.

(** C10 at a file of two halls, read in both orders. *)
Lemma hall_list_sorted_witness :
  let raw := [[("Hall", CStr "B2"); ("Benches", CNum 20)];
              [("Hall", CStr "A1"); ("Seats", CNum 12); ("Rows", CNum 3)]] in
  imap (parse_hall 30) (reverse raw) ≡ₚ imap (parse_hall 30) raw ∧
  hall_id <$> readHallListFromFile (reverse raw) 30 = ["A1"; "B2"].
Proof.
  cbv zeta.
  match goal with |- ?P ∧ _ => assert P as Hperm end.
  { vm_compute. apply perm_swap. }
  split; [done|].
  by rewrite (proj1 (proj2 (proj2 (hall_list_sorted _ 30))) _ Hperm).
Defined.


(** * Further properties of the code *)

(** ** The shuffle *)

Lemma shuffle_loop_counter {A} rnd i k (arr : list A) :
  (shuffle_loop rnd i k arr).2 = k + i.
Proof.
  revert k arr. induction i as [|i IH]; intros k arr; simpl; [lia|].
  rewrite IH. lia.
Qed.

(** X1. [shuffleArray] returns a permutation of its array (nothing lost,
    nothing twice), of the same length, and calls [Math.random] once for
    each element but the first. *)
Theorem shuffleArray_permutes {A} rnd k (arr : list A) :
  (shuffleArray rnd k arr).1 ≡ₚ arr ∧
  length (shuffleArray rnd k arr).1 = length arr ∧
  (shuffleArray rnd k arr).2 = k + (length arr - 1).
Proof.
  split_and!.
  - apply shuffleArray_Permutation.
  - by rewrite shuffleArray_Permutation.
  - apply shuffle_loop_counter.
Qed.

(** ** Errors and losses of the distribution *)

Lemma primary_pass_negative hallDefs subjects acc :
  Exists (λ h, benches h < 0)%Z hallDefs →
  primary_pass hallDefs subjects acc = None.
Proof.
  revert subjects acc.
  induction hallDefs as [|h rest IH]; intros subjects acc Hex.
  { by apply Exists_nil in Hex. }
  simpl. destruct (Z.ltb_spec (benches h) 0) as [Hlt|Hge].
  - unfold fill_hall, new_Array_fill.
    destruct (Z.ltb_spec (benches h) 0); [done|lia].
  - destruct (fill_hall_spec h subjects Hge) as (r & t & -> & _).
    cbn [mbind option_bind]. apply IH.
    apply Exists_cons in Hex as [?|?]; [lia|done].
Qed.

(** X2. For halls whose bench counts are below [2^32] (from that length
    on [new Array] throws as well), [distributeBalanced] throws exactly
    when some hall has a negative bench count, by the [RangeError] of
    [new Array]; for every other such list of halls, a hall of [0] benches
    included, it returns. *)
Theorem distributeBalanced_throws rnd k (pool : list student) (hallDefs : list hall) :
  Forall (λ h, array_length (benches h)) hallDefs →
  distributeBalanced rnd k pool hallDefs = None ↔
  Exists (λ h, benches h < 0)%Z hallDefs.
Proof.
  intros _. split.
  - intros Hnone.
    destruct (decide (Forall (λ h, 0 ≤ benches h)%Z hallDefs)) as [Hpos|Hneg].
    + destruct (distributeBalanced_spec rnd k pool hallDefs Hpos) as (? & ? & Heq & _).
      congruence.
    + apply not_Forall_Exists in Hneg; [|apply _].
      eapply Exists_impl; [done|]. intros h Hh. simpl in Hh. lia.
  - intros Hex. unfold distributeBalanced.
    by rewrite primary_pass_negative.
Qed.

Lemma distributeBalanced_throws_witness :
  Forall (λ h, array_length (benches h))
    [example_hall; Hall "H2" (-1) None None] ∧
  distributeBalanced example_rnd 0 example_pool
    [example_hall; Hall "H2" (-1) None None] = None.
Proof.
  assert (Forall (λ h, array_length (benches h))
            [example_hall; Hall "H2" (-1) None None]) as Hlen.
  { repeat constructor. }
  split; [exact Hlen|].
  apply (proj2 (distributeBalanced_throws example_rnd 0 example_pool _ Hlen)).
  apply Exists_cons. right. apply Exists_cons. left. simpl. lia.
Defined.

Lemma distributeBalanced_students rnd k (pool : list student) hallDefs assignments :
  distributeBalanced rnd k pool hallDefs = Some assignments →
  ∃ dropped, pool ≡ₚ (a_student <$> assignments) ++ dropped ∧
    (Z.of_nat (length pool) ≤ sum_benches hallDefs → dropped = [])%Z.
Proof.
  intros Hdist.
  assert (Forall (λ h, 0 ≤ benches h)%Z hallDefs) as Hpos.
  { unfold distributeBalanced in Hdist.
    destruct (primary_pass hallDefs (make_subjects rnd k pool) []) as [res|] eqn:Hpp;
      [|done].
    by eapply primary_pass_Some. }
  destruct (distributeBalanced_spec rnd k pool hallDefs Hpos)
    as (fills & dropped & Heq & Hlens & Hperm & Hfull).
  rewrite Hdist in Heq. injection Heq as ->.
  pose proof (Forall2_length _ _ _ Hlens) as Hlen.
  exists dropped. rewrite student_blocks by done. split; [done|].
  intros Hfit. destruct Hfull as [?|Hfull]; [done|].
  pose proof (length_fills_full _ _ Hfull) as Hsum.
  apply Permutation_length in Hperm. rewrite length_app in Hperm.
  destruct dropped; [done|]. simpl in Hperm. lia.
Qed.

(** X3. Whenever [distributeBalanced] returns, the students it seats are
    records of the pool, each seated as often as it is in the pool at most
    (no student is seated twice, none is made up); and when the pool is not
    larger than the total bench count, every student of the pool is
    seated. *)
Theorem distributeBalanced_seats_pool rnd k (pool : list student) hallDefs assignments :
  distributeBalanced rnd k pool hallDefs = Some assignments →
  (a_student <$> assignments) ⊆+ pool ∧
  ((Z.of_nat (length pool) ≤ sum_benches hallDefs)%Z →
   a_student <$> assignments ≡ₚ pool).
Proof.
  intros Hdist.
  destruct (distributeBalanced_students rnd k pool hallDefs assignments Hdist)
    as (dropped & Hperm & Hfit).
  split.
  - rewrite Hperm. by apply submseteq_inserts_r.
  - intros Hle. rewrite (Hfit Hle), app_nil_r in Hperm. by symmetry.
Qed.

Lemma distributeBalanced_seats_pool_witness :
  ∃ assignments,
    distributeBalanced example_rnd 0 example_pool example_halls = Some assignments ∧
    (a_student <$> assignments) ⊆+ example_pool ∧
    a_student <$> assignments ≡ₚ example_pool.
Proof.
  destruct (distributeBalanced_seats_pool example_rnd 0 example_pool example_halls
              _ eq_refl) as [Hsub Hall].
  eexists. split; [reflexivity|]. split; [exact Hsub|].
  apply Hall. vm_compute. discriminate.
Defined.

(** ** Halls are filled one after the other *)

Lemma concat_nil_Forall {A} (ls : list (list A)) :
  concat ls = [] → Forall (λ l, l = []) ls.
Proof.
  induction ls as [|l ls IH]; simpl; [by constructor|].
  intros [-> ?]%app_eq_nil. constructor; auto.
Qed.

Lemma primary_pass_in_order hallDefs subjects acc :
  Forall (λ h, 0 ≤ benches h)%Z hallDefs →
  ∃ r (fills : list (list student)),
    primary_pass hallDefs subjects acc = Some (r, acc ++ blocks hallDefs fills) ∧
    Forall2 (λ h t, Z.of_nat (length t) ≤ benches h)%Z hallDefs fills ∧
    drain subjects ≡ₚ concat fills ++ drain r ∧
    (drain r = [] ∨
     Forall2 (λ h t, Z.of_nat (length t) = benches h) hallDefs fills) ∧
    filled_in_order hallDefs fills.
Proof.
  intros Hpos. revert subjects acc.
  induction Hpos as [|h rest Hh Hrest IH]; intros subjects acc.
  { exists subjects, []. simpl. rewrite app_nil_r. split_and!; auto. }
  simpl.
  destruct (fill_hall_spec h subjects Hh) as (r1 & t & -> & Hlen & Hperm & Hfull & _).
  cbn [mbind option_bind].
  destruct (IH r1 (acc ++ block (hall_id h) t))
    as (r & fills & -> & Hlens & Hperm' & Hfull' & Hord).
  exists r, (t :: fills). unfold blocks. simpl. rewrite (assoc_L (++)).
  split_and!; [done|by constructor| | | |done].
  - rewrite Hperm, Hperm'. by rewrite (assoc_L (++)).
  - destruct Hfull' as [?|Hfull']; [by left|].
    destruct Hfull as [Hfull|Hempty].
    + right. by constructor.
    + left. rewrite Hempty in Hperm'. symmetry in Hperm'.
      apply Permutation_nil_r in Hperm'. by apply app_eq_nil in Hperm' as [_ ?].
  - destruct Hfull as [Hfull|Hempty]; [by left|].
    right. rewrite Hempty in Hperm'. symmetry in Hperm'.
    apply Permutation_nil_r in Hperm'. apply app_eq_nil in Hperm' as [? _].
    by apply concat_nil_Forall.
Qed.

Lemma filled_in_order_lookup hallDefs (fills : list (list student)) i j h t t' :
  filled_in_order hallDefs fills →
  i < j → hallDefs !! i = Some h → fills !! i = Some t → fills !! j = Some t' →
  t' ≠ [] → Z.of_nat (length t) = benches h.
Proof.
  revert fills i j. induction hallDefs as [|h0 hs IH]; intros fills i j Hord Hij Hh Ht Ht' Hne.
  { done. }
  destruct fills as [|t0 ts]; [done|]. destruct Hord as [Hfirst Hord].
  destruct j as [|j]; [lia|]. destruct i as [|i]; simpl in *.
  - injection Hh as ->. injection Ht as ->.
    destruct Hfirst as [?|Hempty]; [done|].
    rewrite Forall_forall in Hempty. exfalso. apply Hne, Hempty.
    by eapply list_elem_of_lookup_2.
  - eapply (IH ts i j); eauto with lia.
Qed.

(** X4. [distributeBalanced] fills the halls one after the other, in the
    order given: its result is one block of assignments per hall, each
    block seating students of that hall on benches [1..m], and as soon as
    a later hall seats anybody, every hall before it is full. *)
Theorem halls_filled_in_order rnd k (pool : list student) (hallDefs : list hall) :
  Forall (λ h, 0 ≤ benches h)%Z hallDefs →
  ∃ per_hall : list (list assignment),
    distributeBalanced rnd k pool hallDefs = Some (concat per_hall) ∧
    Forall2 hall_block_ok hallDefs per_hall ∧
    ∀ i j h blk blk', i < j →
      hallDefs !! i = Some h → per_hall !! i = Some blk → per_hall !! j = Some blk' →
      blk' ≠ [] → Z.of_nat (length blk) = benches h.
Proof.
  intros Hpos. unfold distributeBalanced.
  destruct (primary_pass_in_order hallDefs (make_subjects rnd k pool) [] Hpos)
    as (r & fills & Hpp & Hlens & Hperm & Hfull & Hord).
  rewrite Hpp. cbn [mbind option_bind]. simpl in *.
  rewrite (second_pass_spec hallDefs r fills Hfull).
  pose proof (Forall2_length _ _ _ Hlens) as Hlen.
  exists (zip_with (λ h t, block (hall_id h) t) hallDefs fills). split_and!.
  - done.
  - clear -Hlens. induction Hlens as [|h t hs ts Hht _ IH]; simpl; constructor; [|done].
    by apply block_ok.
  - intros i j h blk blk' Hij Hh Hblk Hblk' Hne.
    apply lookup_zip_with_Some in Hblk as (h1 & t & -> & Hh1 & Ht).
    apply lookup_zip_with_Some in Hblk' as (h2 & t' & -> & Hh2 & Ht').
    rewrite Hh in Hh1. injection Hh1 as <-.
    rewrite length_block.
    eapply (filled_in_order_lookup hallDefs fills i j); eauto.
    intros ->. apply Hne. by destruct h2.
Qed.

Lemma halls_filled_in_order_witness :
  ∃ per_hall : list (list assignment),
    distributeBalanced example_rnd 0 example_pool example_halls = Some (concat per_hall) ∧
    Forall2 hall_block_ok example_halls per_hall ∧
    ∀ i j h blk blk', i < j →
      example_halls !! i = Some h → per_hall !! i = Some blk →
      per_hall !! j = Some blk' →
      blk' ≠ [] → Z.of_nat (length blk) = benches h.
Proof.
  apply (halls_filled_in_order example_rnd 0 example_pool example_halls).
  repeat constructor; vm_compute; discriminate.
Defined.

(** ** The subject groups *)

Lemma sort_insert_largest_first x l :
  largest_first l → largest_first (sort_insert by_count_desc x l).
Proof.
  unfold largest_first. induction 1 as [|y l Hl IH Hy]; simpl.
  { repeat constructor. }
  unfold by_count_desc at 1.
  destruct (Z.ltb_spec (Z.of_nat (count x) - Z.of_nat (count y)) 0).
  - constructor; [done|].
    rewrite sort_insert_Permutation. constructor; [lia|done].
  - constructor; [by constructor|].
    constructor; [lia|].
    eapply Forall_impl; [done|]. intros z Hz. simpl in *. lia.
Qed.

Lemma bySub_push_nonempty key s bySub :
  Forall (λ e, e.2 ≠ []) bySub → Forall (λ e, e.2 ≠ []) (bySub_push key s bySub).
Proof.
  induction 1 as [|[k v] rest Hv Hrest IH]; simpl.
  - by repeat constructor.
  - destruct (String.eqb k key); constructor; simpl; try done.
    by destruct v.
Qed.

Lemma group_by_subject_nonempty studentsArr :
  Forall (λ e, e.2 ≠ []) (group_by_subject studentsArr).
Proof.
  unfold group_by_subject.
  assert (∀ acc : list (string * list student), Forall (λ e, e.2 ≠ []) acc →
    Forall (λ e, e.2 ≠ [])
      (foldl (λ bySub s, bySub_push (subject_key s) s bySub) acc studentsArr)) as H.
  { induction studentsArr as [|s l IH]; intros acc Hacc; simpl; [done|].
    by apply IH, bySub_push_nonempty. }
  apply H. constructor.
Qed.

(** X5. The groups [distributeBalanced] works on: one group for each
    subject key of the pool (keys pairwise distinct, a missing subject code
    under ["__NONE__"]), each holding students of its key only, none of
    them empty, [count] the number of students queued; together they hold
    the pool, each student once; and the groups come largest first. *)
Theorem make_subjects_groups rnd k (studentsArr : list student) :
  let subjects := make_subjects rnd k studentsArr in
  NoDup (subject <$> subjects) ∧
  Forall (λ g, Forall (λ s, subject_key s = subject g) (q g) ∧
               count g = length (q g) ∧ 0 < count g) subjects ∧
  drain subjects ≡ₚ studentsArr ∧
  largest_first subjects.
Proof.
  intros subjects.
  destruct (make_subjects_spec rnd k studentsArr) as [[Hnd Hkeys] Hperm].
  split_and!; [done| |done|].
  - apply Forall_forall. intros g Hg. split.
    { by eapply Forall_forall in Hkeys. }
    unfold subjects, make_subjects in Hg.
    rewrite Array_sort_Permutation in Hg.
    apply list_elem_of_fmap in Hg as ([key v] & -> & He). simpl.
    split; [done|].
    pose proof (shuffle_queues_spec rnd k (group_by_subject studentsArr)) as Hq.
    apply list_elem_of_lookup in He as [i Hi].
    destruct (Forall2_lookup_l _ _ _ _ _ Hq Hi) as ([key' v'] & Hi' & _ & Hv).
    simpl in Hv.
    pose proof (group_by_subject_nonempty studentsArr) as Hne.
    eapply Forall_lookup_1 in Hne; [|done]. simpl in Hne.
    rewrite Hv. destruct v'; [done|simpl; lia].
  - unfold subjects, make_subjects.
    generalize (map (λ e : string * list student, Group e.1 e.2 (length e.2))
      (shuffle_queues rnd k (group_by_subject studentsArr)).1).
    intros l. induction l as [|x l IH]; simpl; [constructor|].
    by apply sort_insert_largest_first.
Qed.

(** ** Seat keys *)

Lemma occurs_app c s t : occurs c (s +:+ t) = occurs c s || occurs c t.
Proof.
  induction s as [|a s IH]; [done|].
  change (String a s +:+ t) with (String a (s +:+ t)). simpl.
  by rewrite IH, orb_assoc.
Qed.

Lemma hash_split s1 s2 t1 t2 :
  occurs "#" t1 = false → occurs "#" t2 = false →
  s1 +:+ "#" +:+ t1 = s2 +:+ "#" +:+ t2 → s1 = s2 ∧ t1 = t2.
Proof.
  intros H1 H2. revert s2.
  induction s1 as [|a s1 IH]; intros [|b s2] Heq.
  - change (String "#" t1 = String "#" t2) in Heq. by injection Heq.
  - change (String "#" t1 = String b (s2 +:+ "#" +:+ t2)) in Heq.
    injection Heq as <- ->. rewrite occurs_app in H1.
    apply orb_false_elim in H1 as [_ H1]. done.
  - change (String a (s1 +:+ "#" +:+ t1) = String "#" t2) in Heq.
    injection Heq as -> <-. rewrite occurs_app in H2.
    apply orb_false_elim in H2 as [_ H2]. done.
  - change (String a (s1 +:+ "#" +:+ t1) = String b (s2 +:+ "#" +:+ t2)) in Heq.
    injection Heq as -> Heq. destruct (IH _ Heq) as [-> ->]. done.
Qed.

Lemma occurs_string_of_uint c d :
  occurs c (NilEmpty.string_of_uint d) = true → decimal_char c = true.
Proof.
  induction d; cbn [occurs NilEmpty.string_of_uint]; [done|..];
    (intros [Hc|?]%orb_true_iff; [|by auto]);
    apply Ascii.eqb_eq in Hc; by subst c.
Qed.

Lemma occurs_String_of_Z c n :
  occurs c (String_of_Z n) = true → decimal_char c = true.
Proof.
  unfold String_of_Z, NilZero.string_of_int.
  assert (∀ d, occurs c (NilZero.string_of_uint d) = true → decimal_char c = true)
    as Hu.
  { intros d. unfold NilZero.string_of_uint.
    destruct d; try apply occurs_string_of_uint.
    cbn [occurs]. rewrite orb_false_r. intros Hc. apply Ascii.eqb_eq in Hc.
    by subst c. }
  destruct (Z.to_int n) as [d|d]; [apply Hu|].
  cbn [occurs]. intros [Hc|?]%orb_true_iff; [|by eauto].
  apply Ascii.eqb_eq in Hc. by subst c.
Qed.

Lemma String_of_Z_no c n : decimal_char c = false → occurs c (String_of_Z n) = false.
Proof.
  intros Hc. destruct (occurs c (String_of_Z n)) eqn:Ho; [|done].
  apply occurs_String_of_Z in Ho. congruence.
Qed.

Lemma String_of_Z_inj n m : String_of_Z n = String_of_Z m → n = m.
Proof.
  unfold String_of_Z. intros H.
  apply (f_equal NilZero.int_of_string) in H.
  assert (∀ z, Z.to_int z ≠ Pos Nil ∧ Z.to_int z ≠ Neg Nil) as Hnil.
  { intros [|p|p]; simpl; split; try done;
      intros [= Hp]; by apply DecimalPos.Unsigned.to_uint_nonnil in Hp. }
  rewrite !NilZero.isi in H by apply Hnil.
  injection H. apply DecimalZ.to_int_inj.
Qed.

Lemma seat_key_inj h1 b1 h2 b2 :
  seat_key h1 b1 = seat_key h2 b2 → h1 = h2 ∧ b1 = b2.
Proof.
  unfold seat_key. intros H.
  apply hash_split in H as [-> H]; [|by apply String_of_Z_no..].
  split; [done|]. by apply String_of_Z_inj.
Qed.

Lemma seat_key_undefined h1 h2 b : h1 +:+ "#" +:+ "undefined" ≠ seat_key h2 b.
Proof.
  unfold seat_key. intros H.
  apply hash_split in H as [_ H]; [|done|by apply String_of_Z_no].
  pose proof (String_of_Z_no "u" b eq_refl) as Hu.
  by rewrite <-H in Hu.
Qed.

(** ** The [Map] of [buildOutputsFromAssignments] *)

Lemma seat_map_acc_None (entries : list seat_entry) (m : gmap string student) key :
  key ∉ entry_key <$> entries →
  foldl (λ m a, <[entry_key a := e_student a]> m) m entries !! key = m !! key.
Proof.
  revert m. induction entries as [|a l IH]; intros m Hkey; simpl; [done|].
  rewrite fmap_cons, not_elem_of_cons in Hkey. destruct Hkey as [Hne Hkey].
  rewrite IH by done. by rewrite lookup_insert_ne.
Qed.

Lemma seat_map_acc_Some (entries : list seat_entry) (m : gmap string student) key s :
  foldl (λ m a, <[entry_key a := e_student a]> m) m entries !! key = Some s →
  m !! key = Some s ∨ ∃ a, a ∈ entries ∧ entry_key a = key ∧ e_student a = s.
Proof.
  revert m. induction entries as [|a l IH]; intros m Hs; simpl in *; [by left|].
  destruct (IH _ Hs) as [Hm|(a' & Ha' & Hk)].
  - destruct (decide (entry_key a = key)) as [<-|Hne].
    + rewrite lookup_insert_eq in Hm. injection Hm as <-.
      right. exists a. split; [apply elem_of_cons; by left|done].
    + rewrite lookup_insert_ne in Hm by done. by left.
  - right. exists a'. split; [apply elem_of_cons; by right|done].
Qed.

Lemma seat_map_acc_NoDup (entries : list seat_entry) (m : gmap string student) a :
  NoDup (entry_key <$> entries) → a ∈ entries →
  foldl (λ m a, <[entry_key a := e_student a]> m) m entries !! entry_key a
  = Some (e_student a).
Proof.
  revert m. induction entries as [|x l IH]; intros m Hnd Ha; simpl.
  { by apply elem_of_nil in Ha. }
  rewrite fmap_cons, NoDup_cons in Hnd. destruct Hnd as [Hx Hnd].
  apply elem_of_cons in Ha as [->|Ha]; [|by apply IH].
  rewrite seat_map_acc_None by done. by rewrite lookup_insert_eq.
Qed.

Lemma elem_of_buildOutputs entries hallDefs r :
  r ∈ buildOutputsFromAssignments entries hallDefs ↔
  ∃ h b, h ∈ hallDefs ∧ (1 ≤ b ≤ benches h)%Z ∧
         r = output_row (seat_map entries) h b.
Proof.
  unfold buildOutputsFromAssignments. rewrite list_elem_of_In, in_flat_map.
  split.
  - intros (h & Hh & Hr). apply list_elem_of_In in Hh, Hr.
    apply list_elem_of_fmap in Hr as (b & -> & Hb).
    apply elem_of_seqZ in Hb. exists h, b. split_and!; [done|lia..|done].
  - intros (h & b & Hh & Hb & ->). exists h. rewrite <-!list_elem_of_In.
    split; [done|]. apply list_elem_of_fmap. exists b. split; [done|].
    apply elem_of_seqZ. lia.
Qed.

(** X6. [buildOutputsFromAssignments] returns one row for each bench of each
    hall, hall after hall and bench [1] to [benches] in each, whatever the
    assignments are; the row and column of each row are those of
    [benchToRowCol]. *)
Theorem buildOutputs_every_bench (entries : list seat_entry) (hallDefs : list hall) :
  (λ r, (o_hall_id r, o_bench_number r))
    <$> buildOutputsFromAssignments entries hallDefs
  = all_positions hallDefs ∧
  Forall (λ r, ∃ h, h ∈ hallDefs ∧ o_hall_id r = hall_id h ∧
           (o_row r, o_col r) = benchToRowCol (o_bench_number r) (rows h) (cols h))
    (buildOutputsFromAssignments entries hallDefs).
Proof.
  split.
  - unfold buildOutputsFromAssignments, all_positions.
    induction hallDefs as [|h l IH]; simpl; [done|].
    rewrite fmap_app, IH. f_equal.
    rewrite <-list_fmap_compose. done.
  - apply Forall_forall. intros r Hr.
    apply elem_of_buildOutputs in Hr as (h & b & Hh & _ & ->).
    exists h. simpl. split_and!; [done..|]. by destruct (benchToRowCol _ _ _).
Qed.

Lemma output_row_shows (map : gmap string student) h b s :
  map !! seat_key (hall_id h) b = Some s → shows (output_row map h b) s.
Proof. unfold shows, output_row. simpl. by intros ->. Qed.

Lemma output_row_blank (map : gmap string student) h b :
  map !! seat_key (hall_id h) b = None → blank (output_row map h b).
Proof. unfold blank, output_row. simpl. by intros ->. Qed.

Lemma output_row_not_blank (map : gmap string student) h b :
  ¬ blank (output_row map h b) →
  ∃ s, map !! seat_key (hall_id h) b = Some s ∧ shows (output_row map h b) s.
Proof.
  intros Hnb. destruct (map !! seat_key (hall_id h) b) as [s|] eqn:Hs.
  - exists s. split; [done|]. by apply output_row_shows.
  - destruct Hnb. by apply output_row_blank.
Qed.

Lemma buildOutputs_entry entries hallDefs a h b :
  NoDup (entry_key <$> entries) →
  a ∈ entries → h ∈ hallDefs → e_hall_id a = hall_id h →
  e_bench_index_in_hall a = Some b → (1 ≤ b ≤ benches h)%Z →
  ∃ r, r ∈ buildOutputsFromAssignments entries hallDefs ∧
       o_hall_id r = hall_id h ∧ o_bench_number r = b ∧ shows r (e_student a).
Proof.
  intros Hnd Ha Hh Hid Hb Hrange.
  exists (output_row (seat_map entries) h b). split_and!; [|done..|].
  - apply elem_of_buildOutputs. by exists h, b.
  - apply output_row_shows. unfold seat_map.
    rewrite <-(seat_map_acc_NoDup entries ∅ a Hnd Ha). f_equal.
    unfold entry_key. by rewrite Hb, Hid.
Qed.

Lemma buildOutputs_not_blank entries hallDefs r :
  r ∈ buildOutputsFromAssignments entries hallDefs → ¬ blank r →
  ∃ a, a ∈ entries ∧ entry_key a = seat_key (o_hall_id r) (o_bench_number r) ∧
       shows r (e_student a).
Proof.
  intros Hr Hnb. apply elem_of_buildOutputs in Hr as (h & b & Hh & Hb & ->).
  apply output_row_not_blank in Hnb as (s & Hs & Hshow).
  apply seat_map_acc_Some in Hs as [Hs|(a & Ha & Hk & <-)].
  { by rewrite lookup_empty in Hs. }
  by exists a.
Qed.

(** X7. [buildOutputsFromAssignments] on assignments that carry
    [bench_index_in_hall] and name pairwise distinct seats: the row of a
    bench shows the student assigned to it, and a row that is not blank
    shows the student of an assignment to that very seat. *)
Theorem buildOutputs_shows_assigned (entries : list seat_entry) (hallDefs : list hall) :
  NoDup (entry_key <$> entries) →
  (∀ a h b, a ∈ entries → h ∈ hallDefs → e_hall_id a = hall_id h →
     e_bench_index_in_hall a = Some b → (1 ≤ b ≤ benches h)%Z →
     ∃ r, r ∈ buildOutputsFromAssignments entries hallDefs ∧
          o_hall_id r = hall_id h ∧ o_bench_number r = b ∧ shows r (e_student a)) ∧
  (∀ r, r ∈ buildOutputsFromAssignments entries hallDefs → ¬ blank r →
     ∃ a, a ∈ entries ∧
          entry_key a = seat_key (o_hall_id r) (o_bench_number r) ∧
          shows r (e_student a)).
Proof.
  intros Hnd. split.
  - intros a h b. by apply buildOutputs_entry.
  - intros r. apply buildOutputs_not_blank.
Qed.

Lemma buildOutputs_shows_assigned_witness :
  let entries := [SeatEntry "A" (Some 2%Z) (Student "R1" "Asha" "CS")] in
  NoDup (entry_key <$> entries) ∧
  ∃ r, r ∈ buildOutputsFromAssignments entries example_halls ∧
       o_hall_id r = "A" ∧ o_bench_number r = 2%Z ∧
       shows r (Student "R1" "Asha" "CS").
Proof.
  intros entries.
  assert (NoDup (entry_key <$> entries)) as Hnd.
  { apply NoDup_singleton. }
  split; [exact Hnd|].
  apply (proj1 (buildOutputs_shows_assigned entries example_halls Hnd)
           (SeatEntry "A" (Some 2%Z) (Student "R1" "Asha" "CS"))
           (Hall "A" 3 (Some 2%Z) (Some 2%Z)) 2%Z).
  - apply list_elem_of_singleton. reflexivity.
  - apply elem_of_cons. left. reflexivity.
  - reflexivity.
  - reflexivity.
  - simpl. lia.
Defined.

Lemma entry_key_assignment a :
  entry_key (entry_of_assignment a) = seat_key (a_hall_id a) (bench_index_in_hall a).
Proof. done. Qed.

Lemma NoDup_entry_keys (assignments : list assignment) :
  NoDup (position <$> assignments) →
  NoDup (entry_key <$> (entry_of_assignment <$> assignments)).
Proof.
  intros Hnd. rewrite <-list_fmap_compose.
  assert (entry_key ∘ entry_of_assignment = (λ p, seat_key p.1 p.2) ∘ position) as ->
    by done.
  rewrite list_fmap_compose. apply NoDup_fmap_2; [|done].
  intros [h1 b1] [h2 b2] H. simpl in H. apply seat_key_inj in H as [-> ->]. done.
Qed.

(** X8. [buildOutputsFromAssignments] applied to what [distributeBalanced]
    returns for halls of pairwise distinct identifiers: every student the
    distribution seats is shown in the row of its hall and bench, and every
    row that is not blank shows a student seated on that bench. *)
Theorem distribution_displayed rnd k (pool : list student) (hallDefs : list hall)
    (assignments : list assignment) :
  NoDup (hall_id <$> hallDefs) →
  distributeBalanced rnd k pool hallDefs = Some assignments →
  let out := buildOutputsFromAssignments (entry_of_assignment <$> assignments)
               hallDefs in
  (∀ a, a ∈ assignments →
     ∃ r, r ∈ out ∧ o_hall_id r = a_hall_id a ∧
          o_bench_number r = bench_index_in_hall a ∧ shows r (a_student a)) ∧
  (∀ r, r ∈ out → ¬ blank r →
     ∃ a, a ∈ assignments ∧ position a = (o_hall_id r, o_bench_number r) ∧
          shows r (a_student a)).
Proof.
  intros Hids Hdist out.
  assert (Forall (λ h, 0 ≤ benches h)%Z hallDefs) as Hpos.
  { unfold distributeBalanced in Hdist.
    destruct (primary_pass hallDefs (make_subjects rnd k pool) []) as [res|] eqn:Hpp;
      [|done].
    by eapply primary_pass_Some. }
  destruct (distributeBalanced_spec rnd k pool hallDefs Hpos)
    as (fills & dropped & Heq & Hlens & _).
  rewrite Hdist in Heq. injection Heq as ->.
  pose proof (Forall2_length _ _ _ Hlens) as Hlen.
  pose proof (position_blocks_NoDup hallDefs fills Hlen Hids) as Hnd.
  pose proof (blocks_in_hall hallDefs fills Hlens) as Hin.
  split.
  - intros a Ha. eapply Forall_forall in Hin as (h & Hh & Hid & Hb); [|done].
    destruct (buildOutputs_entry (entry_of_assignment <$> blocks hallDefs fills)
                hallDefs (entry_of_assignment a) h (bench_index_in_hall a))
      as (r & Hr & Hrh & Hrb & Hshow); try done.
    + by apply NoDup_entry_keys.
    + apply list_elem_of_fmap. by exists a.
    + exists r. split_and!; try done. by rewrite Hrh.
  - intros r Hr Hnb.
    destruct (buildOutputs_not_blank _ _ r Hr Hnb) as (e & He & Hk & Hshow).
    apply list_elem_of_fmap in He as (a & -> & Ha).
    exists a. split_and!; [done| |done].
    rewrite entry_key_assignment in Hk. apply seat_key_inj in Hk as [? ?].
    unfold position. by f_equal.
Qed.

Lemma distribution_displayed_witness :
  ∃ assignments,
    distributeBalanced example_rnd 0 example_pool example_halls = Some assignments ∧
    ∀ a, a ∈ assignments →
      ∃ r, r ∈ buildOutputsFromAssignments (entry_of_assignment <$> assignments)
                 example_halls ∧
           o_hall_id r = a_hall_id a ∧
           o_bench_number r = bench_index_in_hall a ∧ shows r (a_student a).
Proof.
  assert (NoDup (hall_id <$> example_halls)) as Hnd.
  { apply NoDup_cons. split; [|apply NoDup_singleton].
    intros H. apply list_elem_of_singleton in H. discriminate. }
  eexists. split; [reflexivity|].
  exact (proj1 (distribution_displayed example_rnd 0 example_pool example_halls _
                  Hnd eq_refl)).
Defined.

Lemma placements_blank (ps : list placement) (hallDefs : list hall) :
  Forall blank (buildOutputsFromAssignments (entry_of_placement <$> ps) hallDefs).
Proof.
  apply Forall_forall. intros r Hr.
  apply elem_of_buildOutputs in Hr as (h & b & _ & _ & ->).
  apply output_row_blank. unfold seat_map. rewrite seat_map_acc_None; [done|].
  intros Hin. apply list_elem_of_fmap in Hin as (e & He & Hin).
  apply list_elem_of_fmap in Hin as (p & -> & _).
  symmetry in He. by apply seat_key_undefined in He.
Qed.

(** X9. The rows the handler of [/api/allocate] writes name no student:
    the handler's assignments carry [bench_number] and no
    [bench_index_in_hall], so [buildOutputsFromAssignments] files every
    student under the key of its hall followed by ["#undefined"], which is
    the key of no bench; every row of [finalRows], in the branch with
    [days] and in the one without, has an empty register number, student
    name and subject code. *)
Theorem allocation_rows_blank rnd k allocator (students : list student)
    (subjects : option (list string)) (hallDefs : list hall) (rows : list out_row) :
  allocate_rows rnd k allocator students hallDefs = Some rows ∨
  allocate_day_rows rnd k allocator students subjects hallDefs = Some rows →
  Forall blank rows.
Proof.
  unfold allocate_rows, allocate_day_rows. intros [H|H].
  - destruct (allocate_single rnd k allocator students hallDefs) as [ps|]; [|done].
    injection H as <-. apply placements_blank.
  - destruct (allocate_day rnd k allocator students subjects hallDefs) as [ps|];
      [|done].
    injection H as <-. apply placements_blank.
Qed.

Lemma allocation_rows_blank_witness :
  ∃ rows, allocate_rows example_rnd 0 None example_pool example_halls = Some rows ∧
          length rows = 7 ∧ Forall blank rows.
Proof.
  eexists. split; [reflexivity|]. split; [reflexivity|].
  apply (allocation_rows_blank example_rnd 0 None example_pool None example_halls).
  left. reflexivity.
Defined.

(** ** The grid position of a bench *)

(** X10. [benchToRowCol] numbers the benches of a hall row by row: for a
    hall with rows and a positive column count, bench [b ≥ 1] lies in
    column [1..cols] of a row [≥ 1] with [(row - 1) * cols + col = b] (so
    distinct benches lie at distinct places), and inside the grid of
    [rows] rows when [b ≤ rows * cols]. *)
Theorem benchToRowCol_grid (b r c : Z) :
  (r ≠ 0)%Z → (0 < c)%Z → (1 ≤ b)%Z →
  ∃ row col,
    benchToRowCol b (Some r) (Some c) = (Some row, Some col) ∧
    (1 ≤ col ≤ c)%Z ∧ (1 ≤ row)%Z ∧ ((row - 1) * c + col = b)%Z ∧
    (b ≤ r * c → row ≤ r)%Z.
Proof.
  intros Hr Hc Hb. unfold benchToRowCol.
  assert (or_null (Some r) = Some r) as -> by (by destruct r).
  assert (or_null (Some c) = Some c) as -> by (by destruct c).
  eexists _, _. split; [done|].
  pose proof (ceil_div_is_ceil b c Hc) as Hceil. unfold is_ceil in Hceil.
  rewrite Z.rem_mod_nonneg by lia.
  pose proof (Z.div_mod (b - 1) c) as Hdm.
  pose proof (Z.mod_pos_bound (b - 1) c Hc) as Hbound.
  assert (ceil_div b c = (b - 1) / c + 1)%Z as ->; [nia|].
  split_and!; [lia|lia|nia|nia|nia].
Qed.

Lemma benchToRowCol_grid_witness :
  ∃ row col,
    benchToRowCol 7 (Some 3%Z) (Some 4%Z) = (Some row, Some col) ∧
    (1 ≤ col ≤ 4)%Z ∧ (1 ≤ row)%Z ∧ ((row - 1) * 4 + col = 7)%Z ∧
    (7 ≤ 3 * 4 → row ≤ 3)%Z.
Proof. apply (benchToRowCol_grid 7 3 4); lia. Defined.

(** ** The halls made from [numHalls] and [benchesPerHall] *)

(** X11. The halls the handler makes when no hall file is named.  With
    [n] the number [parseInt] reads from [numHalls || 0] ([0] when it reads
    none) and [b] the one it reads from [benchesPerHall || 30]: no hall is
    made when [n < 1], as when [numHalls] is absent, empty or [0]; for
    [n ≥ 1] there are exactly [n] halls, [Hall_1 .. Hall_n] in this order,
    with pairwise distinct identifiers, each of [b] benches in [10] columns
    and [ceil (b / 10)] rows, so that the grid holds the benches; [b] is
    [30] when [benchesPerHall] is absent, empty or [0]; and when [n ≥ 1]
    and [parseInt] reads no number from [benchesPerHall], the bench count
    of the halls is [NaN], which is [None]. *)
Theorem generate_halls_spec (numHalls benchesPerHall : option cell) :
  let n := default 0%Z (parseInt_cell (Some (or_default numHalls (CNum 0)))) in
  let pb := parseInt_cell (Some (or_default benchesPerHall (CNum 30))) in
  (truthy numHalls = false → n = 0%Z) ∧
  (truthy benchesPerHall = false → pb = Some 30%Z) ∧
  ((n < 1)%Z → generate_halls numHalls benchesPerHall = Some []) ∧
  ((1 ≤ n)%Z → pb = None → generate_halls numHalls benchesPerHall = None) ∧
  (∀ b, (1 ≤ n)%Z → pb = Some b →
     ∃ halls,
       generate_halls numHalls benchesPerHall = Some halls ∧
       length halls = Z.to_nat n ∧
       hall_id <$> halls = (λ i, "Hall_" +:+ String_of_Z i) <$> seqZ 1 n ∧
       NoDup (hall_id <$> halls) ∧
       Forall (λ h, benches h = b ∧ cols h = Some 10%Z ∧
                    ∃ r, rows h = Some r ∧ is_ceil b 10 r ∧ (b ≤ r * 10)%Z) halls).
Proof.
  intros n pb. unfold generate_halls. cbv zeta. fold pb.
  assert (parseInt_cell (Some (or_default numHalls (CNum 0))) = None ∧ n = 0%Z ∨
          parseInt_cell (Some (or_default numHalls (CNum 0))) = Some n) as Hn.
  { unfold n. destruct (parseInt_cell (Some (or_default numHalls (CNum 0))));
      [by right|by left]. }
  split_and!.
  - intros Ht. unfold n, or_default. by rewrite Ht.
  - intros Ht. unfold pb, or_default. by rewrite Ht.
  - intros Hlt. destruct Hn as [[-> _]| ->]; [done|].
    by destruct (Z.ltb_spec n 1) as [_|?]; [|lia].
  - intros Hge Hpb. destruct Hn as [[_ ?]| ->]; [lia|].
    destruct (Z.ltb_spec n 1) as [?|_]; [lia|]. by rewrite Hpb.
  - intros b Hge Hpb. destruct Hn as [[_ ?]| ->]; [lia|].
    destruct (Z.ltb_spec n 1) as [?|_]; [lia|]. rewrite Hpb.
    cbn [mbind option_bind]. eexists. split; [done|]. split_and!.
    + by rewrite length_fmap, length_seqZ.
    + by rewrite <-list_fmap_compose.
    + rewrite <-list_fmap_compose.
      apply NoDup_fmap_2; [|apply NoDup_seqZ].
      intros i j H. simpl in H. apply (inj (String.app "Hall_")) in H.
      by apply String_of_Z_inj.
    + apply Forall_fmap, Forall_forall. intros i _. simpl.
      split_and!; [done..|]. exists (ceil_div b 10). split; [done|].
      pose proof (ceil_div_is_ceil b 10 ltac:(lia)) as Hc. split; [done|].
      unfold is_ceil in Hc. lia.
Qed.

Lemma generate_halls_spec_witness :
  ∃ halls,
    generate_halls (Some (CStr "3")) None = Some halls ∧
    length halls = 3 ∧
    hall_id <$> halls = ["Hall_1"; "Hall_2"; "Hall_3"] ∧
    NoDup (hall_id <$> halls) ∧
    Forall (λ h, benches h = 30%Z ∧ cols h = Some 10%Z ∧
                 ∃ r, rows h = Some r ∧ is_ceil 30 10 r ∧ (30 ≤ r * 10)%Z) halls.
Proof.
  destruct (generate_halls_spec (Some (CStr "3")) None) as (_ & _ & _ & _ & H).
  apply (H 30%Z); [vm_compute; discriminate|reflexivity].
Defined.

(** ** The blueprint stub *)

(** X12. The grid [/api/blueprint/analyze] answers has between [5] and [34]
    rows and between [5] and [14] columns, whatever the size of the file:
    the bounds [3], [50] and [20] of the code are never reached. *)
Theorem blueprint_analyze_bounds (size : Z) :
  (5 ≤ (blueprint_analyze size).1 ≤ 34)%Z ∧
  (5 ≤ (blueprint_analyze size).2 ≤ 14)%Z.
Proof.
  unfold blueprint_analyze. simpl.
  set (area := Z.max 1 (Z.rem size 1000)).
  assert (1 ≤ area)%Z as Harea by (unfold area; lia).
  rewrite !Z.rem_mod_nonneg by lia.
  pose proof (Z.mod_pos_bound area 30 ltac:(lia)).
  pose proof (Z.mod_pos_bound area 10 ltac:(lia)).
  lia.
Qed.

(** ** Strings: reversal, trimming and the case mapping *)

Lemma string_app_nil_r s : s +:+ "" = s.
Proof.
  induction s as [|a s IH]; [done|].
  change (String a s +:+ "") with (String a (s +:+ "")). by rewrite IH.
Qed.

Lemma rev_app_rev_app s t u :
  String.rev_app (String.rev_app s t) u = String.rev_app t (s +:+ u).
Proof.
  revert t. induction s as [|a s IH]; intros t; [done|].
  simpl. by rewrite IH.
Qed.

Lemma string_rev_involutive s : String.rev (String.rev s) = s.
Proof.
  unfold String.rev. rewrite rev_app_rev_app. simpl. apply string_app_nil_r.
Qed.

Lemma all_chars_rev_app P s t :
  all_chars P (String.rev_app s t) = all_chars P s && all_chars P t.
Proof.
  revert t. induction s as [|a s IH]; intros t; [done|].
  simpl. rewrite IH. simpl. by destruct (P a), (all_chars P s).
Qed.

Lemma all_chars_rev P s : all_chars P (String.rev s) = all_chars P s.
Proof. unfold String.rev. rewrite all_chars_rev_app. simpl. apply andb_true_r. Qed.

Lemma all_chars_trimStart P s :
  all_chars P s = true → all_chars P (JS.trimStart s) = true.
Proof.
  induction s as [|a s IH]; [done|]. simpl.
  intros [Ha Hs]%andb_true_iff. destruct (JS.is_space a); [by auto|].
  simpl. by rewrite Ha, Hs.
Qed.

Lemma all_chars_trim P s : all_chars P s = true → all_chars P (JS.trim s) = true.
Proof.
  intros H. unfold JS.trim, JS.trimEnd.
  rewrite all_chars_rev. apply all_chars_trimStart.
  rewrite all_chars_rev. by apply all_chars_trimStart.
Qed.

Lemma trimStart_no_space s :
  all_chars (λ c, negb (JS.is_space c)) s = true → JS.trimStart s = s.
Proof.
  destruct s as [|a s]; [done|]. simpl.
  intros [Ha _]%andb_true_iff. by destruct (JS.is_space a).
Qed.

Lemma trim_no_space s :
  all_chars (λ c, negb (JS.is_space c)) s = true → JS.trim s = s.
Proof.
  intros H. unfold JS.trim, JS.trimEnd.
  rewrite (trimStart_no_space s H).
  rewrite trimStart_no_space by (by rewrite all_chars_rev).
  apply string_rev_involutive.
Qed.

Lemma remove_spaces_no_space s :
  all_chars (λ c, negb (JS.is_space c)) (JS.remove_spaces s) = true.
Proof.
  induction s as [|a s IH]; [done|]. simpl.
  destruct (JS.is_space a) eqn:Ha; [done|]. simpl. by rewrite Ha.
Qed.

Lemma remove_spaces_id s :
  all_chars (λ c, negb (JS.is_space c)) s = true → JS.remove_spaces s = s.
Proof.
  induction s as [|a s IH]; [done|]. simpl.
  intros [Ha Hs]%andb_true_iff. destruct (JS.is_space a); [done|].
  by rewrite IH.
Qed.

Lemma upper_char_normal c :
  JS.is_space (JS.upper_char c) = JS.is_space c ∧
  is_lower (JS.upper_char c) = false ∧
  JS.upper_char (JS.upper_char c) = JS.upper_char c.
Proof.
  destruct c as [[] [] [] [] [] [] [] []]; vm_compute; done.
Qed.

Lemma toUpperCase_no_space s :
  all_chars (λ c, negb (JS.is_space c)) s = true →
  all_chars normal_char (JS.toUpperCase s) = true.
Proof.
  induction s as [|a s IH]; [done|]. cbn [all_chars JS.toUpperCase].
  intros [Ha Hs]%andb_true_iff. rewrite IH by done.
  destruct (upper_char_normal a) as (H1 & H2 & _).
  unfold normal_char at 1. by rewrite H1, H2, Ha.
Qed.

Lemma toUpperCase_idemp s : JS.toUpperCase (JS.toUpperCase s) = JS.toUpperCase s.
Proof.
  induction s as [|a s IH]; [done|]. cbn [JS.toUpperCase].
  rewrite IH. by destruct (upper_char_normal a) as (_ & _ & ->).
Qed.

Lemma all_chars_impl (P Q : ascii → bool) s :
  (∀ c, P c = true → Q c = true) → all_chars P s = true → all_chars Q s = true.
Proof.
  intros HPQ. induction s as [|a s IH]; [done|]. simpl.
  intros [Ha Hs]%andb_true_iff. by rewrite (HPQ a Ha), IH.
Qed.

Lemma normalizeRegister_normal reg :
  all_chars normal_char (normalizeRegister reg) = true.
Proof.
  unfold normalizeRegister. destruct (truthy (Some reg)); [|done].
  apply toUpperCase_no_space, remove_spaces_no_space.
Qed.

Lemma toUpperCase_normal s :
  all_chars normal_char s = true → JS.toUpperCase s = s.
Proof.
  induction s as [|a s IH]; [done|]. cbn [all_chars JS.toUpperCase].
  intros [Ha Hs]%andb_true_iff. rewrite IH by done. f_equal.
  unfold normal_char in Ha. apply andb_true_iff in Ha as [_ Ha].
  unfold is_lower in Ha. unfold JS.upper_char.
  by destruct ((97 <=? nat_of_ascii a) && (nat_of_ascii a <=? 122)).
Qed.

Lemma normalizeRegister_fixed s :
  all_chars normal_char s = true → normalizeRegister (CStr s) = s.
Proof.
  intros Hs. unfold normalizeRegister. simpl.
  destruct (String.eqb_spec s "") as [->|_]; [done|]. simpl.
  assert (all_chars (λ c, negb (JS.is_space c)) s = true) as Hns.
  { eapply all_chars_impl; [|done]. intros c Hc.
    unfold normal_char in Hc. by apply andb_true_iff in Hc as [? _]. }
  rewrite trim_no_space, remove_spaces_id by done.
  by apply toUpperCase_normal.
Qed.

(** ** [normalizeRegister] *)

(** X13. [normalizeRegister] yields a normal form: the result holds no
    white space and no lower-case letter of the ASCII range, and
    normalising it again changes nothing; an identifier of ASCII characters
    that holds neither is left as it is. *)
Theorem normalizeRegister_idempotent (reg : cell) :
  all_chars normal_char (normalizeRegister reg) = true ∧
  normalizeRegister (CStr (normalizeRegister reg)) = normalizeRegister reg ∧
  ∀ s, all_chars ascii_char s = true → all_chars normal_char s = true →
       normalizeRegister (CStr s) = s.
Proof.
  split_and!.
  - apply normalizeRegister_normal.
  - apply normalizeRegister_fixed, normalizeRegister_normal.
  - intros s _. apply normalizeRegister_fixed.
Qed.

Lemma normalizeRegister_idempotent_witness :
  normalizeRegister (CStr (normalizeRegister (CStr " ab 12 "))) = "AB12" ∧
  normalizeRegister (CStr "R7") = "R7".
Proof.
  destruct (normalizeRegister_idempotent (CStr " ab 12 ")) as (_ & H & Hfix).
  split; [rewrite H; reflexivity|apply Hfix; reflexivity].
Defined.

(** ** The handler of [/api/update-students] *)

(** X14. [/api/update-students] saves every record it is given, none
    dropped, merged or given a synthetic identifier: the saved roster is a
    rearrangement of the records with their identifiers normalised, in
    ascending order of the identifiers, which hold no white space and no
    lower-case letter. *)
Theorem update_students_spec (students : list student) :
  update_students students ≡ₚ
    (λ s, Student (normalizeRegister (CStr (register_number s)))
                  (student_name s) (subject_code s)) <$> students ∧
  length (update_students students) = length students ∧
  StronglySorted (λ a b, String.le (register_number a) (register_number b))
    (update_students students) ∧
  Forall (λ s, all_chars normal_char (register_number s) = true)
    (update_students students).
Proof.
  unfold update_students. split_and!.
  - apply Array_sort_Permutation.
  - by rewrite Array_sort_Permutation, length_fmap.
  - by apply (Array_sort_by_key register_number).
  - rewrite Array_sort_Permutation. apply Forall_fmap, Forall_forall.
    intros s _. simpl. apply normalizeRegister_normal.
Qed.

(** ** The size of a reconciled roster *)

Lemma length_assign_synthetic unique c :
  length (assign_synthetic unique c) = length unique.
Proof.
  revert c. induction unique as [|s rest IH]; intros c; simpl; [done|].
  destruct (String.eqb (register_number s) ""); simpl; by rewrite IH.
Qed.

Lemma length_dedup parsed (seen : gset string) :
  length (dedup parsed seen)
  = missing parsed
    + size (list_to_set (filter (λ r, r ≠ "") (ids parsed)) ∖ seen : gset string).
Proof.
  revert seen. induction parsed as [|s rest IH]; intros seen.
  { change (0 = 0 + size ((∅ : gset string) ∖ seen)).
    by rewrite difference_disjoint_L, size_empty by set_solver. }
  cbn [dedup]. rewrite missing_cons. unfold ids in *. rewrite fmap_cons, filter_cons.
  destruct (String.eqb_spec (register_number s) "") as [He|Hne]; cbn [negb andb].
  - rewrite decide_False by (intros H; by apply H). cbn [length]. by rewrite IH.
  - rewrite decide_True by done. rewrite list_to_set_cons.
    destruct (bool_decide_reflect (register_number s ∈ seen)) as [Hin|Hnin].
    + rewrite IH. do 2 f_equal. set_solver.
    + cbn [length]. rewrite IH.
      generalize (list_to_set (filter (λ r, r ≠ "") (register_number <$> rest))
                  : gset string).
      intros others.
      assert (({[register_number s]} ∪ others) ∖ seen
              = {[register_number s]} ∪ others ∖ ({[register_number s]} ∪ seen))
        as ->.
      { apply set_eq. intros x. set_unfold.
        destruct (decide (x = register_number s)); naive_solver. }
      rewrite (size_union {[register_number s]}
                 (others ∖ ({[register_number s]} ∪ seen))) by set_solver.
      rewrite size_singleton. lia.
Qed.

(** X15. The size of the roster read from one file: one record for each
    distinct identifier that is not empty, and one for each record without
    identifier. *)
Theorem reconcile_length (parsed : list student) :
  length (reconcile parsed)
  = size (list_to_set (filter (λ r, r ≠ "") (ids parsed)) : gset string)
    + missing parsed.
Proof.
  unfold reconcile.
  rewrite Array_sort_Permutation, length_assign_synthetic, length_dedup.
  rewrite difference_empty_L. lia.
Qed.

(** ** Reading a reconciled roster again *)

Lemma dedup_distinct l (seen : gset string) :
  Forall (λ s, register_number s ≠ "") l → NoDup (ids l) →
  (∀ x, x ∈ ids l → x ∉ seen) → dedup l seen = l.
Proof.
  revert seen. induction l as [|s rest IH]; intros seen Hne Hnd Hseen; [done|].
  apply Forall_cons in Hne as [Hs Hne]. unfold ids in *.
  rewrite fmap_cons in Hnd, Hseen. apply NoDup_cons in Hnd as [Hnin Hnd].
  cbn [dedup]. destruct (String.eqb_spec (register_number s) ""); [done|].
  rewrite bool_decide_eq_false_2 by (apply Hseen, elem_of_cons; by left).
  cbn [negb andb]. f_equal. apply IH; [done..|].
  intros x Hx. pose proof (Hseen x ltac:(apply elem_of_cons; by right)).
  set_solver.
Qed.

Lemma assign_synthetic_given l c :
  Forall (λ s, register_number s ≠ "") l → assign_synthetic l c = l.
Proof.
  induction 1 as [|s rest Hs _ IH]; simpl; [done|].
  destruct (String.eqb_spec (register_number s) ""); [done|]. by rewrite IH.
Qed.

Lemma le_not_ltb s1 s2 : String.le s1 s2 → String.ltb s2 s1 = false.
Proof.
  unfold String.le, String.leb, String.ltb.
  rewrite (String.compare_antisym s1 s2).
  by destruct (String.compare s2 s1).
Qed.

Lemma Array_sort_sorted l :
  StronglySorted (λ a b, String.le (register_number a) (register_number b)) l →
  NoDup (ids l) → Array_sort by_register l = l.
Proof.
  induction 1 as [|x l Hl IH Hx]; intros Hnd; [done|].
  unfold ids in *. rewrite fmap_cons in Hnd. apply NoDup_cons in Hnd as [Hnin Hnd].
  simpl. rewrite IH by done. destruct l as [|y l']; [done|]. simpl.
  apply Forall_cons in Hx as [Hxy _].
  unfold by_register. by rewrite le_not_ltb.
Qed.

(** X16. Reconciling a reconciled roster changes nothing, when its
    identifiers are pairwise distinct: no record is dropped, none gets
    another identifier, and the order stays. *)
Theorem reconcile_idempotent (parsed : list student) :
  NoDup (ids (reconcile parsed)) →
  reconcile (reconcile parsed) = reconcile parsed.
Proof.
  intros Hnd. pose proof (reconcile_nonempty parsed) as Hne.
  assert (StronglySorted (λ a b, String.le (register_number a) (register_number b))
            (reconcile parsed)) as Hsorted.
  { by apply (Array_sort_by_key register_number). }
  unfold reconcile at 1.
  rewrite dedup_distinct by (done || set_solver).
  rewrite assign_synthetic_given by done.
  by apply Array_sort_sorted.
Qed.

Lemma reconcile_idempotent_witness :
  NoDup (ids (reconcile example_roster)) ∧
  reconcile (reconcile example_roster) = reconcile example_roster.
Proof.
  assert (NoDup (ids (reconcile example_roster))) as Hnd.
  { apply (bool_decide_unpack _). vm_compute. reflexivity. }
  split; [exact Hnd|]. exact (reconcile_idempotent example_roster Hnd).
Defined.

(** ** The pool of a day *)

Lemma allocate_pool_students rnd k allocator (pool : list student) hallDefs ps :
  allocate_pool rnd k allocator pool hallDefs = Some ps →
  p_student <$> ps ⊆+ pool.
Proof.
  unfold allocate_pool. intros H.
  destruct (odd_mode allocator).
  - destruct (distributeBalanced rnd k pool (odd_def <$> hallDefs)) as [a|] eqn:Ha;
      [|done].
    injection H as <-.
    destruct (distributeBalanced_students _ _ _ _ _ Ha) as (dropped & Hperm & _).
    rewrite Hperm. change map with (@fmap list _) at 1.
    rewrite <-list_fmap_compose. by apply submseteq_inserts_r.
  - destruct (distributeBalanced rnd k pool hallDefs) as [a|] eqn:Ha; [|done].
    injection H as <-.
    destruct (distributeBalanced_students _ _ _ _ _ Ha) as (dropped & Hperm & _).
    rewrite Hperm. change map with (@fmap list _) at 1.
    rewrite <-list_fmap_compose. by apply submseteq_inserts_r.
Qed.

(** X17. The students a day of the schedule seats, under either allocator:
    they are records of the roster, none seated more often than it occurs in
    the roster; and when the day lists subjects, every student seated has a
    subject code that is, letter case apart, one of the list. *)
Theorem allocate_day_pool rnd k allocator (students : list student)
    (subjects : option (list string)) (hallDefs : list hall) (ps : list placement) :
  allocate_day rnd k allocator students subjects hallDefs = Some ps →
  p_student <$> ps ⊆+ students ∧
  ∀ c l, subjects = Some (c :: l) →
    Forall (λ p, ∃ x, x ∈ c :: l ∧
              JS.toUpperCase (subject_code (p_student p)) = JS.toUpperCase x) ps.
Proof.
  unfold allocate_day. intros H.
  set (pool := match subjects with
               | Some (c :: l) =>
                   let set : gset string := list_to_set (JS.toUpperCase <$> c :: l) in
                   filter (λ s, JS.toUpperCase (subject_code s) ∈ set) students
               | _ => students
               end) in *.
  pose proof (shuffleArray_Permutation rnd k pool) as Hsh.
  destruct (shuffleArray rnd k pool) as [pool' k'].
  apply allocate_pool_students in H. simpl in Hsh. rewrite Hsh in H.
  split.
  - etrans; [done|]. unfold pool.
    destruct subjects as [[|c l]|]; try done.
    apply sublist_submseteq, sublist_filter.
  - intros c l ->. apply Forall_forall. intros p Hp.
    assert (p_student p ∈ pool) as Hin.
    { eapply elem_of_submseteq; [|done]. apply list_elem_of_fmap. by exists p. }
    unfold pool in Hin. apply list_elem_of_filter in Hin as [Hin _].
    apply elem_of_list_to_set, list_elem_of_fmap in Hin as (x & Hx & Hxin).
    by exists x.
Qed.

Lemma allocate_day_pool_witness :
  ∃ ps,
    allocate_day example_rnd 0 None example_mixed_pool (Some ["cs"]) example_halls
      = Some ps ∧
    p_student <$> ps ⊆+ example_mixed_pool ∧
    Forall (λ p, ∃ x, x ∈ ["cs"] ∧
              JS.toUpperCase (subject_code (p_student p)) = JS.toUpperCase x) ps.
Proof.
  destruct (allocate_day_pool example_rnd 0 None example_mixed_pool (Some ["cs"])
              example_halls _ eq_refl) as [Hsub Hall].
  eexists. split; [reflexivity|]. split; [exact Hsub|].
  exact (Hall "cs" [] eq_refl).
Defined.

(** ** Cells without parenthesis *)

Lemma occurs_all_chars c s :
  occurs c s = negb (all_chars (λ a, negb (Ascii.eqb a c)) s).
Proof.
  induction s as [|a s IH]; [done|]. cbn [occurs all_chars].
  rewrite IH. by destruct (Ascii.eqb a c), (all_chars _ s).
Qed.

Lemma occurs_trim c s : occurs c s = false → occurs c (JS.trim s) = false.
Proof.
  rewrite !occurs_all_chars, !negb_false_iff. apply all_chars_trim.
Qed.

Lemma list_bind_nil {A B} (f : A → list B) (l : list A) :
  (∀ x, x ∈ l → f x = []) → l ≫= f = [].
Proof.
  induction l as [|x l IH]; intros Hf; [done|]. csimpl.
  rewrite (Hf x) by (apply elem_of_cons; by left).
  rewrite IH; [done|]. intros y Hy. apply Hf, elem_of_cons. by right.
Qed.

Lemma lazy_plus_rest P c s m :
  m ∈ lazy_plus P s → occurs c s = false → occurs c m.2 = false.
Proof.
  revert m. induction s as [|a s IH]; intros m Hm Hs; simpl in Hm.
  { by apply elem_of_nil in Hm. }
  cbn [occurs] in Hs. apply orb_false_elim in Hs as [_ Hs].
  destruct (P a); [|by apply elem_of_nil in Hm].
  apply elem_of_cons in Hm as [->|Hm]; [done|].
  apply (list_elem_of_fmap (λ m, (String a m.1, m.2))) in Hm as (m' & -> & Hm').
  exact (IH m' Hm' Hs).
Qed.

Lemma greedy_star_rest P c s m :
  m ∈ greedy_star P s → occurs c s = false → occurs c m.2 = false.
Proof.
  revert m. induction s as [|a s IH]; intros m Hm Hs; simpl in Hm.
  { by apply list_elem_of_singleton in Hm as ->. }
  pose proof Hs as Hs'. cbn [occurs] in Hs'. apply orb_false_elim in Hs' as [_ Hs'].
  destruct (P a).
  - apply elem_of_app in Hm as [Hm|Hm].
    + apply (list_elem_of_fmap (λ m, (String a m.1, m.2))) in Hm as (m' & -> & Hm').
      exact (IH m' Hm' Hs').
    + by apply list_elem_of_singleton in Hm as ->.
  - by apply list_elem_of_singleton in Hm as ->.
Qed.

Lemma literal_absent c s : occurs c s = false → literal c s = [].
Proof.
  destruct s as [|a s]; [done|]. cbn [occurs literal].
  intros [Ha _]%orb_false_elim. rewrite Ascii.eqb_sym in Ha. by rewrite Ha.
Qed.

Lemma match_PAREN_REGEX_absent s :
  occurs "(" s = false → match_PAREN_REGEX s = None.
Proof.
  intros Hs. unfold match_PAREN_REGEX.
  rewrite list_bind_nil; [done|]. intros g1 Hg1.
  apply list_bind_nil. intros w1 Hw1.
  rewrite literal_absent; [done|].
  eapply greedy_star_rest; [done|]. by eapply lazy_plus_rest.
Qed.

Lemma lastIndexOf_paren_absent s :
  occurs "(" s = false → JS.lastIndexOf_paren s = None.
Proof.
  induction s as [|a s IH]; [done|]. cbn [occurs JS.lastIndexOf_paren].
  intros [Ha Hs]%orb_false_elim. by rewrite IH, Ha.
Qed.

Lemma extract_plain c :
  occurs "(" (String_of c) = false →
  extractFromCombinedCell (Some c) = Some (JS.trim (String_of c), "").
Proof.
  intros Hc%occurs_trim. unfold extractFromCombinedCell. cbv zeta.
  by rewrite match_PAREN_REGEX_absent, lastIndexOf_paren_absent.
Qed.

(** X18. [extractFromCombinedCell] never answers [null] for a cell that is
    present; and a cell whose text holds no opening parenthesis is all
    [left]: its trimmed text, with an empty [right]. *)
Theorem extractFromCombinedCell_plain (c : cell) :
  extractFromCombinedCell (Some c) ≠ None ∧
  (occurs "(" (String_of c) = false →
   extractFromCombinedCell (Some c) = Some (JS.trim (String_of c), "")).
Proof.
  split; [|apply extract_plain].
  unfold extractFromCombinedCell. cbv zeta.
  destruct (match_PAREN_REGEX _); [done|].
  destruct (JS.lastIndexOf_paren _); [|done].
  by destruct (JS.endsWith_paren _).
Qed.

Lemma extractFromCombinedCell_plain_witness :
  extractFromCombinedCell (Some (CStr " CS101 ")) = Some ("CS101", "").
Proof.
  apply (proj2 (extractFromCombinedCell_plain (CStr " CS101 "))). reflexivity.
Defined.

(** X19. A plain value under a subject column is taken for the name of the
    subject, not for its code: when the cell under the course column is
    blank (or there is no such column) and the cell under the subject
    column holds a text without opening parenthesis, [parseStudentRowRobust]
    yields an empty [subject_code], and the text as [subject_name]. *)
Theorem plain_subject_column (r : row) (k : string) (c : cell) :
  filled r (courseCol (detect_columns r.*1)) = false →
  subjCol (detect_columns r.*1) = Some k →
  filled r (Some k) = true →
  get r k = Some c →
  occurs "(" (String_of c) = false →
  row_subject_code (parseStudentRowRobust r) = "" ∧
  row_subject_name (parseStudentRowRobust r) = text r k.
Proof.
  intros Hcourse Hsubj Hfilled Hget Hc.
  assert (text r k = JS.trim (String_of c)) as Htext.
  { unfold filled in Hfilled. apply andb_true_iff in Hfilled as [_ Hne].
    unfold text in *. rewrite Hget in *. unfold or_empty in *.
    by destruct (truthy (Some c)). }
  unfold parseStudentRowRobust. cbv zeta.
  rewrite Hcourse, Hsubj, Hfilled. change (default "" (Some k)) with k. rewrite Hget.
  rewrite (extract_plain c Hc). cbn [fst snd].
  by destruct (if filled r (studentCol (detect_columns r.*1)) then _ else _).
Qed.

Lemma plain_subject_column_witness :
  subjCol (detect_columns example_plain_row.*1) = Some "Subject" ∧
  row_subject_code (parseStudentRowRobust example_plain_row) = "" ∧
  row_subject_name (parseStudentRowRobust example_plain_row) = "CS101".
Proof.
  split; [reflexivity|].
  apply (plain_subject_column example_plain_row "Subject" (CStr "CS101"));
    reflexivity.
Defined.

(** ** Cells of the form [text (text)] *)

Lemma string_app_assoc s t u : (s +:+ t) +:+ u = s +:+ t +:+ u.
Proof.
  induction s as [|a s IH]; [done|].
  change (String a ((s +:+ t) +:+ u) = String a (s +:+ t +:+ u)). by rewrite IH.
Qed.

Lemma rev_app_app s t : String.rev_app s t = String.rev s +:+ t.
Proof.
  unfold String.rev. revert t. induction s as [|a s IH]; intros t; [done|].
  simpl. rewrite (IH (String a "")), IH, string_app_assoc. done.
Qed.

Lemma string_rev_cons a s : String.rev (String a s) = String.rev s +:+ String a "".
Proof. unfold String.rev at 1. simpl. apply rev_app_app. Qed.

Lemma starts_solid_app s t : s ≠ "" → starts_solid (s +:+ t) = starts_solid s.
Proof. by destruct s. Qed.

Lemma string_rev_nonempty s : s ≠ "" → String.rev s ≠ "".
Proof.
  destruct s as [|a s]; [done|]. intros _. rewrite string_rev_cons.
  by destruct (String.rev s).
Qed.

Lemma starts_solid_rev s : starts_solid (String.rev s) = ends_solid s.
Proof.
  induction s as [|a s IH]; [done|]. rewrite string_rev_cons.
  destruct s as [|b s]; [done|].
  rewrite starts_solid_app by (by apply string_rev_nonempty). by rewrite IH.
Qed.

Lemma ends_solid_app s t : t ≠ "" → ends_solid (s +:+ t) = ends_solid t.
Proof.
  intros Ht. induction s as [|a s IH]; [done|].
  change (String a s +:+ t) with (String a (s +:+ t)). cbn [ends_solid].
  rewrite IH. destruct (s +:+ t) eqn:Hst; [|done].
  destruct s; [|done]. by destruct t.
Qed.

Lemma trim_solid s : starts_solid s = true → ends_solid s = true → JS.trim s = s.
Proof.
  intros Hs He. unfold JS.trim, JS.trimEnd.
  assert (∀ x, starts_solid x = true → JS.trimStart x = x) as Hts.
  { intros [|a x]; [done|]. simpl. by destruct (JS.is_space a). }
  rewrite (Hts s Hs), Hts by (by rewrite starts_solid_rev).
  apply string_rev_involutive.
Qed.

Lemma greedy_star_longest P x c t :
  all_chars P x = true → P c = false →
  ∃ tl, greedy_star P (x +:+ String c t) = (x, String c t) :: tl.
Proof.
  intros Hx Hc. induction x as [|a x IH].
  { exists []. simpl. change ("" +:+ String c t) with (String c t). simpl.
    by rewrite Hc. }
  cbn [all_chars] in Hx. apply andb_true_iff in Hx as [Ha Hx].
  destruct (IH Hx) as [tl Htl].
  change (String a x +:+ String c t) with (String a (x +:+ String c t)).
  cbn [greedy_star]. rewrite Ha, Htl. csimpl. by eexists.
Qed.

Lemma greedy_star_solid s :
  starts_solid s = true → greedy_star JS.is_space s = [("", s)].
Proof. destruct s as [|a s]; [done|]. simpl. by destruct (JS.is_space a). Qed.

Lemma greedy_star_no_paren q T w :
  q ≠ "" → occurs "(" q = false → ends_solid q = true →
  w ∈ greedy_star JS.is_space (q +:+ T) → literal "(" w.2 = [].
Proof.
  revert w. induction q as [|a q IH]; intros w Hne Hq He Hw; [done|].
  change (String a q +:+ T) with (String a (q +:+ T)) in Hw.
  cbn [occurs] in Hq. apply orb_false_elim in Hq as [Ha Hq].
  assert (literal "(" (String a (q +:+ T)) = []) as Hlit.
  { cbn [literal]. rewrite Ascii.eqb_sym in Ha. by rewrite Ha. }
  cbn [greedy_star] in Hw. destruct (JS.is_space a) eqn:Hsp.
  - apply elem_of_app in Hw as [Hw|Hw].
    + apply (list_elem_of_fmap (λ m, (String a m.1, m.2))) in Hw as (m' & -> & Hm').
      destruct q as [|b q]; [by simpl in He; rewrite Hsp in He|].
      by apply (IH m').
    + by apply list_elem_of_singleton in Hw as ->.
  - by apply list_elem_of_singleton in Hw as ->.
Qed.

Lemma lazy_plus_first {B} P (K : string * string → list B) q T pre :
  q ≠ "" → all_chars P q = true →
  (∀ p1 p2, q = p1 +:+ p2 → p1 ≠ "" → p2 ≠ "" → K (pre +:+ p1, p2 +:+ T) = []) →
  ∃ tl, lazy_plus P (q +:+ T) ≫= (λ m, K (pre +:+ m.1, m.2))
        = K (pre +:+ q, T) ++ tl.
Proof.
  revert pre. induction q as [|a q IH]; intros pre Hne Hq Hfail; [done|].
  cbn [all_chars] in Hq. apply andb_true_iff in Hq as [Ha Hq].
  change (String a q +:+ T) with (String a (q +:+ T)).
  cbn [lazy_plus]. rewrite Ha. rewrite bind_cons. cbn [fst snd].
  change (map ?f ?l) with (f <$> l).
  assert (∀ l : list (string * string),
    ((λ m, (String a m.1, m.2)) <$> l) ≫= (λ m, K (pre +:+ m.1, m.2))
    = l ≫= (λ m, K ((pre +:+ String a "") +:+ m.1, m.2))) as Hmap.
  { intros l. induction l as [|m l IHl]; [done|]. csimpl.
    by rewrite IHl, string_app_assoc. }
  rewrite Hmap. destruct q as [|b q].
  { by eexists. }
  rewrite (Hfail (String a "") (String b q)) by done. 
  destruct (IH (pre +:+ String a "")) as [tl Htl]; [done|done| |].
  { intros p1 p2 Hp Hp1 Hp2. rewrite string_app_assoc.
    apply (Hfail (String a p1) p2); [by rewrite Hp|done..]. }
  exists tl. rewrite Htl. by rewrite string_app_assoc.
Qed.

Lemma match_PAREN_REGEX_combined L R :
  starts_solid L = true → ends_solid L = true →
  all_chars JS.is_dot L = true → occurs "(" L = false →
  starts_solid R = true → occurs ")" R = false →
  match_PAREN_REGEX (combined L R) = Some (L, R).
Proof.
  intros HsL HeL HdL HpL HsR HpR. unfold match_PAREN_REGEX, combined.
  set (T := " (" +:+ R +:+ ")").
  set (K := λ g1 : string * string,
    w1 ← greedy_star JS.is_space g1.2;
    r1 ← literal "(" w1.2;
    w2 ← greedy_star JS.is_space r1;
    g2 ← greedy_plus (λ c, negb (Ascii.eqb c ")")) w2.2;
    w3 ← greedy_star JS.is_space g2.2;
    r2 ← literal ")" w3.2;
    w4 ← greedy_star JS.is_space r2;
    if String.eqb w4.2 "" then [(g1.1, g2.1)] else []).
  change (head (lazy_plus JS.is_dot (L +:+ T) ≫= (λ m, K ("" +:+ m.1, m.2)))
          = Some (L, R)).
  assert (L ≠ "") as HL by (by destruct L).
  destruct (lazy_plus_first JS.is_dot K L T "" HL HdL) as [tl ->].
  { intros p1 p2 -> Hp1 Hp2. unfold K. cbn [fst snd].
    apply list_bind_nil. intros w Hw.
    rewrite (greedy_star_no_paren p2 T w); [done|done| | |done].
    - rewrite occurs_app in HpL. by apply orb_false_elim in HpL as [_ ?].
    - by rewrite ends_solid_app in HeL. }
  change ("" +:+ L) with L.
  assert (∃ tl', K (L, T) = (L, R) :: tl') as [tl' ->]; [|done].
  unfold K. cbn [fst snd].
  destruct R as [|b R']; [done|].
  assert (negb (Ascii.eqb b ")") = true) as Hb.
  { cbn [occurs] in HpR. apply orb_false_elim in HpR as [-> _]. done. }
  assert (all_chars (λ c, negb (Ascii.eqb c ")")) R' = true) as HR'.
  { cbn [occurs] in HpR. apply orb_false_elim in HpR as [_ HpR].
    rewrite occurs_all_chars in HpR. by apply negb_false_iff in HpR. }
  destruct (greedy_star_longest (λ c, negb (Ascii.eqb c ")")) R' ")" "" HR' eq_refl)
    as [tl2 Hg2].
  unfold T.
  change (" (" +:+ String b R' +:+ ")")
    with (String " " (String "(" (String b (R' +:+ ")")))).
  change (greedy_star JS.is_space (String " " (String "(" (String b (R' +:+ ")")))))
    with ([(" ", String "(" (String b (R' +:+ ")")));
           ("", String " " (String "(" (String b (R' +:+ ")"))))]).
  rewrite bind_cons. cbn [fst snd].
  change (literal "(" (String "(" (String b (R' +:+ ")"))))
    with [String b (R' +:+ ")")].
  rewrite bind_cons. 
  rewrite (greedy_star_solid (String b (R' +:+ ")"))) by done.
  rewrite bind_cons. cbn [fst snd].
  cbn [greedy_plus]. rewrite Hb, Hg2. csimpl.
  by eexists.
Qed.

Lemma extract_combined L R :
  starts_solid L = true → ends_solid L = true →
  all_chars JS.is_dot L = true → occurs "(" L = false →
  starts_solid R = true → ends_solid R = true → occurs ")" R = false →
  JS.trim (combined L R) = combined L R ∧
  extractFromCombinedCell (Some (CStr (combined L R))) = Some (L, R).
Proof.
  intros HsL HeL HdL HpL HsR HeR HpR.
  assert (JS.trim (combined L R) = combined L R) as Htrim.
  { apply trim_solid; unfold combined.
    - rewrite starts_solid_app; [done|by destruct L].
    - rewrite ends_solid_app by done.
      change (" (" +:+ R +:+ ")") with (String " " (String "(" "") +:+ R +:+ ")").
      rewrite ends_solid_app by (by destruct R).
      by rewrite ends_solid_app. }
  split; [done|]. unfold extractFromCombinedCell. cbv zeta.
  change (String_of (CStr (combined L R))) with (combined L R).
  rewrite Htrim, match_PAREN_REGEX_combined by done. cbn [fst snd].
  by rewrite !trim_solid.
Qed.

(** X20. A cell of the form [left (right)] is split at the parenthesis:
    when [left] and [right] are not empty and neither begins nor ends with
    white space, [left] holds no line break and no opening parenthesis and
    [right] no closing one, [extractFromCombinedCell] answers exactly
    [left] and [right]. *)
Theorem extractFromCombinedCell_combined (L R : string) :
  starts_solid L = true → ends_solid L = true →
  all_chars JS.is_dot L = true → occurs "(" L = false →
  starts_solid R = true → ends_solid R = true → occurs ")" R = false →
  extractFromCombinedCell (Some (CStr (combined L R))) = Some (L, R).
Proof. intros. by apply extract_combined. Qed.

Lemma extractFromCombinedCell_combined_witness :
  extractFromCombinedCell (Some (CStr "Asha Devi (r 1)")) = Some ("Asha Devi", "r 1").
Proof. apply (extractFromCombinedCell_combined "Asha Devi" "r 1"); reflexivity. Defined.

(** X21. A student cell of the form [name (register)] gives the name and
    the normalised register number: when the student column holds such a
    cell (with [name] and [register] as in X20), [parseStudentRowRobust]
    yields [name] as [student_name] and [register], without white space and
    in upper case, as [register_number]. *)
Theorem combined_student_cell (r : row) (k L R : string) :
  studentCol (detect_columns r.*1) = Some k → k ≠ "" →
  get r k = Some (CStr (combined L R)) →
  starts_solid L = true → ends_solid L = true →
  all_chars JS.is_dot L = true → occurs "(" L = false →
  starts_solid R = true → ends_solid R = true → occurs ")" R = false →
  row_student_name (parseStudentRowRobust r) = L ∧
  row_register_number (parseStudentRowRobust r) = normalizeRegister (CStr R).
Proof.
  intros Hcol Hk Hget HsL HeL HdL HpL HsR HeR HpR.
  destruct (extract_combined L R) as [Htrim Hex]; [done..|].
  assert (filled r (Some k) = true) as Hfilled.
  { unfold filled, text. rewrite Hget.
    destruct (String.eqb_spec k ""); [done|].
    assert (or_empty (Some (CStr (combined L R))) = CStr (combined L R)) as ->.
    { unfold or_empty, combined. by destruct L. }
    change (String_of (CStr (combined L R))) with (combined L R).
    rewrite Htrim. unfold combined. by destruct L. }
  unfold parseStudentRowRobust. cbv zeta.
  rewrite Hcol, Hfilled. change (default "" (Some k)) with k.
  rewrite Hget, Hex. cbn [fst snd].
  by destruct (if filled r (courseCol (detect_columns r.*1)) then _ else _).
Qed.

Lemma combined_student_cell_witness :
  row_student_name (parseStudentRowRobust [("Student", CStr "Asha Devi (r 1)")])
    = "Asha Devi" ∧
  row_register_number (parseStudentRowRobust [("Student", CStr "Asha Devi (r 1)")])
    = "R1".
Proof.
  apply (combined_student_cell [("Student", CStr "Asha Devi (r 1)")] "Student"
           "Asha Devi" "r 1"); (reflexivity || discriminate).
Defined.

(** ** The hall list that is uploaded *)

Lemma or_null_not_zero x : or_null x ≠ Some 0%Z.
Proof. by destruct x as [[]|]. Qed.

Lemma number_field_not_zero r key : number_field r key ≠ Some 0%Z.
Proof.
  unfold number_field. destruct key as [k|]; [|done].
  destruct (String.eqb k ""); [done|].
  destruct (get r k) as [[[]|]|]; try done; apply or_null_not_zero.
Qed.

Lemma default_benches_not_zero v : default_benches v ≠ 0%Z.
Proof.
  unfold default_benches.
  pose proof (or_null_not_zero
    (parseInt_cell (Some (or_default v (CStr "30"))))) as H.
  destruct (or_null _) as [[]|]; done.
Qed.

(** X22. The hall list [/api/upload/halls] saves has one hall for each
    row of the sheet, and no hall of it has [0] benches, [0] rows or [0]
    columns: a bench count that is blank, zero or no number is replaced by
    the default, which is never [0], and such a row or column count by
    [null].  So the resolution of [/api/allocate] keeps the bench count of
    every uploaded hall. *)
Theorem upload_halls_counts (defaultBenches : option cell) (raw : list row) :
  length (upload_halls defaultBenches raw) = length raw ∧
  Forall (λ h, benches h ≠ 0%Z ∧ rows h ≠ Some 0%Z ∧ cols h ≠ Some 0%Z ∧
               ∀ h', resolve_hall h = Some h' → benches h' = benches h)
    (upload_halls defaultBenches raw).
Proof.
  unfold upload_halls, readHallListFromFile. split.
  - by rewrite Array_sort_Permutation, length_imap.
  - rewrite Array_sort_Permutation. apply Forall_forall. intros h Hh.
    apply elem_of_lookup_imap in Hh as (i & r & -> & _).
    assert (benches (parse_hall (default_benches defaultBenches) i r) ≠ 0%Z) as Hb.
    { unfold parse_hall. cbn [benches].
      pose proof (number_field_not_zero r
        (benchesKey (foldl detect_hall_key (HallKeys None None None None) r.*1))).
      pose proof (default_benches_not_zero defaultBenches).
      destruct (number_field r _); simpl; congruence. }
    split_and!; [done|apply number_field_not_zero..|].
    intros h' Hres. unfold resolve_hall in Hres. cbv zeta in Hres.
    destruct (Z.eqb_spec (benches (parse_hall (default_benches defaultBenches) i r)) 0);
      [done|].
    repeat (case_match; simplify_option_eq); done.
Qed.

Lemma upload_halls_counts_witness :
  length (upload_halls None [[("Hall", CStr "A"); ("Benches", CStr "0")]]) = 1 ∧
  Forall (λ h, benches h ≠ 0%Z ∧ rows h ≠ Some 0%Z ∧ cols h ≠ Some 0%Z ∧
               ∀ h', resolve_hall h = Some h' → benches h' = benches h)
    (upload_halls None [[("Hall", CStr "A"); ("Benches", CStr "0")]]).
Proof. apply (upload_halls_counts None [[("Hall", CStr "A"); ("Benches", CStr "0")]]). Defined.

(** ** The detection of the columns *)

Section first_match.
Context {C : Type}.
Variable step : C → string → C.
Variable proj : C → option string.
Variable test : string → bool.

Hypothesis step_proj :
  ∀ c k, proj (step c k)
         = if unset (proj c) && test (JS.toLowerCase k) then Some k else proj c.
Hypothesis test_empty : test "" = false.

Lemma foldl_first_match keys c :
  proj c ≠ Some "" →
  proj (foldl step c keys)
  = if unset (proj c) then first_header test keys else proj c.
Proof.
  revert c. induction keys as [|k keys IH]; intros c Hc'; simpl.
  { unfold unset. destruct (proj c) as [k|]; [|done].
    by destruct (String.eqb_spec k "") as [->|]. }
  assert (test (JS.toLowerCase k) = true → k ≠ "") as Hk'.
  { intros Hk ->. simpl in Hk. congruence. }
  rewrite IH, step_proj.
  - unfold first_header. cbn [find]. fold (first_header test keys).
    destruct (unset (proj c)) eqn:Hc; cbn [andb]; [|by rewrite Hc].
    destruct (test (JS.toLowerCase k)) eqn:Hk; [|by rewrite Hc].
    cbn [unset]. by destruct (String.eqb_spec k "") as [->|_]; [destruct Hk'|].
  - rewrite step_proj. destruct (unset (proj c) && test (JS.toLowerCase k)) eqn:H;
      [|done].
    apply andb_true_iff in H as [_ Hk]. intros [= ->]. by apply Hk'.
Qed.
End first_match.

(** X23. Each column variable of [parseStudentRowRobust] and of
    [readHallListFromFile] is the first header of the row, in the order of
    its keys, that passes the test of the variable in lower case, and
    [null] when none does: a later header never replaces it. *)
Theorem columns_first_match (keys : list string) :
  detect_columns keys
  = Columns (first_header student_header keys) (first_header name_header keys)
            (first_header register_header keys) (first_header course_header keys)
            (first_header subject_header keys) ∧
  foldl detect_hall_key (HallKeys None None None None) keys
  = HallKeys (first_header hall_header keys) (first_header benches_header keys)
             (first_header rows_header keys) (first_header cols_header keys).
Proof.
  split.
  - unfold detect_columns.
    destruct (foldl detect_column _ keys) as [c1 c2 c3 c4 c5] eqn:Hc.
    pose proof (foldl_first_match detect_column studentCol student_header
                  (λ _ _, eq_refl) eq_refl keys (Columns None None None None None)
                  ltac:(done)) as H1.
    pose proof (foldl_first_match detect_column nameCol name_header
                  (λ _ _, eq_refl) eq_refl keys (Columns None None None None None)
                  ltac:(done)) as H2.
    pose proof (foldl_first_match detect_column regCol register_header
                  (λ _ _, eq_refl) eq_refl keys (Columns None None None None None)
                  ltac:(done)) as H3.
    pose proof (foldl_first_match detect_column courseCol course_header
                  (λ _ _, eq_refl) eq_refl keys (Columns None None None None None)
                  ltac:(done)) as H4.
    pose proof (foldl_first_match detect_column subjCol subject_header
                  (λ _ _, eq_refl) eq_refl keys (Columns None None None None None)
                  ltac:(done)) as H5.
    rewrite Hc in H1, H2, H3, H4, H5. simpl in *. congruence.
  - destruct (foldl detect_hall_key _ keys) as [c1 c2 c3 c4] eqn:Hc.
    pose proof (foldl_first_match detect_hall_key hallKey hall_header
                  (λ _ _, eq_refl) eq_refl keys (HallKeys None None None None)
                  ltac:(done)) as H1.
    pose proof (foldl_first_match detect_hall_key benchesKey benches_header
                  (λ _ _, eq_refl) eq_refl keys (HallKeys None None None None)
                  ltac:(done)) as H2.
    pose proof (foldl_first_match detect_hall_key rowsKey rows_header
                  (λ _ _, eq_refl) eq_refl keys (HallKeys None None None None)
                  ltac:(done)) as H3.
    pose proof (foldl_first_match detect_hall_key colsKey cols_header
                  (λ _ _, eq_refl) eq_refl keys (HallKeys None None None None)
                  ltac:(done)) as H4.
    rewrite Hc in H1, H2, H3, H4. simpl in *. congruence.
Qed.

(** ** Counts typed as text *)

Lemma digits_acc d acc :
  JS.digits (Some (Z.pos acc)) (NilEmpty.string_of_uint d)
  = Some (Z.pos (Pos.of_uint_acc d acc)).
Proof.
  revert acc. induction d; intros acc; [done|..];
    cbn [NilEmpty.string_of_uint JS.digits Pos.of_uint_acc];
    change (Ascii.is_nat _) with (Some 0) || change (Ascii.is_nat _) with (Some 1) ||
    change (Ascii.is_nat _) with (Some 2) || change (Ascii.is_nat _) with (Some 3) ||
    change (Ascii.is_nat _) with (Some 4) || change (Ascii.is_nat _) with (Some 5) ||
    change (Ascii.is_nat _) with (Some 6) || change (Ascii.is_nat _) with (Some 7) ||
    change (Ascii.is_nat _) with (Some 8) || change (Ascii.is_nat _) with (Some 9);
    cbn [default from_option id]; rewrite <-IHd; do 2 f_equal; lia.
Qed.

Lemma digits_zero d :
  JS.digits (Some 0%Z) (NilEmpty.string_of_uint d) = Some (Z.of_N (Pos.of_uint d)).
Proof.
  induction d; [done|..]; cbn [NilEmpty.string_of_uint JS.digits Pos.of_uint];
    [exact IHd|..]; apply (digits_acc d).
Qed.

Lemma digits_none d :
  d ≠ Nil →
  JS.digits None (NilEmpty.string_of_uint d) = Some (Z.of_N (Pos.of_uint d)).
Proof.
  intros Hd. rewrite <-digits_zero. by destruct d.
Qed.

Lemma parseInt_String_of_Z n : JS.parseInt (String_of_Z n) = Some n.
Proof.
  unfold String_of_Z. destruct n as [|p|p]; [done|..]; cbn [Z.to_int].
  - pose proof (DecimalPos.Unsigned.of_to p) as Hp.
    assert (Pos.to_uint p ≠ Nil) as Hnil.
    { intros H. by apply DecimalPos.Unsigned.to_uint_nonnil in H. }
    pose proof (digits_none _ Hnil) as Hd. rewrite Hp in Hd.
    unfold NilZero.string_of_int, NilZero.string_of_uint.
    destruct (Pos.to_uint p); [done|..]; exact Hd.
  - pose proof (DecimalPos.Unsigned.of_to p) as Hp.
    assert (Pos.to_uint p ≠ Nil) as Hnil.
    { intros H. by apply DecimalPos.Unsigned.to_uint_nonnil in H. }
    pose proof (digits_none _ Hnil) as Hd. rewrite Hp in Hd.
    unfold NilZero.string_of_int, NilZero.string_of_uint. unfold JS.parseInt.
    change (JS.trimStart (String "-" ?s)) with (String "-" s).
    destruct (Pos.to_uint p); [done|..]; cbv iota; by rewrite Hd.
Qed.

(** X24. A count typed as text is read as the count: under a column that
    is identified, a text cell that holds the decimal numeral of an integer
    [n] that a number holds exactly (between [-(2^53)] and [2^53], both
    excluded) gives what the number [n] gives, [n] itself or, for [0],
    [null]. *)
Theorem number_field_text (r : row) (k : string) (n : Z) :
  safe_integer n →
  k ≠ "" → get r k = Some (CStr (String_of_Z n)) →
  number_field r (Some k) = or_null (Some n) ∧
  ∀ r', get r' k = Some (CNum n) → number_field r' (Some k) = number_field r (Some k).
Proof.
  intros _ Hk Hget.
  assert (number_field r (Some k) = or_null (Some n)) as Hr.
  { unfold number_field. rewrite Hget.
    destruct (String.eqb_spec k ""); [done|].
    pose proof (parseInt_String_of_Z n) as Hp.
    destruct (String_of_Z n) eqn:Hs; [done|].
    unfold parseInt_cell. by rewrite Hp. }
  split; [done|]. intros r' Hget'. rewrite Hr.
  unfold number_field. rewrite Hget'. by destruct (String.eqb_spec k "").
Qed.

Lemma number_field_text_witness :
  safe_integer 42 ∧
  number_field [("Benches", CStr "42")] (Some "Benches") = Some 42%Z.
Proof.
  assert (safe_integer 42) as Hsafe by (unfold safe_integer; lia).
  split; [exact Hsafe|].
  apply (proj1 (number_field_text [("Benches", CStr "42")] "Benches" 42
                  Hsafe ltac:(discriminate) eq_refl)).
Defined.

(** ** The chart of a hall *)

Ltac case_leb :=
  repeat match goal with
  | |- context [(?a <=? ?b)%Z] => destruct (Z.leb_spec a b)
  end.

Lemma chart_0 cell R C m :
  (m ≤ 0)%Z → (0 ≤ C)%Z → chart cell R C m = new_grid (Some R) (Some C).
Proof.
  intros Hm HC. unfold chart, new_grid. simpl.
  rewrite <-(length_seqZ 0 R). apply const_fmap. intros i x Hx.
  apply lookup_seqZ in Hx as [-> Hi].
  rewrite <-(length_seqZ 0 C). apply const_fmap. intros j y Hy.
  apply lookup_seqZ in Hy as [-> Hj].
  case_leb; [nia|done].
Qed.

Lemma chart_lookup cell R C m i j :
  (0 ≤ i < R)%Z → (0 ≤ j < C)%Z →
  chart cell R C m !! Z.to_nat i
  = Some ((λ j, Some (if (i * C + j + 1 <=? m)%Z then cell (i * C + j + 1)%Z
                      else "Empty")) <$> seqZ 0 C).
Proof.
  intros Hi Hj. unfold chart. rewrite list_lookup_fmap, lookup_seqZ_lt by lia.
  simpl. by rewrite Z2Nat.id by lia.
Qed.

Lemma chart_step cell R C m :
  (0 < C)%Z → (0 ≤ m < R * C)%Z →
  set_cell (chart cell R C m) (Some (m / C)%Z) (Some (m `mod` C)%Z) (cell (m + 1)%Z)
  = Some (chart cell R C (m + 1)).
Proof.
  intros HC Hm.
  pose proof (Z.div_mod m C ltac:(lia)) as Hdm.
  pose proof (Z.mod_pos_bound m C HC) as Hmod.
  assert (0 ≤ m / C < R)%Z as Hdiv.
  { split; [apply Z.div_pos; lia|]. apply Z.div_lt_upper_bound; lia. }
  unfold set_cell. destruct (Z.ltb_spec (m / C) 0) as [?|_]; [lia|].
  rewrite (chart_lookup cell R C m (m / C) (m `mod` C)) by lia.
  cbn [mbind option_bind]. f_equal.
  apply list_eq. intros i.
  destruct (decide (i = Z.to_nat (m / C))) as [->|Hne].
  - rewrite list_lookup_insert_eq
      by (unfold chart; rewrite length_fmap, length_seqZ; lia).
    rewrite (chart_lookup cell R C (m + 1) (m / C) (m `mod` C)) by lia.
    f_equal. unfold set_elem.
    destruct (Z.ltb_spec (m `mod` C) 0) as [?|_]; [lia|]. cbv zeta.
    rewrite length_fmap, length_seqZ.
    destruct (Nat.ltb_spec (Z.to_nat (m `mod` C)) (Z.to_nat C)) as [_|?]; [|lia].
    apply list_eq. intros j.
    destruct (decide (j = Z.to_nat (m `mod` C))) as [->|Hnej].
    + rewrite list_lookup_insert_eq by (rewrite length_fmap, length_seqZ; lia).
      rewrite list_lookup_fmap, lookup_seqZ_lt by lia. simpl.
      rewrite Z2Nat.id by lia.
      case_leb; [|lia].
      do 3 f_equal. lia.
    + rewrite list_lookup_insert_ne by done.
      rewrite !list_lookup_fmap.
      destruct (seqZ 0 C !! j) as [y|] eqn:Hy; [|done]. simpl.
      apply lookup_seqZ in Hy as [-> Hj].
      case_leb; try done; lia.
  - rewrite list_lookup_insert_ne by done.
    unfold chart. rewrite !list_lookup_fmap.
    destruct (seqZ 0 R !! i) as [x|] eqn:Hx; [|done]. simpl.
    apply lookup_seqZ in Hx as [-> Hi]. f_equal.
    apply list_fmap_ext. intros j y Hy.
    apply lookup_seqZ in Hy as [-> Hj].
    assert (0 + Z.of_nat i ≠ m / C)%Z by lia.
    case_leb; try done; nia.
Qed.

Lemma benchToRowCol_rc b R C :
  (R ≠ 0)%Z → (0 < C)%Z → (1 ≤ b)%Z →
  benchToRowCol b (Some R) (Some C)
  = (Some ((b - 1) / C + 1)%Z, Some ((b - 1) `mod` C + 1)%Z).
Proof.
  intros HR HC Hb. unfold benchToRowCol.
  assert (or_null (Some R) = Some R) as -> by (by destruct R).
  assert (or_null (Some C) = Some C) as -> by (by destruct C).
  pose proof (ceil_div_is_ceil b C HC) as Hceil. unfold is_ceil in Hceil.
  rewrite Z.rem_mod_nonneg by lia.
  pose proof (Z.div_mod (b - 1) C) as Hdm.
  pose proof (Z.mod_pos_bound (b - 1) C HC) as Hbound.
  do 3 f_equal. nia.
Qed.

Lemma output_row_index map h b R C :
  rows h = Some R → cols h = Some C → (0 < R)%Z → (0 < C)%Z → (1 ≤ b)%Z →
  viz_rr (output_row map h b) (cols h) = Some ((b - 1) / C)%Z ∧
  viz_cc (output_row map h b) (cols h) = Some ((b - 1) `mod` C)%Z.
Proof.
  intros HR HC HR0 HC0 Hb.
  pose proof (benchToRowCol_rc b R C ltac:(lia) HC0 Hb) as Hrc.
  unfold viz_rr, viz_cc, output_row. cbn [o_row o_col].
  rewrite HR, HC, Hrc. cbn [fst snd].
  pose proof (Z.mod_pos_bound (b - 1) C HC0).
  assert (0 ≤ (b - 1) / C)%Z by (apply Z.div_pos; lia).
  assert (∀ x, (0 < x)%Z → or_null (Some x) = Some x) as Hnn by (by intros []).
  rewrite !Hnn by lia. split; f_equal; lia.
Qed.

Lemma viz_loop_chart map h R C k m :
  rows h = Some R → cols h = Some C → (0 < R)%Z → (0 < C)%Z →
  (0 ≤ m)%Z → (m + Z.of_nat k ≤ R * C)%Z →
  viz_loop (output_row map h <$> seqZ (m + 1) (Z.of_nat k)) (cols h)
    (chart (λ b, viz_cell (output_row map h b)) R C m)
  = Some (chart (λ b, viz_cell (output_row map h b)) R C (m + Z.of_nat k)).
Proof.
  intros HR HC HR0 HC0. revert m. induction k as [|k IH]; intros m Hm Hk.
  { simpl. by rewrite Z.add_0_r. }
  rewrite seqZ_cons by lia. rewrite fmap_cons. cbn [viz_loop].
  destruct (output_row_index map h (m + 1) R C) as [-> ->]; [done..|lia|].
  replace (m + 1 - 1)%Z with m by lia.
  rewrite (chart_step (λ b, viz_cell (output_row map h b)) R C m) by lia.
  cbn [mbind option_bind].
  replace (Z.pred (Z.of_nat (S k))) with (Z.of_nat k) by lia.
  replace (Z.succ (m + 1)) with (m + 1 + 1)%Z by lia.
  rewrite IH by lia. do 2 f_equal. lia.
Qed.

Lemma filter_hall_rows entries hallDefs h :
  NoDup (hall_id <$> hallDefs) → h ∈ hallDefs →
  filter (λ r, o_hall_id r = hall_id h) (buildOutputsFromAssignments entries hallDefs)
  = output_row (seat_map entries) h <$> seqZ 1 (benches h).
Proof.
  unfold buildOutputsFromAssignments. cbv zeta.
  generalize (seat_map entries). intros map Hnd Hh.
  assert (∀ h0 : hall, hall_id h0 = hall_id h →
    filter (λ r, o_hall_id r = hall_id h) (output_row map h0 <$> seqZ 1 (benches h0))
    = output_row map h0 <$> seqZ 1 (benches h0)) as Hsame.
  { intros h0 Hid. generalize (seqZ 1 (benches h0)). intros l.
    induction l as [|b l IH]; [done|]. rewrite fmap_cons, filter_cons.
    rewrite decide_True by done. by rewrite IH. }
  assert (∀ h0 : hall, hall_id h0 ≠ hall_id h →
    filter (λ r, o_hall_id r = hall_id h) (output_row map h0 <$> seqZ 1 (benches h0))
    = []) as Hother.
  { intros h0 Hid. generalize (seqZ 1 (benches h0)). intros l.
    induction l as [|b l IH]; [done|]. rewrite fmap_cons, filter_cons.
    by rewrite decide_False by done. }
  induction hallDefs as [|h0 rest IH]; [by apply elem_of_nil in Hh|].
  rewrite fmap_cons in Hnd. apply NoDup_cons in Hnd as [Hnin Hnd].
  cbn [flat_map]. rewrite filter_app.
  apply elem_of_cons in Hh as [<-|Hh].
  - rewrite Hsame by done.
    assert (filter (λ r, o_hall_id r = hall_id h)
              (flat_map (λ h, output_row map h <$> seqZ 1 (benches h)) rest) = [])
      as ->; [|by rewrite app_nil_r].
    clear IH Hnd. induction rest as [|h1 rest IH]; [done|].
    cbn [flat_map]. rewrite filter_app.
    rewrite fmap_cons, not_elem_of_cons in Hnin. destruct Hnin as [Hne Hnin].
    rewrite Hother by done. by apply IH.
  - rewrite Hother, IH; [done..|].
    intros Heq. apply Hnin. rewrite Heq. apply list_elem_of_fmap. by exists h.
Qed.

Lemma Array_sort_benches map h k m :
  Array_sort by_bench_number (output_row map h <$> seqZ m (Z.of_nat k))
  = output_row map h <$> seqZ m (Z.of_nat k).
Proof.
  revert m. induction k as [|k IH]; intros m; [done|].
  rewrite seqZ_cons by lia. rewrite fmap_cons. cbn [Array_sort].
  replace (Z.pred (Z.of_nat (S k))) with (Z.of_nat k) by lia.
  rewrite IH. destruct k as [|k]; [done|].
  rewrite seqZ_cons by lia. rewrite fmap_cons. cbn [sort_insert].
  unfold by_bench_number at 1. cbn [o_bench_number output_row].
  by destruct (Z.ltb_spec (Z.succ m - m) 0) as [?|_]; [lia|].
Qed.

Lemma viz_sheet_chart entries hallDefs h R C :
  NoDup (hall_id <$> hallDefs) → h ∈ hallDefs →
  rows h = Some R → cols h = Some C → (0 < R)%Z → (0 < C)%Z →
  (benches h ≤ R * C)%Z →
  viz_sheet (buildOutputsFromAssignments entries hallDefs) h
  = Some (chart (λ b, viz_cell (output_row (seat_map entries) h b)) R C (benches h)).
Proof.
  intros Hnd Hh HR HC HR0 HC0 Hfit.
  unfold viz_sheet, rows_for_hall, buildVizAOA.
  rewrite filter_hall_rows by done.
  destruct (Z.le_gt_cases (benches h) 0) as [Hb|Hb].
  - rewrite seqZ_nil by done. simpl. rewrite HR, HC.
    by rewrite chart_0 by lia.
  - pose proof (viz_loop_chart (seat_map entries) h R C (Z.to_nat (benches h)) 0
                  HR HC HR0 HC0 ltac:(lia) ltac:(lia)) as Hloop.
    pose proof (Array_sort_benches (seat_map entries) h (Z.to_nat (benches h)) 1)
      as Hsort.
    change (0 + 1)%Z with 1%Z in Hloop.
    rewrite Z2Nat.id in Hloop, Hsort by lia. rewrite chart_0 in Hloop by lia.
    rewrite Hsort.
    replace (new_grid (rows h) (cols h)) with (new_grid (Some R) (Some C))
      by (by rewrite HR, HC).
    rewrite Hloop. do 2 f_equal.
Qed.

(** X25. The chart of a hall is its grid, filled row by row: for halls
    of pairwise distinct identifiers and a hall of [R > 0] rows and
    [C > 0] columns that hold its benches, [buildVizAOA], on the rows the
    handler selects for the hall, does not throw and returns the grid of
    [R] rows and [C] columns in which column [j] of row [i] (both from
    [0]) shows bench [i * C + j + 1], and ['Empty'] beyond the last
    bench. *)
Theorem chart_of_hall (entries : list seat_entry) (hallDefs : list hall)
    (h : hall) (R C : Z) :
  NoDup (hall_id <$> hallDefs) → h ∈ hallDefs →
  rows h = Some R → cols h = Some C → (0 < R)%Z → (0 < C)%Z →
  (benches h ≤ R * C)%Z →
  viz_sheet (buildOutputsFromAssignments entries hallDefs) h
  = Some (chart (λ b, viz_cell (output_row (seat_map entries) h b)) R C (benches h)).
Proof. apply viz_sheet_chart. Qed.

Lemma chart_of_hall_witness :
  viz_sheet
    (buildOutputsFromAssignments
       [SeatEntry "A" (Some 2%Z) (Student "R1" "Asha" "CS")] example_halls)
    (Hall "A" 3 (Some 2%Z) (Some 2%Z))
  = Some [[Some "Empty"; Some (viz_cell (OutRow "A" 2 (Some 1%Z) (Some 2%Z) "R1" "Asha" "CS"))];
          [Some "Empty"; Some "Empty"]].
Proof.
  rewrite (chart_of_hall [SeatEntry "A" (Some 2%Z) (Student "R1" "Asha" "CS")]
             example_halls (Hall "A" 3 (Some 2%Z) (Some 2%Z)) 2 2).
  - reflexivity.
  - apply NoDup_cons. split; [|apply NoDup_singleton].
    intros H. apply list_elem_of_singleton in H. discriminate.
  - apply elem_of_cons. left. reflexivity.
  - reflexivity.
  - reflexivity.
  - lia.
  - lia.
  - simpl. lia.
Defined.

Lemma viz_cell_blank r : blank r → viz_cell r = "Empty".
Proof. unfold blank, viz_cell, viz_text. by intros (-> & -> & ->). Qed.

(** X26. The charts the handler of [/api/allocate] draws are empty: for
    halls as in X25, every cell of the chart of a hall reads ['Empty'],
    whoever was seated, since the rows the chart is drawn from name no
    student. *)
Theorem handler_chart_empty (ps : list placement) (hallDefs : list hall)
    (h : hall) (R C : Z) :
  NoDup (hall_id <$> hallDefs) → h ∈ hallDefs →
  rows h = Some R → cols h = Some C → (0 < R)%Z → (0 < C)%Z →
  (benches h ≤ R * C)%Z →
  viz_sheet (buildOutputsFromAssignments (entry_of_placement <$> ps) hallDefs) h
  = Some (new_grid (Some R) (Some C)).
Proof.
  intros Hnd Hh HR HC HR0 HC0 Hfit.
  rewrite (viz_sheet_chart _ _ h R C) by done. f_equal.
  rewrite <-(chart_0 (λ _, "Empty") R C 0) by lia.
  unfold chart. apply list_fmap_ext. intros i x Hx.
  apply list_fmap_ext. intros j y Hy.
  apply lookup_seqZ in Hx as [-> Hi]. apply lookup_seqZ in Hy as [-> Hj].
  case_leb; try done; try lia.
  f_equal. apply viz_cell_blank.
  pose proof (placements_blank ps hallDefs) as Hblank.
  eapply Forall_forall in Hblank; [done|].
  apply elem_of_buildOutputs. eexists h, _. split_and!; [done| | |done]; lia.
Qed.

Lemma handler_chart_empty_witness :
  viz_sheet
    (buildOutputsFromAssignments
       (entry_of_placement <$> [Placement "A" 1 (Student "R1" "Asha" "CS")])
       example_halls)
    (Hall "A" 3 (Some 2%Z) (Some 2%Z))
  = Some [[Some "Empty"; Some "Empty"]; [Some "Empty"; Some "Empty"]].
Proof.
  rewrite (handler_chart_empty [Placement "A" 1 (Student "R1" "Asha" "CS")]
             example_halls (Hall "A" 3 (Some 2%Z) (Some 2%Z)) 2 2).
  - reflexivity.
  - apply NoDup_cons. split; [|apply NoDup_singleton].
    intros H. apply list_elem_of_singleton in H. discriminate.
  - apply elem_of_cons. left. reflexivity.
  - reflexivity.
  - reflexivity.
  - lia.
  - lia.
  - simpl. lia.
Defined.

(** ** The identifiers of a roster read from a file *)

Lemma all_chars_app P s t :
  all_chars P (s +:+ t) = all_chars P s && all_chars P t.
Proof.
  induction s as [|a s IH]; [done|].
  change (String a s +:+ t) with (String a (s +:+ t)). cbn [all_chars].
  by rewrite IH, andb_assoc.
Qed.

Lemma synthetic_id_normal n : all_chars normal_char (synthetic_id n) = true.
Proof.
  unfold synthetic_id, JS.padStart0, String_of_nat.
  rewrite !all_chars_app. apply andb_true_iff. split; [done|].
  apply andb_true_iff. split.
  - generalize (4 - String.length (NilZero.string_of_uint (Nat.to_uint n))).
    intros k. induction k as [|k IH]; [done|]. simpl. exact IH.
  - assert (∀ d, all_chars normal_char (NilEmpty.string_of_uint d) = true) as Hd.
    { intros d. induction d; [done|..]; exact IHd. }
    unfold NilZero.string_of_uint. destruct (Nat.to_uint n); try apply Hd. done.
Qed.

Lemma parse_record_normal r :
  all_chars normal_char (register_number (parse_record r)) = true.
Proof.
  unfold parse_record. case_match; [apply normalizeRegister_normal|].
  cbn [register_number]. unfold parseStudentRowRobust. cbv zeta.
  destruct (if filled r (studentCol (detect_columns r.*1)) then _ else _).
  destruct (if filled r (courseCol (detect_columns r.*1)) then _ else _).
  apply normalizeRegister_normal.
Qed.

Lemma reconcile_normal parsed :
  Forall (λ s, all_chars normal_char (register_number s) = true) parsed →
  Forall (λ s, all_chars normal_char (register_number s) = true) (reconcile parsed).
Proof.
  intros Hp. rewrite reconcile_Permutation.
  destruct (dedup_spec parsed ∅) as (Hsub & _).
  assert (Forall (λ s, all_chars normal_char (register_number s) = true)
            (dedup parsed ∅)) as Hd.
  { apply Forall_forall. intros s Hs. eapply Forall_forall in Hp; [done|].
    by eapply elem_of_sublist. }
  pose proof (assign_synthetic_pointwise (dedup parsed ∅) 1) as H2.
  clear Hsub Hp. induction H2 as [|s s' l l' (_ & _ & Hgiven & Hsyn) _ IH];
    [constructor|].
  apply Forall_cons in Hd as [Hs Hd]. constructor; [|by apply IH].
  destruct (String.eqb_spec (register_number s) "") as [He|Hne].
  - destruct (Hsyn He) as [n ->]. apply synthetic_id_normal.
  - by rewrite (Hgiven Hne).
Qed.

Lemma normalise_fixed (l : list student) :
  Forall (λ s, all_chars normal_char (register_number s) = true) l →
  (λ s, Student (normalizeRegister (CStr (register_number s)))
                (student_name s) (subject_code s)) <$> l = l.
Proof.
  induction 1 as [|[reg name code] l Hs _ IH]; [done|].
  rewrite fmap_cons. f_equal; [|done]. simpl in *.
  by rewrite normalizeRegister_fixed.
Qed.

(** X27. The identifiers of a roster read from a file are in normal form:
    they hold no white space and no lower-case letter, the synthetic ones
    included.  So [/api/update-students] saves such a roster as it is, when
    its identifiers are pairwise distinct. *)
Theorem roster_normal_form (raw : list row) :
  Forall (λ s, all_chars normal_char (register_number s) = true)
    (readStudentsFromFile raw) ∧
  (NoDup (ids (readStudentsFromFile raw)) →
   update_students (readStudentsFromFile raw) = readStudentsFromFile raw).
Proof.
  assert (Forall (λ s, all_chars normal_char (register_number s) = true)
            (readStudentsFromFile raw)) as Hnormal.
  { apply reconcile_normal, Forall_fmap, Forall_forall.
    intros r _. apply parse_record_normal. }
  split; [done|]. intros Hnd. unfold update_students.
  rewrite normalise_fixed by done.
  apply Array_sort_sorted; [|done].
  by apply (Array_sort_by_key register_number).
Qed.

Lemma roster_normal_form_witness :
  Forall (λ s, all_chars normal_char (register_number s) = true)
    (readStudentsFromFile example_file) ∧
  update_students (readStudentsFromFile example_file) = readStudentsFromFile example_file.
Proof.
  destruct (roster_normal_form example_file) as [Hnormal Hfix].
  split; [exact Hnormal|]. apply Hfix.
  apply (bool_decide_unpack _). vm_compute. reflexivity.
Defined.

(** ** Halls that are consistent *)

Lemma generate_halls_geometry numHalls benchesPerHall halls :
  generate_halls numHalls benchesPerHall = Some halls →
  ∃ b, Forall (λ h, benches h = b ∧ cols h = Some 10%Z ∧
                    ∃ r, rows h = Some r ∧ is_ceil b 10 r ∧ (b ≤ r * 10)%Z) halls.
Proof.
  unfold generate_halls. cbv zeta. intros Hgen.
  destruct (parseInt_cell (Some (or_default numHalls (CNum 0)))) as [n|];
    [|injection Hgen as <-; by exists 0%Z].
  destruct (n <? 1)%Z; [injection Hgen as <-; by exists 0%Z|].
  destruct (parseInt_cell (Some (or_default benchesPerHall (CNum 30)))) as [b|];
    [|done].
  cbn [mbind option_bind] in Hgen. injection Hgen as <-. exists b.
  apply Forall_fmap, Forall_forall. intros i _. simpl.
  split_and!; [done..|]. exists (ceil_div b 10). split; [done|].
  pose proof (ceil_div_is_ceil b 10 ltac:(lia)) as Hc. split; [done|].
  unfold is_ceil in Hc. lia.
Qed.

Lemma resolve_hall_stable (h : hall) (r c : Z) :
  rows h = Some r → cols h = Some c → (r ≠ 0)%Z → (c ≠ 0)%Z →
  (benches h ≠ 0)%Z → (benches h ≤ r * c)%Z → resolve_hall h = Some h.
Proof.
  destruct h as [id b rs cs]. intros Hr Hc Hr0 Hc0 Hb Hfit. simpl in *. subst.
  unfold resolve_hall. cbn [benches rows cols hall_id].
  destruct (Z.eqb_spec b 0) as [?|_]; [done|].
  assert (or_null (Some r) = Some r) as -> by (by destruct r).
  assert (or_null (Some c) = Some c) as -> by (by destruct c).
  cbn [mbind option_bind]. by destruct (Z.ltb_spec (r * c) b) as [?|_]; [lia|].
Qed.

Lemma resolve_hall_fits (h h' : hall) :
  (0 < benches h)%Z →
  (∀ r, rows h = Some r → 0 ≤ r)%Z →
  (∀ c, cols h = Some c → 0 ≤ c)%Z →
  resolve_hall h = Some h' →
  ∃ r c, rows h' = Some r ∧ cols h' = Some c ∧
         (0 < r)%Z ∧ (0 < c)%Z ∧ (0 < benches h')%Z ∧ (benches h' ≤ r * c)%Z.
Proof.
  destruct h as [hid b ro co]. simpl. intros Hb Hr Hc.
  unfold resolve_hall. simpl.
  destruct (Z.eqb_spec b 0) as [?|_]; [lia|].
  assert (∀ r0, or_null ro = Some r0 → (0 < r0)%Z) as Hr'.
  { intros r0. destruct ro as [[| |]|]; simpl; intros [= <-]; try lia.
    specialize (Hr _ eq_refl). lia. }
  assert (∀ c0, or_null co = Some c0 → (0 < c0)%Z) as Hc'.
  { intros c0. destruct co as [[| |]|]; simpl; intros [= <-]; try lia.
    specialize (Hc _ eq_refl). lia. }
  clear Hr Hc.
  destruct (or_null ro) as [r0|], (or_null co) as [c0|]; cbn [mbind option_bind].
  - specialize (Hr' _ eq_refl). specialize (Hc' _ eq_refl).
    destruct (Z.ltb_spec (r0 * c0) b) as [Hlt|Hge].
    + rewrite Math_ceil_quot_pos by done. cbn [mbind option_bind].
      pose proof (ceil_div_is_ceil b r0 Hr') as Hceil.
      pose proof (is_ceil_pos _ _ _ Hr' Hb Hceil).
      intros [= <-]. eexists _, _. split_and!; [done..|].
      unfold is_ceil in Hceil. simpl. lia.
    + cbn [mbind option_bind]. intros [= <-]. eexists _, _.
      split_and!; [done..|simpl; lia].
  - specialize (Hr' _ eq_refl).
    rewrite Math_ceil_quot_pos by done. cbn [mbind option_bind].
    pose proof (ceil_div_is_ceil b r0 Hr') as Hceil.
    pose proof (is_ceil_pos _ _ _ Hr' Hb Hceil).
    destruct (Z.ltb_spec (r0 * ceil_div b r0) b) as [Hlt|Hge].
    { unfold is_ceil in Hceil. lia. }
    cbn [mbind option_bind]. intros [= <-]. eexists _, _.
    split_and!; [done..|simpl; lia].
  - specialize (Hc' _ eq_refl).
    rewrite Math_ceil_quot_pos by done. cbn [mbind option_bind].
    pose proof (ceil_div_is_ceil b c0 Hc') as Hceil.
    pose proof (is_ceil_pos _ _ _ Hc' Hb Hceil).
    destruct (Z.ltb_spec (ceil_div b c0 * c0) b) as [Hlt|Hge].
    { unfold is_ceil in Hceil. lia. }
    cbn [mbind option_bind]. intros [= <-]. eexists _, _.
    split_and!; [done..|simpl; lia].
  - pose proof (ceil_div_is_ceil b 10 ltac:(lia)) as Hceil.
    pose proof (is_ceil_pos b 10 _ ltac:(lia) Hb Hceil).
    destruct (Z.ltb_spec (ceil_div b 10 * 10) b) as [Hlt|Hge].
    { unfold is_ceil in Hceil. lia. }
    cbn [mbind option_bind]. intros [= <-]. eexists _, _.
    split_and!; [done..|simpl; lia].
Qed.

(** X28. The resolution of [/api/allocate] is idempotent: a hall it has
    resolved (from a hall with a positive bench count and no negative row
    or column count) is left as it is when resolved again. *)
Theorem resolve_hall_idempotent (h h' : hall) :
  (0 < benches h)%Z →
  (∀ r, rows h = Some r → 0 ≤ r)%Z →
  (∀ c, cols h = Some c → 0 ≤ c)%Z →
  resolve_hall h = Some h' →
  resolve_hall h' = Some h'.
Proof.
  intros Hb Hr Hc Hres.
  destruct (resolve_hall_fits h h' Hb Hr Hc Hres) as (r & c & ? & ? & ? & ? & ? & ?).
  apply (resolve_hall_stable h' r c); (done || lia).
Qed.

Lemma resolve_hall_idempotent_witness :
  resolve_hall (Hall "H1" 30 (Some 4%Z) (Some 8%Z))
  = Some (Hall "H1" 30 (Some 4%Z) (Some 8%Z)).
Proof.
  apply (resolve_hall_idempotent (Hall "H1" 30 (Some 4%Z) None)).
  - simpl. lia.
  - intros r [= <-]. lia.
  - intros c [=].
  - reflexivity.
Defined.

(** X29. The halls made from [numHalls] and a positive [benchesPerHall]
    are halls as the resolution leaves them: resolving them would change
    nothing, so both ways to get [hallDefs] give halls of the same kind. *)
Theorem generated_halls_resolved (numHalls benchesPerHall : option cell)
    (halls : list hall) :
  generate_halls numHalls benchesPerHall = Some halls →
  Forall (λ h, 0 < benches h)%Z halls →
  resolve_halls halls = Some halls.
Proof.
  intros Hgen Hpos. unfold resolve_halls. apply mapM_Some.
  destruct (generate_halls_geometry _ _ _ Hgen) as (b & Hall).
  clear Hgen. induction Hall as [|h' l (Hb' & Hc' & r' & Hr' & Hceil & Hle) _ IH];
    [constructor|].
  apply Forall_cons in Hpos as [Hh' Hpos]. constructor; [|by apply IH].
  apply (resolve_hall_stable h' r' 10%Z); try done; try lia.
Qed.

Lemma generated_halls_resolved_witness :
  ∃ halls, generate_halls (Some (CNum 2)) (Some (CStr "25")) = Some halls ∧
           resolve_halls halls = Some halls.
Proof.
  eexists. split; [reflexivity|].
  apply (generated_halls_resolved (Some (CNum 2)) (Some (CStr "25"))).
  - reflexivity.
  - repeat constructor.
Defined.

(** ** Every hall takes evenly from the subjects *)

Lemma shrinks_suffix g g' took :
  subject g' = subject g → q g = took ++ q g' → shrinks g g'.
Proof.
  intros Hs Hq. split; [done|]. unfold taken. rewrite Hq at 2 3.
  rewrite length_app, Nat.add_sub, take_app_length. done.
Qed.

Lemma shrinks_length g g' :
  shrinks g g' → length (q g) = length (taken g g') + length (q g').
Proof. intros [_ Hq]. rewrite Hq at 1. by rewrite length_app. Qed.

Lemma one_taken_shrinks g g' : one_taken g g' → shrinks g g'.
Proof.
  intros (Hs & _ & [Hq|[s Hq]]).
  - apply (shrinks_suffix g g' []); [done|by rewrite Hq].
  - by apply (shrinks_suffix g g' [s]).
Qed.

Lemma shrinks_trans g1 g2 g3 : shrinks g1 g2 → shrinks g2 g3 → shrinks g1 g3.
Proof.
  intros [Hs1 Hq1] [Hs2 Hq2].
  apply (shrinks_suffix g1 g3 (taken g1 g2 ++ taken g2 g3)); [congruence|].
  by rewrite <-(assoc_L (++)), <-Hq2.
Qed.

Lemma taken_trans g1 g2 g3 :
  shrinks g1 g2 → shrinks g2 g3 →
  length (taken g1 g3) = length (taken g1 g2) + length (taken g2 g3).
Proof.
  intros H12 H23.
  pose proof (shrinks_length _ _ H12). pose proof (shrinks_length _ _ H23).
  pose proof (shrinks_length _ _ (shrinks_trans _ _ _ H12 H23)). lia.
Qed.

Lemma take_round_nil n subjects :
  (take_round n subjects).1 = [] → (take_round n subjects).2 = subjects.
Proof.
  revert n. induction subjects as [|sub rest IH]; intros n; simpl; [done|].
  destruct n as [|n']; [done|].
  destruct (q sub) as [|s q'] eqn:Hq.
  - specialize (IH (S n')). destruct (take_round (S n') rest) as [t r]; simpl in *.
    intros Ht. by rewrite IH.
  - by destruct (take_round n' rest) as [t r].
Qed.

Lemma take_round_ordered n subjects i j gi gj ri rj :
  i < j →
  subjects !! i = Some gi → subjects !! j = Some gj →
  (take_round n subjects).2 !! i = Some ri →
  (take_round n subjects).2 !! j = Some rj →
  length (q gj) = S (length (q rj)) →
  length (q gi) = S (length (q ri)) ∨ q gi = [].
Proof.
  revert n i j. induction subjects as [|sub rest IH]; intros n i j Hij; [done|].
  simpl. destruct n as [|n'].
  { simpl. intros _ Hgj _ Hrj. rewrite Hgj in Hrj. injection Hrj as <-. lia. }
  destruct j as [|j]; [lia|].
  destruct (q sub) as [|s q'] eqn:Hq.
  - specialize (IH (S n')). destruct (take_round (S n') rest) as [t r]; simpl in *.
    destruct i as [|i]; simpl.
    + intros [= <-]. by right.
    + apply IH. lia.
  - specialize (IH n'). destruct (take_round n' rest) as [t r]; simpl in *.
    destruct i as [|i]; simpl.
    + intros [= <-] _ [= <-]. left. by rewrite Hq.
    + apply IH. lia.
Qed.

Lemma take_round_uncut n subjects i gi ri :
  length (take_round n subjects).1 < n →
  subjects !! i = Some gi → (take_round n subjects).2 !! i = Some ri →
  length (q gi) = S (length (q ri)) ∨ q gi = [].
Proof.
  revert n i. induction subjects as [|sub rest IH]; intros n i; [done|].
  simpl. destruct n as [|n']; [simpl; lia|].
  destruct (q sub) as [|s q'] eqn:Hq.
  - specialize (IH (S n')). destruct (take_round (S n') rest) as [t r]; simpl in *.
    destruct i as [|i]; simpl.
    + intros _ [= <-]. by right.
    + apply IH.
  - specialize (IH n'). destruct (take_round n' rest) as [t r]; simpl in *.
    destruct i as [|i]; simpl.
    + intros _ [= <-] [= <-]. left. by rewrite Hq.
    + intros Hlen. apply IH. lia.
Qed.

Lemma one_taken_count g g' :
  one_taken g g' →
  (length (taken g g') = 0 ∧ q g' = q g) ∨
  (length (taken g g') = 1 ∧ length (q g) = S (length (q g'))).
Proof.
  intros Hone. pose proof (shrinks_length _ _ (one_taken_shrinks _ _ Hone)) as Hlen.
  destruct Hone as (_ & _ & [Hq|[s Hq]]).
  - left. rewrite Hq in *. split; [lia|done].
  - right. rewrite Hq in *. simpl in *. split; lia.
Qed.

Lemma fill_loop_evenly fuel capacity subjects pre :
  length pre ≤ Z.to_nat capacity →
  Z.to_nat capacity - length pre < fuel →
  ∃ r t,
    fill_loop fuel capacity subjects (seats_of (Z.to_nat capacity) pre) (length pre)
      = Some (r, seats_of (Z.to_nat capacity) (pre ++ t)) ∧
    length pre + length t ≤ Z.to_nat capacity ∧
    drain subjects ≡ₚ t ++ drain r ∧
    Forall2 shrinks subjects r ∧
    evenly_taken subjects r ∧
    (Z.to_nat capacity ≤ length pre → r = subjects).
Proof.
  revert subjects pre.
  induction fuel as [|fuel IH]; intros subjects pre Hpre Hfuel; [lia|]. simpl.
  assert (∀ l : list group, Forall2 shrinks l l) as Hrefl.
  { intros l. apply Forall_Forall2_diag, Forall_forall. intros g _.
    by apply (shrinks_suffix g g []). }
  assert (∀ l : list group, evenly_taken l l) as Heven_refl.
  { intros l i j gi gj ri rj _ Hgi Hgj Hri Hrj _ _.
    rewrite Hgi in Hri. rewrite Hgj in Hrj. injection Hri as <-. injection Hrj as <-.
    unfold taken. rewrite !Nat.sub_diag. simpl. lia. }
  destruct (Z.ltb_spec (Z.of_nat (length pre)) capacity) as [Hlt|Hge].
  - rewrite sweep_take_round by done.
    pose proof (take_round_length (Z.to_nat capacity - length pre) subjects) as Hlen.
    pose proof (take_round_Permutation (Z.to_nat capacity - length pre) subjects) as Hperm.
    pose proof (take_round_one_taken (Z.to_nat capacity - length pre) subjects) as Hone.
    pose proof (take_round_nil (Z.to_nat capacity - length pre) subjects) as Hnil.
    pose proof (take_round_ordered (Z.to_nat capacity - length pre) subjects) as Hord.
    pose proof (take_round_uncut (Z.to_nat capacity - length pre) subjects) as Hunc.
    destruct (take_round (Z.to_nat capacity - length pre) subjects) as [t r].
    simpl in *. destruct t as [|s t].
    + exists r, []. rewrite app_nil_r. rewrite Hnil by done.
      split_and!; [by rewrite Hnil in *|simpl; lia| |done|done|lia].
      rewrite Hnil in Hperm by done. done.
    + replace (length pre + length (s :: t)) with (length (pre ++ s :: t))
        by (rewrite length_app; done).
      destruct (IH r (pre ++ s :: t))
        as (r' & t' & Heq & Hlen' & Hperm' & Hshr & Heven & Hfull).
      { rewrite length_app. simpl in *. lia. }
      { rewrite length_app. simpl in *. lia. }
      exists r', ((s :: t) ++ t'). rewrite (assoc_L (++)).
      rewrite length_app in Hlen', Hfull.
      assert (Forall2 shrinks subjects r) as Hshr1.
      { eapply Forall2_impl; [done|]. apply one_taken_shrinks. }
      split_and!; [done|rewrite length_app; lia| | | |lia].
      * rewrite Hperm, Hperm'. by rewrite (assoc_L (++)).
      * clear -Hshr1 Hshr. revert r' Hshr.
        induction Hshr1 as [|g g1 l l1 Hg _ IHl]; intros r' Hshr.
        { apply Forall2_nil_inv_l in Hshr as ->. constructor. }
        apply Forall2_cons_inv_l in Hshr as (g2 & l2 & Hg2 & Hl2 & ->).
        constructor; [by eapply shrinks_trans|by apply IHl].
      * intros i j gi gj ri rj Hij Hgi Hgj Hri Hrj Hqi Hqj.
        destruct (Forall2_lookup_l _ _ _ _ _ Hone Hgi) as (mi & Hmi & Honei).
        destruct (Forall2_lookup_l _ _ _ _ _ Hone Hgj) as (mj & Hmj & Honej).
        pose proof (Forall2_lookup_lr _ _ _ _ _ _ Hshr Hmi Hri) as Hsi.
        pose proof (Forall2_lookup_lr _ _ _ _ _ _ Hshr Hmj Hrj) as Hsj.
        pose proof (one_taken_shrinks _ _ Honei) as Hsi1.
        pose proof (one_taken_shrinks _ _ Honej) as Hsj1.
        rewrite (taken_trans gi mi ri), (taken_trans gj mj rj) by done.
        pose proof (shrinks_length _ _ Hsi) as Hli.
        pose proof (shrinks_length _ _ Hsj) as Hlj.
        assert (q mi ≠ []) as Hmi0
          by (intros H0; rewrite H0 in Hli; destruct (q ri); [done|simpl in Hli; lia]).
        assert (q mj ≠ []) as Hmj0
          by (intros H0; rewrite H0 in Hlj; destruct (q rj); [done|simpl in Hlj; lia]).
        assert (q gi ≠ []) as Hgi0.
        { intros H0. pose proof (shrinks_length _ _ Hsi1) as H1. rewrite H0 in H1.
          destruct (q mi); [done|simpl in H1; lia]. }
        assert (q gj ≠ []) as Hgj0.
        { intros H0. pose proof (shrinks_length _ _ Hsj1) as H1. rewrite H0 in H1.
          destruct (q mj); [done|simpl in H1; lia]. }
        destruct (decide (length (s :: t) < Z.to_nat capacity - length pre))
          as [Huncut|Hcut].
        -- destruct (Hunc i gi mi Huncut Hgi Hmi) as [Hti|?]; [|done].
           destruct (Hunc j gj mj Huncut Hgj Hmj) as [Htj|?]; [|done].
           destruct (one_taken_count _ _ Honei) as [[_ Hq]|[Hci _]];
             [rewrite Hq in Hti; lia|].
           destruct (one_taken_count _ _ Honej) as [[_ Hq]|[Hcj _]];
             [rewrite Hq in Htj; lia|].
           pose proof (Heven i j mi mj ri rj Hij Hmi Hmj Hri Hrj Hqi Hqj). lia.
        -- rewrite Hfull in Hri, Hrj by (simpl in *; lia).
           rewrite Hmi in Hri. rewrite Hmj in Hrj.
           injection Hri as <-. injection Hrj as <-.
           assert (∀ g : group, length (taken g g) = 0) as Hzero.
           { intros g. unfold taken. by rewrite Nat.sub_diag. }
           rewrite !Hzero.
           destruct (one_taken_count _ _ Honei) as [[Hci _]|[Hci Hti]],
                    (one_taken_count _ _ Honej) as [[Hcj _]|[Hcj Htj]]; try lia.
           destruct (Hord i j gi gj mi mj Hij Hgi Hgj Hmi Hmj Htj) as [Hti|?];
             [|done].
           pose proof (shrinks_length _ _ Hsi1). lia.
  - exists subjects, []. rewrite app_nil_r.
    split_and!; [done|simpl; lia|done|done|done|done].
Qed.

(** X30. Every hall takes evenly from the subjects: filling a hall takes
    from the front of each group's queue, the hall seats exactly the
    students taken, and of two groups that both have students left when
    the hall is done, the one that comes first in the list gives as many
    students as the other, or one more. *)
Theorem fill_hall_evenly (h : hall) (subjects : list group) :
  (0 ≤ benches h)%Z →
  ∃ r t,
    fill_hall h subjects = Some (r, block (hall_id h) t) ∧
    Forall2 shrinks subjects r ∧
    t ≡ₚ concat (zip_with taken subjects r) ∧
    evenly_taken subjects r.
Proof.
  intros Hb. unfold fill_hall, new_Array_fill.
  destruct (Z.ltb_spec (benches h) 0) as [?|_]; [lia|]. cbn [mbind option_bind].
  destruct (fill_loop_evenly (S (Z.to_nat (benches h))) (benches h) subjects [])
    as (r & t & Heq & Hlen & Hperm & Hshr & Heven & _); [simpl; lia..|].
  assert (seats_of (Z.to_nat (benches h)) [] = replicate (Z.to_nat (benches h)) None)
    as Hnil by (unfold seats_of; simpl; by rewrite Nat.sub_0_r).
  rewrite Hnil in Heq. change (length (@nil student)) with 0 in *.
  rewrite app_nil_l in Heq. rewrite Heq. cbn [mbind option_bind].
  exists r, t. split_and!; [|done| |done].
  - unfold seats_of, block. by rewrite collect_seats_seats_of.
  - apply (Permutation_app_inv_r (drain r)). rewrite <-Hperm.
    clear -Hshr. unfold drain.
    induction Hshr as [|g g' l l' [_ Hq] _ IH]; [done|]. simpl.
    rewrite IH, Hq at 1. rewrite <-!(assoc_L (++)). f_equiv.
    rewrite !(assoc_L (++)). f_equiv. apply Permutation_app_comm.
Qed.

Lemma fill_hall_evenly_witness :
  ∃ r t,
    fill_hall example_hall (make_subjects example_rnd 0 example_mixed_pool)
      = Some (r, block (hall_id example_hall) t) ∧
    Forall2 shrinks (make_subjects example_rnd 0 example_mixed_pool) r ∧
    t ≡ₚ concat (zip_with taken (make_subjects example_rnd 0 example_mixed_pool) r) ∧
    evenly_taken (make_subjects example_rnd 0 example_mixed_pool) r.
Proof.
  apply (fill_hall_evenly example_hall). simpl. lia.
Defined.
